(** * Runtime.cpp: the lifecycle of runtime instances

    A shallow embedding of [runtime/src/main/cpp/Runtime.cpp]: the
    initializer chain, the list of live runtimes, the per-thread binding
    slot, the status machine and the interrupt handler.

    Every function of the source is a program: a tree of atomic steps on
    the shared memory.  One reading of the tree runs a program alone on a
    thread ([run]); another one interleaves the steps of the programs of
    several threads ([exec]). *)

From Stdlib Require Import ZArith List String Lia.
From stdpp Require Import base option gmap list.

Local Open Scope Z_scope.

(** ** Memory *)

(** The address of an object.  A pointer is an [option loc], and [None]
    is [nullptr]. *)
Definition loc := positive.

(** The address of a function, for a function pointer that is not null. *)
Definition fnptr := positive.

(** [struct InitNode { Initializer init; InitNode* next; }]. *)
Record InitNode := mkInitNode {
  init : fnptr;
  nextNode : option loc
}.

(** Modelled from the spec: the declaration of [RuntimeState] is in
    MemoryPrivate.hpp; these are the fields Runtime.cpp reads and writes
    (the creating thread, the status, the opaque memory handle, the
    optional interrupt handler and the registry link). *)
Record RuntimeState := mkRuntimeState {
  threadId : Z;
  handler : option fnptr;
  memoryState : Z;
  executionStatus : Z;
  next : option loc
}.

Definition INIT_GLOBALS : Z := 0.
Definition INIT_THREAD_LOCAL_GLOBALS : Z := 1.
Definition DEINIT_THREAD_LOCAL_GLOBALS : Z := 2.
Definition DEINIT_GLOBALS : Z := 3.

Definition SUSPENDED : Z := 0.
Definition RUNNING : Z := 1.
Definition DESTROYING : Z := 2.

(** The variables of the file, and the objects they point to.  The two
    thread-local variables are maps from the thread: a thread that is
    absent from [runtimeState] has [nullptr] there, and one absent from
    [isMainThread] has [0]. *)
Record World := mkWorld {
  initHeadNode : option loc;
  initTailNode : option loc;
  initNodes : gmap loc InitNode;
  runtimeState : gmap Z loc;
  isMainThread : gmap Z Z;
  aliveRuntimesCount : Z;
  runtimesLock : Z;
  runtimeStateList : option loc;
  instances : gmap loc RuntimeState
}.

(** A store to one variable. *)
Definition with_initHeadNode (v : option loc) (w : World) : World :=
  match w with
  | mkWorld _ tl nodes slots mains count lock list insts =>
      mkWorld v tl nodes slots mains count lock list insts
  end.
Definition with_initTailNode (v : option loc) (w : World) : World :=
  match w with
  | mkWorld hd _ nodes slots mains count lock list insts =>
      mkWorld hd v nodes slots mains count lock list insts
  end.
Definition with_initNodes (v : gmap loc InitNode) (w : World) : World :=
  match w with
  | mkWorld hd tl _ slots mains count lock list insts =>
      mkWorld hd tl v slots mains count lock list insts
  end.
Definition with_runtimeState (v : gmap Z loc) (w : World) : World :=
  match w with
  | mkWorld hd tl nodes _ mains count lock list insts =>
      mkWorld hd tl nodes v mains count lock list insts
  end.
Definition with_isMainThread (v : gmap Z Z) (w : World) : World :=
  match w with
  | mkWorld hd tl nodes slots _ count lock list insts =>
      mkWorld hd tl nodes slots v count lock list insts
  end.
Definition with_aliveRuntimesCount (v : Z) (w : World) : World :=
  match w with
  | mkWorld hd tl nodes slots mains _ lock list insts =>
      mkWorld hd tl nodes slots mains v lock list insts
  end.
Definition with_runtimesLock (v : Z) (w : World) : World :=
  match w with
  | mkWorld hd tl nodes slots mains count _ list insts =>
      mkWorld hd tl nodes slots mains count v list insts
  end.
Definition with_runtimeStateList (v : option loc) (w : World) : World :=
  match w with
  | mkWorld hd tl nodes slots mains count lock _ insts =>
      mkWorld hd tl nodes slots mains count lock v insts
  end.
Definition with_instances (v : gmap loc RuntimeState) (w : World) : World :=
  match w with
  | mkWorld hd tl nodes slots mains count lock list _ =>
      mkWorld hd tl nodes slots mains count lock list v
  end.

(** The variables as the file declares them, before anything has run. *)
Definition initial_world : World :=
  mkWorld None None ∅ ∅ ∅ 0 0 None ∅.

(** A value of C type [int] after an addition: two's complement on 32
    bits. *)
Definition wrap32 (z : Z) : Z := (z + 2 ^ 31) mod 2 ^ 32 - 2 ^ 31.

(** What the other translation units answer during one call: the address
    [konanConstructInstance] returns ([None] when the allocation fails) and
    the handle [InitMemory] or [SuspendMemory] returns. *)
Record Env := mkEnv {
  env_alloc : option loc;
  env_memory : Z
}.

(** ** What a run shows

    The calls that leave the file (collaborators and callbacks), and the
    stores to the variables and objects above, in the order they happen.
    Loads are silent. *)
Inductive Event :=
| EvSetKonanTerminateHandler
| EvKonanConstructInstance (result : option loc)
| EvKonanDestructInstance (state : loc)
| EvInitMemory (result : Z)
| EvDeinitMemory (memory : Z)
| EvSuspendMemory (result : Z)
| EvResumeMemory (memory : Z)
| EvAtomicAdd (what old new : Z)
| EvSpinLock
| EvSpinUnlock
| EvSetThreadInterruptHandler
| EvConsoleInit
| EvOnThreadExit
| EvInitOrDeinitGlobalVariables (initialize : Z)
| EvInitializer (f : fnptr) (initialize : Z)
| EvHandler (h : fnptr) (state : loc)
| EvOperation (state : loc)
| EvStatus (state : loc) (oldStatus newStatus : Z)
| EvSetThreadId (state : loc) (v : Z)
| EvSetHandler (state : loc) (v : option fnptr)
| EvSetMemoryState (state : loc) (v : Z)
| EvSetNext (state : loc) (v : option loc)
| EvSetRuntimeStateList (v : option loc)
| EvSetRuntimeState (v : option loc)
| EvSetIsMainThread (v : Z)
| EvSetInitHeadNode (v : option loc)
| EvSetInitTailNode (v : option loc)
| EvSetNextNode (node : loc) (v : option loc).

(** ** Programs *)

(** One atomic step of a thread: with the answers of the collaborators
    and the thread that takes it, from a world.  [Fault] is a load or a
    store through a null or dangling pointer.  [Disabled] is a step that
    cannot be taken now: [spinLock] while the lock is held (the thread
    keeps spinning), or an allocation for which [env_alloc] offers the
    address of a live instance, which no allocator does. *)
Inductive Step (X : Type) : Type :=
| Done (x : X) (w : World) (evs : list Event)
| Fault
| Disabled.
Arguments Done {X} x w evs.
Arguments Fault {X}.
Arguments Disabled {X}.

Definition Atomic (X : Type) : Type := Env → Z → World → Step X.

(** A program: it returns, or fails a [RuntimeCheck] (which terminates the
    process), or loops for ever, or takes a step and goes on with what the
    step gave. *)
Inductive Prog (A : Type) : Type :=
| Ret (a : A)
| Fatal (msg : string)
| Spin
| Atom {X : Type} (m : Atomic X) (k : X → Prog A).
Arguments Ret {A} a.
Arguments Fatal {A} msg.
Arguments Spin {A}.
Arguments Atom {A X} m k.

Fixpoint bind {A B : Type} (p : Prog A) (f : A → Prog B) : Prog B :=
  match p with
  | Ret a => f a
  | Fatal msg => Fatal msg
  | Spin => Spin
  | Atom m k => Atom m (λ x, bind (k x) f)
  end.

Notation "x <- p ;; q" := (bind p (λ x, q))
  (at level 100, p at next level, right associativity, only parsing).
Notation "p ;; q" := (bind p (λ _, q))
  (at level 100, right associativity, only parsing).

Definition atom {X : Type} (m : Atomic X) : Prog X := Atom m Ret.

(** How a program ended when run alone. *)
Inductive Outcome (A : Type) : Type :=
| Returned (a : A)
| Aborted (msg : string)
| Crashed
| Hung.
Arguments Returned {A} a.
Arguments Aborted {A} msg.
Arguments Crashed {A}.
Arguments Hung {A}.

Definition after {A : Type} (evs : list Event)
    (r : Outcome A * World * list Event) : Outcome A * World * list Event :=
  match r with
  | (o, w, evs') => (o, w, evs ++ evs')
  end.

(** A program run alone on thread [t]: how it ended, the world it left
    and what it showed. *)
Fixpoint run {A : Type} (p : Prog A) (env : Env) (t : Z) (w : World)
  : Outcome A * World * list Event :=
  match p with
  | Ret a => (Returned a, w, [])
  | Fatal msg => (Aborted msg, w, [])
  | Spin => (Hung, w, [])
  | Atom m k =>
      match m env t w with
      | Done x w' evs => after evs (run (k x) env t w')
      | Fault => (Crashed, w, [])
      | Disabled => (Hung, w, [])
      end
  end.

(** ** The steps of the source *)

(** *** Loads and stores of the variables *)

Definition get_initHeadNode : Prog (option loc) :=
  atom (λ _ _ w, Done (initHeadNode w) w []).
Definition set_initHeadNode (v : option loc) : Prog unit :=
  atom (λ _ _ w, Done tt (with_initHeadNode v w) [EvSetInitHeadNode v]).
Definition get_initTailNode : Prog (option loc) :=
  atom (λ _ _ w, Done (initTailNode w) w []).
Definition set_initTailNode (v : option loc) : Prog unit :=
  atom (λ _ _ w, Done tt (with_initTailNode v w) [EvSetInitTailNode v]).

(** The thread-local [runtimeState] of the thread that takes the step. *)
Definition get_runtimeState : Prog (option loc) :=
  atom (λ _ t w, Done (runtimeState w !! t) w []).
Definition set_runtimeState (v : option loc) : Prog unit :=
  atom (λ _ t w,
    Done tt
      (with_runtimeState
         (match v with
          | Some p => <[t:=p]> (runtimeState w)
          | None => delete t (runtimeState w)
          end) w)
      [EvSetRuntimeState v]).
Definition set_isMainThread (v : Z) : Prog unit :=
  atom (λ _ t w,
    Done tt (with_isMainThread (<[t:=v]> (isMainThread w)) w) [EvSetIsMainThread v]).

Definition get_runtimesLock : Prog Z :=
  atom (λ _ _ w, Done (runtimesLock w) w []).
Definition get_runtimeStateList : Prog (option loc) :=
  atom (λ _ _ w, Done (runtimeStateList w) w []).
Definition set_runtimeStateList (v : option loc) : Prog unit :=
  atom (λ _ _ w, Done tt (with_runtimeStateList v w) [EvSetRuntimeStateList v]).

(** *** Loads and stores through a pointer *)

(** [state->f]. *)
Definition load {X : Type} (f : RuntimeState → X) (state : option loc) : Prog X :=
  atom (λ _ _ w,
    match state ≫= (λ p, instances w !! p) with
    | Some st => Done (f st) w []
    | None => Fault
    end).

(** [state->f = v], where [upd] writes the field and [ev] names the store. *)
Definition store (upd : RuntimeState → RuntimeState) (ev : loc → Event)
    (state : option loc) : Prog unit :=
  atom (λ _ _ w,
    match state with
    | Some p =>
        match instances w !! p with
        | Some st => Done tt (with_instances (<[p:=upd st]> (instances w)) w) [ev p]
        | None => Fault
        end
    | None => Fault
    end).

Definition set_threadId (state : option loc) (v : Z) : Prog unit :=
  store (λ st, mkRuntimeState v (handler st) (memoryState st) (executionStatus st) (next st))
        (λ p, EvSetThreadId p v) state.
Definition set_handler (state : option loc) (v : option fnptr) : Prog unit :=
  store (λ st, mkRuntimeState (threadId st) v (memoryState st) (executionStatus st) (next st))
        (λ p, EvSetHandler p v) state.
Definition set_memoryState (state : option loc) (v : Z) : Prog unit :=
  store (λ st, mkRuntimeState (threadId st) (handler st) v (executionStatus st) (next st))
        (λ p, EvSetMemoryState p v) state.
Definition set_next (state : option loc) (v : option loc) : Prog unit :=
  store (λ st, mkRuntimeState (threadId st) (handler st) (memoryState st) (executionStatus st) v)
        (λ p, EvSetNext p v) state.

Definition with_executionStatus (v : Z) (st : RuntimeState) : RuntimeState :=
  mkRuntimeState (threadId st) (handler st) (memoryState st) v (next st).

(** [node->f] and [node->next = v] for an [InitNode]. *)
Definition load_node {X : Type} (f : InitNode → X) (node : option loc) : Prog X :=
  atom (λ _ _ w,
    match node ≫= (λ p, initNodes w !! p) with
    | Some nd => Done (f nd) w []
    | None => Fault
    end).
Definition set_nextNode (node : option loc) (v : option loc) : Prog unit :=
  atom (λ _ _ w,
    match node with
    | Some p =>
        match initNodes w !! p with
        | Some nd =>
            Done tt (with_initNodes (<[p:=mkInitNode (init nd) v]> (initNodes w)) w)
                 [EvSetNextNode p v]
        | None => Fault
        end
    | None => Fault
    end).

(** *** Collaborators *)

(** Modelled from the spec: [konanConstructInstance] and
    [konanDestructInstance] are in Alloc.h.  The state is allocated
    zero-valued (which is what makes its status SUSPENDED) and the
    allocation may fail, which gives a null result. *)
Definition zero_RuntimeState : RuntimeState := mkRuntimeState 0 None 0 0 None.

Definition konanConstructInstance : Prog (option loc) :=
  atom (λ env _ w,
    match env_alloc env with
    | None => Done None w [EvKonanConstructInstance None]
    | Some p =>
        match instances w !! p with
        | Some _ => Disabled
        | None =>
            Done (Some p) (with_instances (<[p:=zero_RuntimeState]> (instances w)) w)
                 [EvKonanConstructInstance (Some p)]
        end
    end).

Definition konanDestructInstance (state : option loc) : Prog unit :=
  atom (λ _ _ w,
    match state with
    | Some p =>
        match instances w !! p with
        | Some _ => Done tt (with_instances (delete p (instances w)) w)
                         [EvKonanDestructInstance p]
        | None => Fault
        end
    | None => Fault
    end).

(** Modelled from the spec: [atomicAdd] is in Atomic.h.  It adds
    atomically and returns the new value: the caller tests whether its
    increment made the count 1, or its decrement made it 0. *)
Definition atomicAdd_aliveRuntimesCount (what : Z) : Prog Z :=
  atom (λ _ _ w,
    let new := wrap32 (aliveRuntimesCount w + what) in
    Done new (with_aliveRuntimesCount new w) [EvAtomicAdd what (aliveRuntimesCount w) new]).

(** Modelled from the spec: [spinLock] and [spinUnlock] are in Atomic.h,
    a busy-wait lock that is not reentrant.  The lock word is 1 while the
    lock is held ([Kotlin_iterateRuntimes] checks so) and 0 otherwise. *)
Definition spinLock_runtimesLock : Prog unit :=
  atom (λ _ _ w,
    if decide (runtimesLock w = 0)
    then Done tt (with_runtimesLock 1 w) [EvSpinLock]
    else Disabled).
Definition spinUnlock_runtimesLock : Prog unit :=
  atom (λ _ _ w, Done tt (with_runtimesLock 0 w) [EvSpinUnlock]).

(** A call that leaves the file and changes nothing here. *)
Definition call (ev : Event) : Prog unit :=
  atom (λ _ _ w, Done tt w [ev]).

Definition SetKonanTerminateHandler : Prog unit := call EvSetKonanTerminateHandler.
Definition setThreadInterruptHandler : Prog unit := call EvSetThreadInterruptHandler.
Definition consoleInit : Prog unit := call EvConsoleInit.
Definition onThreadExit : Prog unit := call EvOnThreadExit.
Definition DeinitMemory (memory : Z) : Prog unit := call (EvDeinitMemory memory).
Definition ResumeMemory (memory : Z) : Prog unit := call (EvResumeMemory memory).
Definition InitMemory : Prog Z :=
  atom (λ env _ w, Done (env_memory env) w [EvInitMemory (env_memory env)]).
Definition SuspendMemory : Prog Z :=
  atom (λ env _ w, Done (env_memory env) w [EvSuspendMemory (env_memory env)]).

(** [konan::currentThread()]: the thread that takes the step. *)
Definition currentThread : Prog Z :=
  atom (λ _ t w, Done t w []).

(** [RuntimeCheck(condition, message)]. *)
Definition RuntimeCheck (condition : bool) (message : string) : Prog unit :=
  if condition then Ret tt else Fatal message.

(** ** The functions of Runtime.cpp *)

Section Runtime.

(** A bound on the turns of every loop of the file: the loops walk linked
    lists, and a list that runs into itself is walked for ever.  A loop
    that needs more turns than [fuel] is [Spin]. *)
Variable fuel : nat.

Definition updateStatusIf (state : option loc) (oldStatus newStatus : Z) : Prog bool :=
  atom (λ _ _ w,
    match state with
    | Some p =>
        match instances w !! p with
        | Some st =>
            if decide (executionStatus st = oldStatus)
            then Done true
                   (with_instances (<[p:=with_executionStatus newStatus st]> (instances w)) w)
                   [EvStatus p oldStatus newStatus]
            else Done false w []
        | None => Fault
        end
    | None => Fault
    end).

(** The loop of [InitOrDeinitGlobalVariables], from [currNode] on. *)
Fixpoint InitOrDeinitGlobalVariables_loop (n : nat) (initialize : Z)
    (currNode : option loc) : Prog unit :=
  match currNode with
  | None => Ret tt
  | Some _ =>
      match n with
      | O => Spin
      | S n' =>
          f <- load_node init currNode;;
          call (EvInitializer f initialize);;
          currNode' <- load_node nextNode currNode;;
          InitOrDeinitGlobalVariables_loop n' initialize currNode'
      end
  end.

(** The call itself is shown, so that a phase over an empty chain leaves
    a mark too. *)
Definition InitOrDeinitGlobalVariables (initialize : Z) : Prog unit :=
  call (EvInitOrDeinitGlobalVariables initialize);;
  currNode <- get_initHeadNode;;
  InitOrDeinitGlobalVariables_loop fuel initialize currNode.

Definition Kotlin_lockRuntimes : Prog unit := spinLock_runtimesLock.
Definition Kotlin_unlockRuntimes : Prog unit := spinUnlock_runtimesLock.

(** The loop of [threadInterruptHandler]: what [state] is after it (it is
    [nullptr] before). *)
Fixpoint threadInterruptHandler_loop (n : nat) (threadId' : Z)
    (current : option loc) : Prog (option loc) :=
  match current with
  | None => Ret None
  | Some _ =>
      match n with
      | O => Spin
      | S n' =>
          tid <- load threadId current;;
          if decide (tid = threadId') then Ret current
          else
            current' <- load next current;;
            threadInterruptHandler_loop n' threadId' current'
      end
  end.

Definition threadInterruptHandler (ignore : Z) : Prog unit :=
  state <- get_runtimeState;;
  state <- match state with
           | Some _ => Ret state
           | None =>
               lock <- get_runtimesLock;;
               if decide (lock ≠ 0) then
                 threadId' <- currentThread;;
                 current <- get_runtimeStateList;;
                 threadInterruptHandler_loop fuel threadId' current
               else Ret state
           end;;
  match state with
  | None => Ret tt
  | Some p =>
      h <- load handler state;;
      match h with
      | None => Ret tt
      | Some h => call (EvHandler h p)
      end
  end.

Definition initRuntime : Prog (option loc) :=
  SetKonanTerminateHandler;;
  result <- konanConstructInstance;;
  match result with
  | None => Ret None
  | Some _ =>
      tid <- currentThread;;
      set_threadId result tid;;
      set_handler result None;;
      memory <- InitMemory;;
      set_memoryState result memory;;
      count <- atomicAdd_aliveRuntimesCount 1;;
      let firstRuntime := bool_decide (count = 1) in
      Kotlin_lockRuntimes;;
      list <- get_runtimeStateList;;
      set_next result list;;
      set_runtimeStateList result;;
      Kotlin_unlockRuntimes;;
      (if firstRuntime then
         setThreadInterruptHandler;;
         set_isMainThread 1;;
         consoleInit;;
         InitOrDeinitGlobalVariables INIT_GLOBALS
       else Ret tt);;
      InitOrDeinitGlobalVariables INIT_THREAD_LOCAL_GLOBALS;;
      Ret result
  end.

(** The loop of [deinitRuntime] that unlinks [state] from the list. *)
Fixpoint deinitRuntime_loop (n : nat) (state current previous : option loc) : Prog unit :=
  match current with
  | None => Ret tt
  | Some _ =>
      match n with
      | O => Spin
      | S n' =>
          if decide (current = state) then
            match previous with
            | Some _ => current_next <- load next current;; set_next previous current_next
            | None => current_next <- load next current;; set_runtimeStateList current_next
            end
          else
            current' <- load next current;;
            deinitRuntime_loop n' state current' current
      end
  end.

Definition deinitRuntime (state : option loc) : Prog unit :=
  count <- atomicAdd_aliveRuntimesCount (-1);;
  let lastRuntime := bool_decide (count = 0) in
  InitOrDeinitGlobalVariables DEINIT_THREAD_LOCAL_GLOBALS;;
  (if lastRuntime then InitOrDeinitGlobalVariables DEINIT_GLOBALS else Ret tt);;
  Kotlin_lockRuntimes;;
  current <- get_runtimeStateList;;
  deinitRuntime_loop fuel state current None;;
  Kotlin_unlockRuntimes;;
  memory <- load memoryState state;;
  DeinitMemory memory;;
  konanDestructInstance state.

Definition AppendToInitializersTail (next' : option loc) : Prog unit :=
  head <- get_initHeadNode;;
  match head with
  | None => set_initHeadNode next'
  | Some _ =>
      tail <- get_initTailNode;;
      set_nextNode tail next'
  end;;
  set_initTailNode next'.

(** The loop of [Kotlin_iterateRuntimes].  The operation is the
    embedder's: the run shows each call, and [operation] is what the call
    answers. *)
Fixpoint Kotlin_iterateRuntimes_loop (n : nat) (operation : loc → bool)
    (current : option loc) : Prog unit :=
  match current with
  | None => Ret tt
  | Some p =>
      match n with
      | O => Spin
      | S n' =>
          call (EvOperation p);;
          if operation p then Ret tt
          else
            current' <- load next current;;
            Kotlin_iterateRuntimes_loop n' operation current'
      end
  end.

Definition Kotlin_iterateRuntimes (operation : loc → bool) : Prog unit :=
  lock <- get_runtimesLock;;
  RuntimeCheck (bool_decide (lock = 1)) "Lock must be taken";;
  current <- get_runtimeStateList;;
  Kotlin_iterateRuntimes_loop fuel operation current.

Definition Kotlin_deinitRuntimeIfNeeded : Prog unit :=
  state <- get_runtimeState;;
  match state with
  | None => Ret tt
  | Some _ =>
      state <- get_runtimeState;;
      ok <- updateStatusIf state RUNNING DESTROYING;;
      RuntimeCheck ok "Cannot transition state to DESTROYING";;
      state <- get_runtimeState;;
      deinitRuntime state;;
      set_runtimeState None
  end.

Definition Kotlin_initRuntimeIfNeeded : Prog unit :=
  state <- get_runtimeState;;
  match state with
  | Some _ => Ret tt
  | None =>
      result <- initRuntime;;
      set_runtimeState result;;
      state <- get_runtimeState;;
      ok <- updateStatusIf state SUSPENDED RUNNING;;
      RuntimeCheck ok "Cannot transition state to RUNNING for init";;
      onThreadExit
  end.

Definition Kotlin_createRuntime : Prog (option loc) := initRuntime.

Definition Kotlin_destroyRuntime (state : option loc) : Prog unit :=
  ok <- updateStatusIf state SUSPENDED DESTROYING;;
  RuntimeCheck ok "Cannot transition state to DESTROYING";;
  deinitRuntime state.

Definition Kotlin_suspendRuntime : Prog (option loc) :=
  state <- get_runtimeState;;
  RuntimeCheck (bool_decide (state ≠ None)) "Runtime must be active on the current thread";;
  result <- get_runtimeState;;
  ok <- updateStatusIf result RUNNING SUSPENDED;;
  RuntimeCheck ok "Cannot transition state to SUSPENDED for suspend";;
  memory <- SuspendMemory;;
  set_memoryState result memory;;
  set_runtimeState None;;
  Ret result.

Definition Kotlin_resumeRuntime (state : option loc) : Prog unit :=
  current <- get_runtimeState;;
  RuntimeCheck (bool_decide (current = None)) "Runtime must not be active on the current thread";;
  ok <- updateStatusIf state SUSPENDED RUNNING;;
  RuntimeCheck ok "Cannot transition state to RUNNING for resume";;
  set_runtimeState state;;
  memory <- load memoryState state;;
  ResumeMemory memory.

Definition Kotlin_getRuntime : Prog (option loc) :=
  state <- get_runtimeState;;
  RuntimeCheck (bool_decide (state ≠ None)) "Runtime must be active on the current thread";;
  get_runtimeState.

End Runtime.

(** ** Notions for the statements *)

(** What comes after a run that returned; a run that ended otherwise stays
    as it is. *)
Definition and_then {A B : Type} (r : Outcome A * World * list Event)
    (f : A → World → Outcome B * World * list Event) : Outcome B * World * list Event :=
  match r with
  | (Returned a, w, evs) => after evs (f a w)
  | (Aborted msg, w, evs) => (Aborted msg, w, evs)
  | (Crashed, w, evs) => (Crashed, w, evs)
  | (Hung, w, evs) => (Hung, w, evs)
  end.

(** A program that only looks: alone, it leaves the world as it is and
    shows nothing, however it ends. *)
Definition looks_only {A : Type} (p : Prog A) : Prop :=
  ∀ env t w, (run p env t w).1.2 = w ∧ (run p env t w).2 = [].

(** The first half of [threadInterruptHandler], up to the test of the
    handler: the state it settles on.  That is the slot of the thread, else
    what the scan of the list finds, and the scan is made when the lock
    word is not 0. *)
Definition threadInterruptHandler_lookup (fuel : nat) : Prog (option loc) :=
  state <- get_runtimeState;;
  match state with
  | Some _ => Ret state
  | None =>
      lock <- get_runtimesLock;;
      if decide (lock ≠ 0) then
        threadId' <- currentThread;;
        current <- get_runtimeStateList;;
        threadInterruptHandler_loop fuel threadId' current
      else Ret state
  end.

(** The list of live runtimes as the sequence of its addresses: from
    [head], following [next] up to [nullptr]. *)
Fixpoint is_registry (h : gmap loc RuntimeState) (head : option loc) (l : list loc) : Prop :=
  match l with
  | [] => head = None
  | p :: l' => head = Some p ∧ ∃ st, h !! p = Some st ∧ is_registry h (next st) l'
  end.

(** The first entry of a sequence of addresses that was created by
    thread [tid]. *)
Definition first_of_thread (h : gmap loc RuntimeState) (tid : Z) (l : list loc) : option loc :=
  List.find (λ p, bool_decide (threadId <$> h !! p = Some tid)) l.

(** What calling the handler of [state] shows: nothing for no state or no
    handler. *)
Definition handler_events (h : gmap loc RuntimeState) (state : option loc) : list Event :=
  match state with
  | Some p =>
      match h !! p ≫= handler with
      | Some f => [EvHandler f p]
      | None => []
      end
  | None => []
  end.

(** Worlds to try the functions on: thread 7 has created runtime 1, which
    has a handler; in the second one the lock is held. *)
Definition world_one_runtime : World :=
  mkWorld None None ∅ ∅ {[ 7 := 1 ]} 1 0 (Some 1%positive)
          {[ 1%positive := mkRuntimeState 7 (Some 5%positive) 100 SUSPENDED None ]}.

Definition world_one_runtime_locked : World := with_runtimesLock 1 world_one_runtime.

(** The same runtime attached to its thread. *)
Definition world_attached : World :=
  mkWorld None None ∅ {[ 7 := 1%positive ]} {[ 7 := 1 ]} 1 0 (Some 1%positive)
          {[ 1%positive := mkRuntimeState 7 (Some 5%positive) 100 RUNNING None ]}.

(** The initializer chain as the sequence of its nodes, each with its
    callback: from [head], following [next] up to [nullptr]. *)
Fixpoint is_chain (nodes : gmap loc InitNode) (head : option loc)
    (l : list (loc * fnptr)) : Prop :=
  match l with
  | [] => head = None
  | pf :: l' =>
      head = Some pf.1 ∧
      ∃ nx, nodes !! pf.1 = Some (mkInitNode pf.2 nx) ∧ is_chain nodes nx l'
  end.

(** What one phase shows over a chain: the call, then every callback of
    the chain, first to last, with the tag of the phase. *)
Definition phase_events (initialize : Z) (l : list (loc * fnptr)) : list Event :=
  EvInitOrDeinitGlobalVariables initialize :: map (λ pf, EvInitializer pf.2 initialize) l.

(** A program that leaves a part of the world as it is, however it ends. *)
Definition keeps {A X : Type} (part : World → X) (p : Prog A) : Prop :=
  ∀ env t w, part (run p env t w).1.2 = part w.

(** The world a creation leaves: the new state [p] made by thread [t]
    with the memory handle [memory], at the head of the list, the count
    one up, and thread [t] marked main if that made the count 1. *)
Definition world_created (p : loc) (t memory : Z) (w : World) : World :=
  let count := wrap32 (aliveRuntimesCount w + 1) in
  mkWorld (initHeadNode w) (initTailNode w) (initNodes w) (runtimeState w)
    (if bool_decide (count = 1) then <[t:=1]> (isMainThread w) else isMainThread w)
    count 0 (Some p)
    (<[p:=mkRuntimeState t None memory 0 (runtimeStateList w)]> (instances w)).

(** What a creation shows, in order. *)
Definition events_created (p : loc) (t memory : Z) (w : World)
    (l : list (loc * fnptr)) : list Event :=
  let count := wrap32 (aliveRuntimesCount w + 1) in
  [EvSetKonanTerminateHandler;
   EvKonanConstructInstance (Some p);
   EvSetThreadId p t;
   EvSetHandler p None;
   EvInitMemory memory;
   EvSetMemoryState p memory;
   EvAtomicAdd 1 (aliveRuntimesCount w) count;
   EvSpinLock;
   EvSetNext p (runtimeStateList w);
   EvSetRuntimeStateList (Some p);
   EvSpinUnlock]
  ++ (if bool_decide (count = 1)
      then [EvSetThreadInterruptHandler; EvSetIsMainThread 1; EvConsoleInit]
           ++ phase_events INIT_GLOBALS l
      else [])
  ++ phase_events INIT_THREAD_LOCAL_GLOBALS l.

(** The place of the first event of a run that satisfies [P]. *)
Fixpoint position (P : Event → bool) (evs : list Event) : option nat :=
  match evs with
  | [] => None
  | e :: evs' => if P e then Some O else S <$> position P evs'
  end.

Definition is_registry_insertion (e : Event) : bool :=
  match e with EvSetRuntimeStateList (Some _) => true | _ => false end.
Definition is_phase (initialize : Z) (e : Event) : bool :=
  match e with
  | EvInitOrDeinitGlobalVariables i => bool_decide (i = initialize)
  | _ => false
  end.
Definition is_interrupt_installation (e : Event) : bool :=
  match e with EvSetThreadInterruptHandler => true | _ => false end.

(** A world with a chain of two initializers, 20 then 21, and nothing
    else. *)
Definition world_two_initializers : World :=
  mkWorld (Some 10%positive) (Some 11%positive)
          {[ 10%positive := mkInitNode 20%positive (Some 11%positive);
             11%positive := mkInitNode 21%positive None ]}
          ∅ ∅ 0 0 None ∅.

(** The registrations of a sequence of nodes, one call of
    [AppendToInitializersTail] after another. *)
Fixpoint registerAll (nodes : list loc) : Prog unit :=
  match nodes with
  | [] => Ret tt
  | p :: rest => AppendToInitializersTail (Some p);; registerAll rest
  end.

(** The chain holds the nodes of [l], each once, and [initTailNode] is the
    last of them. *)
Definition chain_registered (w : World) (l : list (loc * fnptr)) : Prop :=
  is_chain (initNodes w) (initHeadNode w) l ∧
  NoDup l.*1 ∧
  (l ≠ [] → initTailNode w = last l.*1).

(** Three nodes that are not registered yet, with the callbacks 20, 21
    and 22. *)
Definition world_three_nodes : World :=
  mkWorld None None
          {[ 10%positive := mkInitNode 20%positive None;
             11%positive := mkInitNode 21%positive None;
             12%positive := mkInitNode 22%positive None ]}
          ∅ ∅ 0 0 None ∅.

(** ** The status machine *)

(** The operations on runtimes that the file gives to embedders and to
    compiled code. *)
Inductive Operation :=
| OpInitRuntimeIfNeeded
| OpDeinitRuntimeIfNeeded
| OpCreateRuntime
| OpDestroyRuntime (state : option loc)
| OpSuspendRuntime
| OpResumeRuntime (state : option loc)
| OpGetRuntime
| OpInterrupt.

Definition operation (fuel : nat) (op : Operation) : Prog unit :=
  match op with
  | OpInitRuntimeIfNeeded => Kotlin_initRuntimeIfNeeded fuel
  | OpDeinitRuntimeIfNeeded => Kotlin_deinitRuntimeIfNeeded fuel
  | OpCreateRuntime => Kotlin_createRuntime fuel;; Ret tt
  | OpDestroyRuntime state => Kotlin_destroyRuntime fuel state
  | OpSuspendRuntime => Kotlin_suspendRuntime;; Ret tt
  | OpResumeRuntime state => Kotlin_resumeRuntime state
  | OpGetRuntime => Kotlin_getRuntime;; Ret tt
  | OpInterrupt => threadInterruptHandler fuel 0
  end.

(** From the heap [h] to the heap [h'], every state that was DESTROYING
    is still there and still DESTROYING, but for the state [s]. *)
Definition stable_but (s : option loc) (h h' : gmap loc RuntimeState) : Prop :=
  ∀ p st, Some p ≠ s → h !! p = Some st → executionStatus st = DESTROYING →
    ∃ st', h' !! p = Some st' ∧ executionStatus st' = DESTROYING.

(** A store of a status that a run shows is a compare-and-exchange from
    SUSPENDED or from RUNNING. *)
Definition status_transition_ok (e : Event) : Prop :=
  match e with
  | EvStatus _ oldStatus _ => oldStatus = SUSPENDED ∨ oldStatus = RUNNING
  | _ => True
  end.

(** A program that, however it ends, keeps the DESTROYING states other
    than [s] and only changes a status from SUSPENDED or RUNNING. *)
Definition obeys {A : Type} (s : option loc) (p : Prog A) : Prop :=
  ∀ env t w,
    stable_but s (instances w) (instances (run p env t w).1.2) ∧
    Forall status_transition_ok (run p env t w).2.

(** Runtime 1 is being destroyed. *)
Definition world_destroying : World :=
  mkWorld None None ∅ ∅ {[ 7 := 1 ]} 1 0 (Some 1%positive)
          {[ 1%positive := mkRuntimeState 7 None 100 DESTROYING None ]}.

(** ** Several threads *)

(** A client of the file on one thread: calls of the operations, one
    after another, each going on with what the call returned. *)
Inductive Client :=
| Finish
| CreateRuntime (k : option loc → Client)
| DestroyRuntime (state : option loc) (k : Client)
| InitRuntimeIfNeeded (k : Client)
| DeinitRuntimeIfNeeded (k : Client)
| SuspendRuntime (k : option loc → Client)
| ResumeRuntime (state : option loc) (k : Client).

Fixpoint client_prog (fuel : nat) (c : Client) : Prog unit :=
  match c with
  | Finish => Ret tt
  | CreateRuntime k => state <- Kotlin_createRuntime fuel;; client_prog fuel (k state)
  | DestroyRuntime state k => Kotlin_destroyRuntime fuel state;; client_prog fuel k
  | InitRuntimeIfNeeded k => Kotlin_initRuntimeIfNeeded fuel;; client_prog fuel k
  | DeinitRuntimeIfNeeded k => Kotlin_deinitRuntimeIfNeeded fuel;; client_prog fuel k
  | SuspendRuntime k => state <- Kotlin_suspendRuntime;; client_prog fuel (k state)
  | ResumeRuntime state k => Kotlin_resumeRuntime state;; client_prog fuel k
  end.

(** The threads of the process, each with what it still has to run, and
    the memory they share. *)
Record Config := mkConfig {
  pool : Z → Prog unit;
  world : World
}.

Definition start (fuel : nat) (clients : Z → Client) (w : World) : Config :=
  mkConfig (λ t, client_prog fuel (clients t)) w.

Definition finished (c : Config) : Prop := ∀ t, pool c t = Ret tt.

(** Thread [t] takes its next atomic step, with the answers [env].  There
    is no step when the thread has ended, or when its next step is
    disabled (the thread spins on the lock) or faults. *)
Definition thread_step (t : Z) (env : Env) (c : Config)
  : option (Config * list (Z * Event)) :=
  match pool c t with
  | Atom m k =>
      match m env t (world c) with
      | Done x w' evs =>
          Some (mkConfig (λ t', if decide (t' = t) then k x else pool c t') w',
                map (pair t) evs)
      | _ => None
      end
  | _ => None
  end.

(** An interleaving: the schedule names, turn after turn, the thread that
    moves and what the collaborators answer it.  A turn given to a thread
    that has no step is lost.  The run shows the events of all threads in
    the order they happened, each with its thread. *)
Fixpoint exec (sched : list (Z * Env)) (c : Config) : Config * list (Z * Event) :=
  match sched with
  | [] => (c, [])
  | turn :: sched' =>
      match thread_step turn.1 turn.2 c with
      | Some (c', evs) =>
          match exec sched' c' with
          | (c'', evs') => (c'', evs ++ evs')
          end
      | None => exec sched' c
      end
  end.

(** The events of thread [t] in a run. *)
Fixpoint thread_events (t : Z) (tr : list (Z * Event)) : list Event :=
  match tr with
  | [] => []
  | te :: tr' =>
      if decide (te.1 = t) then te.2 :: thread_events t tr' else thread_events t tr'
  end.

(** How many events of a run satisfy [P]. *)
Fixpoint count (P : Event → bool) (evs : list Event) : nat :=
  match evs with
  | [] => O
  | e :: evs' => ((if P e then 1 else 0) + count P evs')%nat
  end.

Definition is_increment (e : Event) : bool :=
  match e with EvAtomicAdd what _ _ => bool_decide (what = 1) | _ => false end.
Definition is_decrement (e : Event) : bool :=
  match e with EvAtomicAdd what _ _ => bool_decide (what = -1) | _ => false end.

(** The increment that brings the count from 0 to 1, and the decrement
    that brings it from 1 to 0. *)
Definition is_from_0_to_1 (e : Event) : bool :=
  match e with
  | EvAtomicAdd what old new => bool_decide (what = 1 ∧ old = 0 ∧ new = 1)
  | _ => false
  end.
Definition is_from_1_to_0 (e : Event) : bool :=
  match e with
  | EvAtomicAdd what old new => bool_decide (what = -1 ∧ old = 1 ∧ new = 0)
  | _ => false
  end.

(** The values of the C type [int]. *)
Definition is_int (z : Z) : Prop := - 2 ^ 31 ≤ z < 2 ^ 31.

(** Where a thread is between an atomic add and the phases that hang on
    it.  [Incremented first]: a creation has incremented the count, and
    [first] tells whether that made it 1.  [GlobalsInitialized]: it has
    run INIT_GLOBALS since.  [Decremented last]: a destruction has
    decremented the count, and [last] tells whether that made it 0.
    [ThreadLocalsDeinitialized]: it was the last one and has run
    DEINIT_THREAD_LOCAL_GLOBALS since. *)
Inductive Gate :=
| Idle
| Incremented (first : bool)
| GlobalsInitialized
| Decremented (last : bool)
| ThreadLocalsDeinitialized.

(** The one way a thread may go on: INIT_GLOBALS only right after an
    increment that made the count 1, and then always;
    INIT_THREAD_LOCAL_GLOBALS after every increment;
    DEINIT_THREAD_LOCAL_GLOBALS after every decrement; DEINIT_GLOBALS only
    after a decrement that made the count 0, and then always.  [None]:
    the event is out of place. *)
Definition gate_step (g : Gate) (e : Event) : option Gate :=
  match e with
  | EvAtomicAdd what _ new =>
      match g with
      | Idle =>
          if bool_decide (what = 1) then Some (Incremented (bool_decide (new = 1)))
          else if bool_decide (what = -1) then Some (Decremented (bool_decide (new = 0)))
          else None
      | _ => None
      end
  | EvInitOrDeinitGlobalVariables initialize =>
      match g with
      | Incremented true =>
          if bool_decide (initialize = INIT_GLOBALS) then Some GlobalsInitialized else None
      | Incremented false | GlobalsInitialized =>
          if bool_decide (initialize = INIT_THREAD_LOCAL_GLOBALS) then Some Idle else None
      | Decremented last =>
          if bool_decide (initialize = DEINIT_THREAD_LOCAL_GLOBALS)
          then Some (if last then ThreadLocalsDeinitialized else Idle)
          else None
      | ThreadLocalsDeinitialized =>
          if bool_decide (initialize = DEINIT_GLOBALS) then Some Idle else None
      | Idle => None
      end
  | _ => Some g
  end.

Fixpoint gate_run (g : Gate) (evs : list Event) : option Gate :=
  match evs with
  | [] => Some g
  | e :: evs' =>
      match gate_step g e with
      | Some g' => gate_run g' evs'
      | None => None
      end
  end.

(** What an atomic add of a run says about the count: the count before
    is an [int], and the count after is the sum on 32 bits. *)
Definition atomicAdd_sound (e : Event) : Prop :=
  match e with
  | EvAtomicAdd what old new => is_int old ∧ new = wrap32 (old + what)
  | _ => True
  end.

(** A thread can show [evs] and then have [p'] left to run, whatever the
    other threads do to the memory between its steps. *)
Fixpoint path {A : Type} (p : Prog A) (evs : list Event) (p' : Prog A) : Prop :=
  match p with
  | Atom m k =>
      (evs = [] ∧ p' = p) ∨
      ∃ env t w x w' e evs',
        m env t w = Done x w' e ∧ evs = e ++ evs' ∧ path (k x) evs' p'
  | _ => evs = [] ∧ p' = p
  end.

(** Every atomic step of a program satisfies [Q], a relation between the
    world before, the world after and what the step shows. *)
Fixpoint all_steps {A : Type} (Q : World → World → list Event → Prop) (p : Prog A) : Prop :=
  match p with
  | Atom m k =>
      (∀ env t w,
         match m env t w with
         | Done _ w' evs => Q w w' evs
         | _ => True
         end) ∧
      ∀ x, all_steps Q (k x)
  | _ => True
  end.

(** A step keeps the count of alive runtimes an [int], and its atomic
    adds are sound. *)
Definition count_step (w w' : World) (evs : list Event) : Prop :=
  is_int (aliveRuntimesCount w) →
  is_int (aliveRuntimesCount w') ∧ Forall atomicAdd_sound evs.

(** Two clients for the runs below.  The first one creates a runtime,
    destroys it and creates one again.  The second one creates a runtime
    and destroys it. *)
Definition client_create_destroy_create : Client :=
  CreateRuntime (λ state, DestroyRuntime state (CreateRuntime (λ _, Finish))).

Definition client_create_destroy : Client :=
  CreateRuntime (λ state, DestroyRuntime state Finish).

(** The increment that made the count 1, and the decrement that made it
    0, as the code tests them. *)
Definition made_1 (e : Event) : bool :=
  match e with
  | EvAtomicAdd what _ new => bool_decide (what = 1) && bool_decide (new = 1)
  | _ => false
  end.
Definition made_0 (e : Event) : bool :=
  match e with
  | EvAtomicAdd what _ new => bool_decide (what = -1) && bool_decide (new = 0)
  | _ => false
  end.

(** What a thread at a gate still owes: the phases it has to run. *)
Definition owes (initialize : Z) (g : Gate) : nat :=
  match g with
  | Idle => 0
  | Incremented first =>
      if bool_decide (initialize = INIT_GLOBALS) then (if first then 1 else 0)
      else if bool_decide (initialize = INIT_THREAD_LOCAL_GLOBALS) then 1 else 0
  | GlobalsInitialized =>
      if bool_decide (initialize = INIT_THREAD_LOCAL_GLOBALS) then 1 else 0
  | Decremented last =>
      if bool_decide (initialize = DEINIT_THREAD_LOCAL_GLOBALS) then 1
      else if bool_decide (initialize = DEINIT_GLOBALS) then (if last then 1 else 0) else 0
  | ThreadLocalsDeinitialized =>
      if bool_decide (initialize = DEINIT_GLOBALS) then 1 else 0
  end.

(** The atomic add that a phase hangs on. *)
Definition grants (initialize : Z) (e : Event) : bool :=
  if bool_decide (initialize = INIT_GLOBALS) then made_1 e
  else if bool_decide (initialize = INIT_THREAD_LOCAL_GLOBALS) then is_increment e
  else if bool_decide (initialize = DEINIT_THREAD_LOCAL_GLOBALS) then is_decrement e
  else if bool_decide (initialize = DEINIT_GLOBALS) then made_0 e
  else false.

(** An event that is neither an atomic add nor the call of a phase. *)
Definition is_quiet (e : Event) : bool :=
  match e with
  | EvAtomicAdd _ _ _ | EvInitOrDeinitGlobalVariables _ => false
  | _ => true
  end.

(** A step that only shows such events. *)
Definition quiet_step (w w' : World) (evs : list Event) : Prop :=
  Forall (λ e, is_quiet e = true) evs.

(** The events of every run of [p] to its end take the gate from [g] to
    [post a], where [a] is what [p] returns. *)
Definition gates {A : Type} (g : Gate) (post : A → Gate) (p : Prog A) : Prop :=
  ∀ evs a, path p evs (Ret a) → gate_run g evs = Some (post a).

(** Threads 7 and 8 each create a runtime and destroy it, turn by turn;
    thread 7 is answered with address 1 and thread 8 with address 2. *)
Definition two_clients (t : Z) : Client :=
  if decide (t = 7) then client_create_destroy
  else if decide (t = 8) then client_create_destroy
  else Finish.

Definition turn_by_turn : list (Z * Env) :=
  concat (replicate 80 [(7, mkEnv (Some 1%positive) 100); (8, mkEnv (Some 2%positive) 200)]).

(** Thread 7 alone creates, destroys and creates again. *)
Definition one_client (t : Z) : Client :=
  if decide (t = 7) then client_create_destroy_create else Finish.

Definition alone : list (Z * Env) := replicate 200 (7, mkEnv (Some 1%positive) 100).

(** ** More of Runtime.cpp *)

(** What [ThrowIncorrectDereferenceException] throws. *)
Inductive Exception :=
| IncorrectDereferenceException.

(** The thread-local [isMainThread] of the thread that takes the step. *)
Definition get_isMainThread : Prog Z :=
  atom (λ _ t w, Done (default 0 (isMainThread w !! t)) w []).

(** [CheckIsMainThread]: it returns, or throws; the exception that is
    thrown is the left result. *)
Definition CheckIsMainThread : Prog (Exception + unit) :=
  main <- get_isMainThread;;
  if decide (main = 0) then Ret (inl IncorrectDereferenceException) else Ret (inr tt).

(** [updateStatusIf] as it is compiled with KONAN_NO_THREADS: a load of
    the status, and a store if it is the expected one. *)
Definition updateStatusIf_no_threads (state : option loc) (oldStatus newStatus : Z)
  : Prog bool :=
  status <- load executionStatus state;;
  if decide (status = oldStatus) then
    store (with_executionStatus newStatus) (λ p, EvStatus p oldStatus newStatus) state;;
    Ret true
  else Ret false.

(** ** The rest of the file: notions for the statements *)

(** The node before [p] in a walk of the list [l] that has come from
    [previous]: what [previous] is in the loop of [deinitRuntime] when
    [current] reaches [p]. *)
Fixpoint pred_of (previous : option loc) (p : loc) (l : list loc) : option loc :=
  match l with
  | [] => None
  | c :: l' => if decide (c = p) then previous else pred_of (Some c) p l'
  end.

(** The store that takes a state out of the list: into the link of the
    node before it, or into [runtimeStateList] when it is the first. *)
Definition unlink_event (previous : option loc) (v : option loc) : Event :=
  match previous with
  | Some q => EvSetNext q v
  | None => EvSetRuntimeStateList v
  end.

(** The same store, on the world. *)
Definition unlink (previous : option loc) (v : option loc) (w : World) : World :=
  match previous with
  | Some q =>
      match instances w !! q with
      | Some st =>
          with_instances
            (<[q:=mkRuntimeState (threadId st) (handler st) (memoryState st)
                    (executionStatus st) v]> (instances w)) w
      | None => w
      end
  | None => with_runtimeStateList v w
  end.

(** Where the walk of the list goes on after [previous]. *)
Definition link_of (previous : option loc) (w : World) : option loc :=
  match previous with
  | Some q => instances w !! q ≫= next
  | None => runtimeStateList w
  end.

(** The world a destruction of [p] leaves, where [st] is the state at [p]
    and [l] the list of runtimes before: [p] is out of the list and freed,
    the count is one down and the lock is free. *)
Definition world_destroyed (p : loc) (st : RuntimeState) (l : list loc) (w : World) : World :=
  match unlink (pred_of None p l) (next st) w with
  | mkWorld hd tl nodes slots mains count _ lst insts =>
      mkWorld hd tl nodes slots mains (wrap32 (count + -1)) 0 lst (delete p insts)
  end.

(** What the destruction shows after the exchange of the status, in
    order. *)
Definition events_destroyed (p : loc) (st : RuntimeState) (l : list loc) (w : World)
    (chain : list (loc * fnptr)) : list Event :=
  let count := wrap32 (aliveRuntimesCount w + -1) in
  [EvAtomicAdd (-1) (aliveRuntimesCount w) count]
  ++ phase_events DEINIT_THREAD_LOCAL_GLOBALS chain
  ++ (if bool_decide (count = 0) then phase_events DEINIT_GLOBALS chain else [])
  ++ [EvSpinLock;
      unlink_event (pred_of None p l) (next st);
      EvSpinUnlock;
      EvDeinitMemory (memoryState st);
      EvKonanDestructInstance p].

(** Two heaps hold the same states, with the same fields but for the
    links. *)
Definition same_but_next (h h' : gmap loc RuntimeState) : Prop :=
  ∀ q, match h !! q, h' !! q with
       | Some st, Some st' =>
           threadId st' = threadId st ∧ handler st' = handler st ∧
           memoryState st' = memoryState st ∧ executionStatus st' = executionStatus st
       | None, None => True
       | _, _ => False
       end.

(** Three suspended runtimes, created by the threads 7, 8 and 9 in that
    order: the list has the last one first. *)
Definition world_three_runtimes : World :=
  mkWorld None None ∅ ∅ {[ 7 := 1 ]} 3 0 (Some 3%positive)
          {[ 3%positive := mkRuntimeState 9 None 300 SUSPENDED (Some 2%positive);
             2%positive := mkRuntimeState 8 None 200 SUSPENDED (Some 1%positive);
             1%positive := mkRuntimeState 7 None 100 SUSPENDED None ]}.

(** The states [Kotlin_iterateRuntimes] gives to its operation: those of
    the list up to the first one for which the operation answers true,
    that one included. *)
Fixpoint visited (operation : loc → bool) (l : list loc) : list loc :=
  match l with
  | [] => []
  | p :: l' => p :: (if operation p then [] else visited operation l')
  end.

(** The world an attachment leaves: the one of the creation, with the new
    state RUNNING and in the slot of the thread. *)
Definition world_initialized (p : loc) (t memory : Z) (w : World) : World :=
  let count := wrap32 (aliveRuntimesCount w + 1) in
  mkWorld (initHeadNode w) (initTailNode w) (initNodes w) (<[t:=p]> (runtimeState w))
    (if bool_decide (count = 1) then <[t:=1]> (isMainThread w) else isMainThread w)
    count 0 (Some p)
    (<[p:=mkRuntimeState t None memory RUNNING (runtimeStateList w)]> (instances w)).

(** A program with no failing [RuntimeCheck] in it. *)
Fixpoint no_fatal {A : Type} (p : Prog A) : Prop :=
  match p with
  | Fatal _ => False
  | Atom m k => ∀ x, no_fatal (k x)
  | _ => True
  end.

(** The status of the state behind a pointer, if there is a state. *)
Definition status_of (w : World) (state : option loc) : option Z :=
  executionStatus <$> (state ≫= (λ p, instances w !! p)).

(** The check that ends an operation of thread [t] in the world [w], by
    its message, if one does. *)
Definition refusal (op : Operation) (t : Z) (w : World) : option string :=
  match op with
  | OpInitRuntimeIfNeeded | OpCreateRuntime | OpInterrupt => None
  | OpDeinitRuntimeIfNeeded =>
      match status_of w (runtimeState w !! t) with
      | Some status =>
          if decide (status = RUNNING) then None
          else Some "Cannot transition state to DESTROYING"%string
      | None => None
      end
  | OpDestroyRuntime state =>
      match status_of w state with
      | Some status =>
          if decide (status = SUSPENDED) then None
          else Some "Cannot transition state to DESTROYING"%string
      | None => None
      end
  | OpSuspendRuntime =>
      match runtimeState w !! t with
      | None => Some "Runtime must be active on the current thread"%string
      | Some p =>
          match status_of w (Some p) with
          | Some status =>
              if decide (status = RUNNING) then None
              else Some "Cannot transition state to SUSPENDED for suspend"%string
          | None => None
          end
      end
  | OpResumeRuntime state =>
      match runtimeState w !! t with
      | Some _ => Some "Runtime must not be active on the current thread"%string
      | None =>
          match status_of w state with
          | Some status =>
              if decide (status = SUSPENDED) then None
              else Some "Cannot transition state to RUNNING for resume"%string
          | None => None
          end
      end
  | OpGetRuntime =>
      match runtimeState w !! t with
      | None => Some "Runtime must be active on the current thread"%string
      | Some _ => None
      end
  end.

(** A run from [w] that a check ended exactly when [m] names its message,
    and that had then written and shown nothing. *)
Definition refused_as {A : Type} (r : Outcome A * World * list Event) (w : World)
    (m : option string) : Prop :=
  (∀ msg, r.1.1 = Aborted msg ↔ m = Some msg) ∧
  (is_Some m → r.1.2 = w ∧ r.2 = []).

(** ** What no step does *)

(** What the atomic adds of a run have added to the count. *)
Fixpoint added (evs : list Event) : Z :=
  match evs with
  | [] => 0
  | EvAtomicAdd what _ _ :: evs' => what + added evs'
  | _ :: evs' => added evs'
  end.

(** The exchanges of a status that the file makes: a state goes from
    SUSPENDED to RUNNING and back, and from either to DESTROYING. *)
Definition status_edge (e : Event) : Prop :=
  match e with
  | EvStatus _ oldStatus newStatus =>
      (oldStatus = SUSPENDED ∧ newStatus = RUNNING) ∨
      (oldStatus = RUNNING ∧ newStatus = SUSPENDED) ∨
      (oldStatus = RUNNING ∧ newStatus = DESTROYING) ∨
      (oldStatus = SUSPENDED ∧ newStatus = DESTROYING)
  | _ => True
  end.

(** The events of the operations on runtimes: none of them is a store to
    the initializer chain, a call of an iteration's operation, or a store
    of the handler other than the null one of a creation. *)
Definition runtime_event (e : Event) : Prop :=
  match e with
  | EvSetInitHeadNode _ | EvSetInitTailNode _ | EvSetNextNode _ _ | EvOperation _ => False
  | EvSetHandler _ (Some _) => False
  | EvSetIsMainThread v => v = 1
  | EvAtomicAdd what _ _ => what = 1 ∨ what = -1
  | _ => status_edge e
  end.

(** From [w] to [w'], showing [evs]: the initializer chain is the same;
    the threads that were marked main still are; the count, if it was an
    [int], is the one before plus what was added, on 32 bits; and all
    events are events of operations on runtimes. *)
Definition runtime_steps (w w' : World) (evs : list Event) : Prop :=
  initHeadNode w' = initHeadNode w ∧
  initTailNode w' = initTailNode w ∧
  initNodes w' = initNodes w ∧
  (∀ t, isMainThread w !! t = Some 1 → isMainThread w' !! t = Some 1) ∧
  (is_int (aliveRuntimesCount w) →
   is_int (aliveRuntimesCount w') ∧
   aliveRuntimesCount w' = wrap32 (aliveRuntimesCount w + added evs)) ∧
  Forall runtime_event evs.

(** ** The lock of the list of runtimes *)

(** A store to the list of runtimes: to its head or to a link. *)
Definition is_list_store (e : Event) : bool :=
  match e with
  | EvSetRuntimeStateList _ | EvSetNext _ _ => true
  | _ => false
  end.

(** The holder of the lock along a run of several threads.  A thread
    takes the lock only when no thread holds it; only the holder releases
    it; and only the holder stores to the list.  [None]: the event is out
    of place. *)
Definition mutex_step (holder : option Z) (te : Z * Event) : option (option Z) :=
  match te.2 with
  | EvSpinLock =>
      match holder with
      | None => Some (Some te.1)
      | Some _ => None
      end
  | EvSpinUnlock => if decide (holder = Some te.1) then Some None else None
  | e =>
      if is_list_store e
      then (if decide (holder = Some te.1) then Some holder else None)
      else Some holder
  end.

Fixpoint mutex_run (holder : option Z) (tr : list (Z * Event)) : option (option Z) :=
  match tr with
  | [] => Some holder
  | te :: tr' =>
      match mutex_step holder te with
      | Some holder' => mutex_run holder' tr'
      | None => None
      end
  end.

(** The lock word for a holder. *)
Definition lock_word (holder : option Z) : Z :=
  match holder with
  | Some _ => 1
  | None => 0
  end.

(** One atomic step of a thread that is inside the critical section or
    not, and where it is after the step.  The step shows at most one
    event.  [spinLock] is taken outside, from a free lock, and leads
    inside; [spinUnlock] is taken inside and leads outside; any other step
    leaves the lock word as it is, and is a store to the list only
    inside. *)
Definition lock_step (inside : bool) (w w' : World) (evs : list Event)
    (inside' : bool) : Prop :=
  match evs with
  | [] => inside' = inside ∧ runtimesLock w' = runtimesLock w
  | [EvSpinLock] =>
      inside = false ∧ inside' = true ∧ runtimesLock w = 0 ∧ runtimesLock w' = 1
  | [EvSpinUnlock] => inside = true ∧ inside' = false ∧ runtimesLock w' = 0
  | [e] =>
      inside' = inside ∧ runtimesLock w' = runtimesLock w ∧
      (is_list_store e = true → inside = true)
  | _ => False
  end.

(** A program all of whose steps are such steps, from [inside] on, and
    that is at [post] when it returns. *)
Fixpoint locks {A : Type} (inside post : bool) (p : Prog A) : Prop :=
  match p with
  | Ret _ => inside = post
  | Atom m k =>
      ∀ env t w,
        match m env t w with
        | Done x w' evs => ∃ inside', lock_step inside w w' evs inside' ∧ locks inside' post (k x)
        | _ => True
        end
  | _ => True
  end.

(** ** The slots of the threads *)

(** Every slot that is bound holds a state that is there and RUNNING, and
    no state is in the slots of two threads. *)
Definition slots_hold_running (w : World) : Prop :=
  ∀ t p, runtimeState w !! t = Some p →
    (∃ st, instances w !! p = Some st ∧ executionStatus st = RUNNING) ∧
    ∀ t', runtimeState w !! t' = Some p → t' = t.

(** From [w] to [w']: the slots are the same, and every state other than
    [s] that was there is still there, with the status it had. *)
Definition others_keep_status (s : option loc) (w w' : World) (evs : list Event) : Prop :=
  runtimeState w' = runtimeState w ∧
  ∀ q st, Some q ≠ s → instances w !! q = Some st →
    ∃ st', instances w' !! q = Some st' ∧ executionStatus st' = executionStatus st.

(** ** The count and the list *)

(** ** Running a program alone: the rules *)

Lemma after_nil {A : Type} (r : Outcome A * World * list Event) : after [] r = r.
Proof. by destruct r as [[o w] evs]. Qed.

Lemma after_after {A : Type} (e1 e2 : list Event) (r : Outcome A * World * list Event) :
  after e1 (after e2 r) = after (e1 ++ e2) r.
Proof. destruct r as [[o w] evs]. simpl. by rewrite app_assoc. Qed.

Lemma after_and_then {A B : Type} (e : list Event) (r : Outcome A * World * list Event)
    (f : A → World → Outcome B * World * list Event) :
  after e (and_then r f) = and_then (after e r) f.
Proof.
  destruct r as [[o w] evs]. destruct o; simpl; [|done..].
  by rewrite after_after.
Qed.

Lemma run_bind {A B : Type} (p : Prog A) (f : A → Prog B) env t w :
  run (bind p f) env t w = and_then (run p env t w) (λ a w', run (f a) env t w').
Proof.
  revert w. induction p as [a|msg| |X m k IH]; intros w; simpl.
  - symmetry. apply (after_nil (run (f a) env t w)).
  - done.
  - done.
  - destruct (m env t w) as [x w' evs| |]; [|done..].
    by rewrite IH, after_and_then.
Qed.

Lemma looks_only_bind {A B : Type} (p : Prog A) (f : A → Prog B) :
  looks_only p → (∀ a, looks_only (f a)) → looks_only (bind p f).
Proof.
  intros Hp Hf env t w. rewrite run_bind.
  destruct (Hp env t w) as [Hw He].
  destruct (run p env t w) as [[o w1] e1]; simpl in *; subst.
  destruct o; simpl; auto.
  destruct (Hf a env t w) as [Hw' He'].
  destruct (run (f a) env t w) as [[o2 w2] e2]; simpl in *. by subst.
Qed.

Lemma looks_only_load {X : Type} (f : RuntimeState → X) state : looks_only (load f state).
Proof. intros env t w; simpl. by destruct (state ≫= _). Qed.

Lemma keeps_bind {A B X : Type} (part : World → X) (p : Prog A) (f : A → Prog B) :
  keeps part p → (∀ a, keeps part (f a)) → keeps part (bind p f).
Proof.
  intros Hp Hf env t w. rewrite run_bind.
  specialize (Hp env t w).
  destruct (run p env t w) as [[o w1] e1]; simpl in *.
  destruct o; simpl; auto.
  specialize (Hf a env t w1).
  destruct (run (f a) env t w1) as [[o2 w2] e2]; simpl in *. congruence.
Qed.

Lemma keeps_id_load_node {X : Type} (f : InitNode → X) node : keeps id (load_node f node).
Proof. intros env t w; simpl. by destruct (node ≫= _). Qed.

Lemma keeps_id_call ev : keeps id (call ev).
Proof. done. Qed.

Lemma keeps_id_part {A X : Type} (part : World → X) (p : Prog A) :
  keeps id p → keeps part p.
Proof. intros H env t w. specialize (H env t w). simpl in H. by rewrite H. Qed.

(** ** Keeping the DESTROYING states, step by step *)

Lemma stable_but_refl s h : stable_but s h h.
Proof. intros p st _ Hp Hst. eauto. Qed.

Lemma stable_but_trans s h1 h2 h3 :
  stable_but s h1 h2 → stable_but s h2 h3 → stable_but s h1 h3.
Proof.
  intros H12 H23 p st Hs Hp Hst.
  destruct (H12 p st Hs Hp Hst) as (st2 & Hp2 & Hst2). eauto.
Qed.

Lemma stable_but_weaken s h h' : stable_but None h h' → stable_but s h h'.
Proof. intros H p st _ Hp Hst. by apply (H p st). Qed.

Lemma stable_but_insert s h q old new :
  h !! q = Some old →
  (executionStatus old = DESTROYING → executionStatus new = DESTROYING) →
  stable_but s h (<[q:=new]> h).
Proof.
  intros Hq Hsame p st _ Hp Hst. destruct (decide (p = q)) as [->|Hne].
  - rewrite lookup_insert_eq. rewrite Hq in Hp. injection Hp as ->. eauto.
  - rewrite lookup_insert_ne by done. eauto.
Qed.

Lemma stable_but_alloc s h q new :
  h !! q = None → stable_but s h (<[q:=new]> h).
Proof.
  intros Hq p st _ Hp Hst. rewrite lookup_insert_ne; [eauto|]. congruence.
Qed.

Lemma stable_but_delete h q : stable_but (Some q) h (delete q h).
Proof.
  intros p st Hne Hp Hst. rewrite lookup_delete_ne; [eauto|]. congruence.
Qed.

Lemma obeys_weaken {A : Type} s (p : Prog A) : obeys None p → obeys s p.
Proof. intros H env t w. destruct (H env t w). split; [by apply stable_but_weaken|done]. Qed.

Lemma obeys_bind {A B : Type} s (p : Prog A) (f : A → Prog B) :
  obeys s p → (∀ a, obeys s (f a)) → obeys s (bind p f).
Proof.
  intros Hp Hf env t w. rewrite run_bind.
  destruct (Hp env t w) as [Hw He].
  destruct (run p env t w) as [[o w1] e1]; simpl in *.
  destruct o; simpl; auto.
  destruct (Hf a env t w1) as [Hw' He'].
  destruct (run (f a) env t w1) as [[o2 w2] e2]; simpl in *.
  split; [by eapply stable_but_trans|by apply Forall_app].
Qed.

Lemma obeys_atom {X : Type} s (m : Atomic X) :
  (∀ env t w,
     match m env t w with
     | Done _ w' evs =>
         stable_but s (instances w) (instances w') ∧ Forall status_transition_ok evs
     | _ => True
     end) →
  obeys s (atom m).
Proof.
  intros H env t w. simpl. specialize (H env t w).
  destruct (m env t w) as [x w' evs| |]; simpl;
    [by rewrite app_nil_r|split; [apply stable_but_refl|done]..].
Qed.

Lemma obeys_Ret {A : Type} s (a : A) : obeys s (Ret a).
Proof. intros env t w. split; [apply stable_but_refl|done]. Qed.

Lemma obeys_RuntimeCheck s c msg : obeys s (RuntimeCheck c msg).
Proof. intros env t w. destruct c; (split; [apply stable_but_refl|done]). Qed.

(** A step that leaves the heap of states alone and shows no store of a
    status. *)
Ltac obeys_frame :=
  apply obeys_atom; intros ? ? [? ? ? ? ? ? ? ? ?]; simpl;
  repeat case_match; simplify_eq; try done;
  (split; [apply stable_but_refl|by repeat constructor]).

Lemma obeys_store s upd ev state :
  (∀ st, executionStatus (upd st) = executionStatus st) →
  (∀ p, status_transition_ok (ev p)) →
  obeys s (store upd ev state).
Proof.
  intros Hupd Hev. apply obeys_atom. intros env t [? ? ? ? ? ? ? ? insts]. simpl.
  destruct state as [q|]; [|done].
  destruct (insts !! q) as [st|] eqn:Hq; [|done]. simpl.
  split; [|by repeat constructor].
  eapply stable_but_insert; [done|]. by rewrite Hupd.
Qed.

Lemma obeys_load {X : Type} s (f : RuntimeState → X) state : obeys s (load f state).
Proof. obeys_frame. Qed.

Lemma obeys_load_node {X : Type} s (f : InitNode → X) node : obeys s (load_node f node).
Proof. obeys_frame. Qed.

Lemma obeys_call s ev : status_transition_ok ev → obeys s (call ev).
Proof.
  intros Hev. apply obeys_atom. intros. split; [apply stable_but_refl|by constructor].
Qed.

Lemma obeys_updateStatusIf s state oldStatus newStatus :
  oldStatus = SUSPENDED ∨ oldStatus = RUNNING →
  obeys s (updateStatusIf state oldStatus newStatus).
Proof.
  intros Hold. apply obeys_atom. intros env t [? ? ? ? ? ? ? ? insts]. simpl.
  destruct state as [q|]; [|done].
  destruct (insts !! q) as [st|] eqn:Hq; [|done].
  destruct (decide (executionStatus st = oldStatus)) as [Heq|Hne]; simpl.
  - split; [|by constructor].
    eapply stable_but_insert; [done|].
    intros Hd. exfalso. rewrite Hd in Heq. by destruct Hold; subst.
  - split; [apply stable_but_refl|done].
Qed.

Lemma obeys_konanConstructInstance s : obeys s konanConstructInstance.
Proof.
  apply obeys_atom. intros env t [? ? ? ? ? ? ? ? insts]. simpl.
  destruct (env_alloc env) as [q|]; [|split; [apply stable_but_refl|by repeat constructor]].
  destruct (insts !! q) eqn:Hq; [done|]. simpl.
  split; [by apply stable_but_alloc|by repeat constructor].
Qed.

Lemma obeys_konanDestructInstance state : obeys state (konanDestructInstance state).
Proof.
  apply obeys_atom. intros env t [? ? ? ? ? ? ? ? insts]. simpl.
  destruct state as [q|]; [|done].
  destruct (insts !! q) eqn:Hq; [|done]. simpl.
  split; [apply stable_but_delete|by repeat constructor].
Qed.

Ltac obeys_step :=
  first
    [ apply obeys_Ret
    | apply obeys_RuntimeCheck
    | apply obeys_load
    | apply obeys_load_node
    | apply obeys_call; done
    | apply obeys_store; [by intros []|done]
    | apply obeys_updateStatusIf; by auto
    | apply obeys_konanConstructInstance
    | apply obeys_bind; [|intros ?]
    | match goal with
      | |- obeys _ (match ?x with _ => _ end) => destruct x
      end
    | obeys_frame ].

(** ** The steps of a thread among others *)

Lemma path_refl {A : Type} (p : Prog A) : path p [] p.
Proof. destruct p; simpl; auto. Qed.

Lemma path_bind_Ret {A B : Type} (p : Prog A) (f : A → Prog B) evs b :
  path (bind p f) evs (Ret b) →
  ∃ a evs1 evs2, evs = evs1 ++ evs2 ∧ path p evs1 (Ret a) ∧ path (f a) evs2 (Ret b).
Proof.
  revert evs. induction p as [a|msg| |X m k IH]; intros evs Hpath; simpl in Hpath.
  - exists a, [], evs. simpl. auto.
  - by destruct Hpath.
  - by destruct Hpath.
  - destruct Hpath as [[_ ?]|(env & t & w & x & w' & e & evs' & Hm & -> & Hpath)]; [done|].
    destruct (IH x _ Hpath) as (a & evs1 & evs2 & -> & H1 & H2).
    exists a, (e ++ evs1), evs2. split; [by rewrite app_assoc|]. split; [|done].
    simpl. right. by exists env, t, w, x, w', e, evs1.
Qed.

Lemma all_steps_bind {A B : Type} Q (p : Prog A) (f : A → Prog B) :
  all_steps Q p → (∀ a, all_steps Q (f a)) → all_steps Q (bind p f).
Proof.
  intros Hp Hf. induction p as [a|msg| |X m k IH]; simpl in *; auto.
  destruct Hp as [Hm Hk]. split; [done|]. intros x. by apply IH.
Qed.

Lemma all_steps_path {A : Type} (P : Event → Prop) (p p' : Prog A) evs :
  all_steps (λ _ _ evs, Forall P evs) p → path p evs p' → Forall P evs.
Proof.
  revert evs. induction p as [a|msg| |X m k IH]; intros evs Hall Hpath; simpl in *;
    try (by destruct Hpath as [-> _]).
  destruct Hall as [Hm Hk].
  destruct Hpath as [[-> _]|(env & t & w & x & w' & e & evs' & Hd & -> & Hpath)]; [done|].
  apply Forall_app. split.
  - specialize (Hm env t w). by rewrite Hd in Hm.
  - by eapply IH.
Qed.

(** One atomic step that satisfies [Q] by evaluation. *)
Ltac step_by_evaluation :=
  simpl; split; [|done];
  intros ? ? [? ? ? ? ? ? ? ? ?]; simpl;
  repeat case_match; simplify_eq; try done.

(** ** The count of alive runtimes *)

Ltac wrap32_lia z :=
  unfold wrap32, is_int;
  change (2 ^ 31) with 2147483648; change (2 ^ 32) with 4294967296;
  pose proof (Z.div_mod (z + 2147483648) 4294967296);
  pose proof (Z.mod_pos_bound (z + 2147483648) 4294967296);
  generalize dependent ((z + 2147483648) `div` 4294967296);
  generalize dependent ((z + 2147483648) `mod` 4294967296);
  intros; lia.

Lemma wrap32_is_int z : is_int (wrap32 z).
Proof. wrap32_lia z. Qed.

Lemma wrap32_increment_1 old : is_int old → wrap32 (old + 1) = 1 ↔ old = 0.
Proof. wrap32_lia (old + 1). Qed.

Lemma wrap32_decrement_0 old : is_int old → wrap32 (old + -1) = 0 ↔ old = 1.
Proof. wrap32_lia (old + -1). Qed.

Opaque wrap32.

Lemma count_app P evs1 evs2 : count P (evs1 ++ evs2) = (count P evs1 + count P evs2)%nat.
Proof. induction evs1 as [|e evs1 IH]; simpl; [done|]. rewrite IH. lia. Qed.

Lemma count_ext P Q evs :
  Forall (λ e, P e = Q e) evs → count P evs = count Q evs.
Proof. induction 1 as [|e evs He _ IH]; simpl; [done|]. by rewrite He, IH. Qed.

Lemma thread_events_app t tr1 tr2 :
  thread_events t (tr1 ++ tr2) = thread_events t tr1 ++ thread_events t tr2.
Proof.
  induction tr1 as [|te tr1 IH]; simpl; [done|].
  destruct (decide (te.1 = t)); simpl; by rewrite IH.
Qed.

Lemma thread_events_tagged t t' evs :
  thread_events t (map (pair t') evs) = if decide (t' = t) then evs else [].
Proof.
  induction evs as [|e evs IH]; simpl; [by destruct (decide (t' = t))|].
  rewrite IH. by destruct (decide (t' = t)).
Qed.

(** The events of the other threads. *)
Lemma count_split P t tr :
  count P tr.*2 =
  (count P (thread_events t tr) + count P (filter (λ te, te.1 ≠ t) tr).*2)%nat.
Proof.
  induction tr as [|te tr IH]; [done|].
  rewrite filter_cons, fmap_cons. cbn [count thread_events].
  destruct (decide (te.1 = t)) as [Heq|Hne].
  - rewrite decide_False by tauto. cbn [count]. rewrite IH. lia.
  - rewrite decide_True by done. rewrite fmap_cons. cbn [count]. rewrite IH. lia.
Qed.

Lemma thread_events_filter t t' tr :
  thread_events t (filter (λ te, te.1 ≠ t') tr) =
  if decide (t = t') then [] else thread_events t tr.
Proof.
  induction tr as [|te tr IH]; [by destruct (decide (t = t'))|].
  rewrite filter_cons. cbn [thread_events].
  destruct (decide (te.1 ≠ t')) as [Hne|Heq]; cbn [thread_events].
  - rewrite IH. destruct (decide (te.1 = t)), (decide (t = t')); congruence.
  - rewrite IH. apply dec_stable in Heq.
    destruct (decide (te.1 = t)), (decide (t = t')); congruence.
Qed.

(** What holds of the counts of every thread holds of the counts of the
    whole run. *)
Lemma count_by_thread P Q tr :
  (∀ t, count P (thread_events t tr) = count Q (thread_events t tr)) →
  count P tr.*2 = count Q tr.*2.
Proof.
  remember (length tr) as n eqn:Hn. revert tr Hn.
  induction n as [n IH] using lt_wf_ind. intros tr Hn Hall.
  destruct tr as [|[t e] tr]; [done|].
  rewrite (count_split P t), (count_split Q t), Hall. f_equal.
  apply (IH (length (filter (λ te, te.1 ≠ t) ((t, e) :: tr)))); [|done|].
  - subst n. rewrite filter_cons. cbn [fst]. rewrite decide_False by tauto.
    pose proof (length_filter (λ te : Z * Event, te.1 ≠ t) tr). cbn [length]. lia.
  - intros t'. rewrite thread_events_filter. destruct (decide (t' = t)); [done|apply Hall].
Qed.

Lemma atomicAdd_aliveRuntimesCount_count what :
  all_steps count_step (atomicAdd_aliveRuntimesCount what).
Proof.
  simpl. split; [|done]. intros env t [? ? ? ? ? count ? ? ?] Hint. simpl in *.
  split; [apply wrap32_is_int|]. constructor; [done|constructor].
Qed.

Ltac count_steps_with known :=
  repeat first
    [ known
    | exact I
    | apply atomicAdd_aliveRuntimesCount_count
    | apply all_steps_bind; [|intros ?]
    | progress unfold RuntimeCheck
    | match goal with
      | |- all_steps _ (match ?x with _ => _ end) => destruct x
      end
    | progress (step_by_evaluation; unfold count_step; simpl; intros ?;
                (split; [assumption|repeat constructor; by simpl])) ].

Lemma made_1_from_0_to_1 e : atomicAdd_sound e → made_1 e = is_from_0_to_1 e.
Proof.
  destruct e; try done. simpl. intros [Hold ->].
  destruct (bool_decide (what = 1)) eqn:Hw; simpl.
  - apply bool_decide_eq_true in Hw. subst what.
    apply bool_decide_ext. rewrite wrap32_increment_1 by done. tauto.
  - apply bool_decide_eq_false in Hw. symmetry. apply bool_decide_eq_false. tauto.
Qed.

Lemma made_0_from_1_to_0 e : atomicAdd_sound e → made_0 e = is_from_1_to_0 e.
Proof.
  destruct e; try done. simpl. intros [Hold ->].
  destruct (bool_decide (what = -1)) eqn:Hw; simpl.
  - apply bool_decide_eq_true in Hw. subst what.
    apply bool_decide_ext. rewrite wrap32_decrement_0 by done. tauto.
  - apply bool_decide_eq_false in Hw. symmetry. apply bool_decide_eq_false. tauto.
Qed.

(** ** The gate between the count and the phases *)

Lemma gate_run_app g evs1 evs2 :
  gate_run g (evs1 ++ evs2) = gate_run g evs1 ≫= λ g', gate_run g' evs2.
Proof.
  revert g. induction evs1 as [|e evs1 IH]; intros g; simpl; [done|].
  destruct (gate_step g e); simpl; [apply IH|done].
Qed.

Lemma gate_step_count initialize g e g' :
  initialize ∈ [INIT_GLOBALS; INIT_THREAD_LOCAL_GLOBALS;
                DEINIT_THREAD_LOCAL_GLOBALS; DEINIT_GLOBALS] →
  gate_step g e = Some g' →
  ((if is_phase initialize e then 1 else 0) + owes initialize g'
   = (if grants initialize e then 1 else 0) + owes initialize g)%nat.
Proof.
  intros Hi Hstep.
  assert (initialize = 0 ∨ initialize = 1 ∨ initialize = 2 ∨ initialize = 3) as Hcases.
  { set_unfold. unfold INIT_GLOBALS, INIT_THREAD_LOCAL_GLOBALS,
      DEINIT_THREAD_LOCAL_GLOBALS, DEINIT_GLOBALS in Hi. tauto. }
  unfold grants, made_1, made_0, is_increment, is_decrement, is_phase.
  destruct Hcases as [-> | [-> | [-> | ->]]];
    destruct e; destruct g as [|[]| |[]|]; simpl in *; simplify_eq; simpl; try done;
    repeat (case_bool_decide; simplify_eq; simpl in *; try done).
Qed.

Lemma gate_run_count initialize g evs g' :
  initialize ∈ [INIT_GLOBALS; INIT_THREAD_LOCAL_GLOBALS;
                DEINIT_THREAD_LOCAL_GLOBALS; DEINIT_GLOBALS] →
  gate_run g evs = Some g' →
  (count (is_phase initialize) evs + owes initialize g'
   = count (grants initialize) evs + owes initialize g)%nat.
Proof.
  intros Hi. revert g. induction evs as [|e evs IH]; intros g Hrun; simpl in *.
  - by injection Hrun as <-.
  - destruct (gate_step g e) as [g1|] eqn:Hstep; [|done].
    pose proof (gate_step_count initialize g e g1 Hi Hstep).
    pose proof (IH g1 Hrun). lia.
Qed.

Lemma gate_run_quiet g evs :
  Forall (λ e, is_quiet e = true) evs → gate_run g evs = Some g.
Proof.
  induction 1 as [|e evs He _ IH]; simpl; [done|].
  by destruct e; simpl in *; try discriminate.
Qed.

Lemma gates_Ret {A : Type} g (post : A → Gate) a : post a = g → gates g post (Ret a).
Proof. intros <- evs a' [-> Heq]. by injection Heq as ->. Qed.

Lemma gates_bind {A B : Type} g (mid : A → Gate) (post : B → Gate)
    (p : Prog A) (f : A → Prog B) :
  gates g mid p → (∀ a, gates (mid a) post (f a)) → gates g post (bind p f).
Proof.
  intros Hp Hf evs b Hpath.
  destruct (path_bind_Ret _ _ _ _ Hpath) as (a & evs1 & evs2 & -> & H1 & H2).
  rewrite gate_run_app, (Hp _ _ H1). simpl. by apply Hf.
Qed.

Lemma gates_quiet {A : Type} g (p : Prog A) :
  all_steps quiet_step p → gates g (λ _, g) p.
Proof.
  intros Hall evs a Hpath. apply gate_run_quiet.
  by apply (all_steps_path _ p (Ret a)).
Qed.

Lemma gates_bind_quiet {A B : Type} g (post : B → Gate) (p : Prog A) (f : A → Prog B) :
  all_steps quiet_step p → (∀ a, gates g post (f a)) → gates g post (bind p f).
Proof. intros Hp Hf. apply (gates_bind g (λ _, g)); [by apply gates_quiet|done]. Qed.

Lemma gates_atom {A : Type} g (post : A → Gate) (m : Atomic A) :
  (∀ env t w,
     match m env t w with
     | Done x _ evs => gate_run g evs = Some (post x)
     | _ => True
     end) →
  gates g post (atom m).
Proof.
  intros Hm evs a Hpath. simpl in Hpath.
  destruct Hpath as [[_ ?]|(env & t & w & x & w' & e & evs' & Hd & -> & [-> Heq])]; [done|].
  injection Heq as ->. rewrite app_nil_r.
  specialize (Hm env t w). by rewrite Hd in Hm.
Qed.

Ltac quiet_steps :=
  repeat first
    [ exact I
    | apply all_steps_bind; [|intros ?]
    | progress unfold RuntimeCheck
    | match goal with
      | |- all_steps _ (match ?x with _ => _ end) => destruct x
      end
    | progress (unfold quiet_step; step_by_evaluation; by repeat constructor) ].

(** ** The phases of the initializer chain *)

Lemma InitOrDeinitGlobalVariables_loop_keeps n initialize currNode :
  keeps id (InitOrDeinitGlobalVariables_loop n initialize currNode).
Proof.
  revert currNode. induction n as [|n IH]; intros [p|];
    cbn [InitOrDeinitGlobalVariables_loop]; try done.
  apply keeps_bind; [apply keeps_id_load_node|]. intros f.
  apply keeps_bind; [apply keeps_id_call|]. intros _.
  apply keeps_bind; [apply keeps_id_load_node|]. intros nx. apply IH.
Qed.

(** A phase changes nothing in the world, however it ends. *)
Lemma InitOrDeinitGlobalVariables_keeps fuel initialize :
  keeps id (InitOrDeinitGlobalVariables fuel initialize).
Proof.
  unfold InitOrDeinitGlobalVariables.
  apply keeps_bind; [apply keeps_id_call|]. intros _.
  apply keeps_bind; [done|]. intros head.
  apply InitOrDeinitGlobalVariables_loop_keeps.
Qed.

Lemma InitOrDeinitGlobalVariables_loop_run n initialize currNode l env t w :
  is_chain (initNodes w) currNode l →
  (length l ≤ n)%nat →
  run (InitOrDeinitGlobalVariables_loop n initialize currNode) env t w
    = (Returned tt, w, map (λ pf, EvInitializer pf.2 initialize) l).
Proof.
  revert n currNode. induction l as [|[p f] l IH]; intros n currNode Hc Hn; simpl in Hc.
  - subst currNode. by destruct n.
  - destruct Hc as (-> & nx & Hp & Hc).
    destruct n as [|n]; [simpl in Hn; lia|].
    simpl. rewrite Hp. simpl. rewrite Hp. simpl.
    rewrite (IH n nx); [done|done|simpl in Hn; lia].
Qed.

(** Over a chain that ends, with fuel for its length, a phase returns and
    has called every callback once, first to last. *)
Lemma InitOrDeinitGlobalVariables_run fuel initialize l env t w :
  is_chain (initNodes w) (initHeadNode w) l →
  (length l ≤ fuel)%nat →
  run (InitOrDeinitGlobalVariables fuel initialize) env t w
    = (Returned tt, w, phase_events initialize l).
Proof.
  intros Hc Hn. unfold InitOrDeinitGlobalVariables. simpl.
  by rewrite (InitOrDeinitGlobalVariables_loop_run _ _ _ l).
Qed.

Lemma InitOrDeinitGlobalVariables_loop_obeys s n initialize currNode :
  obeys s (InitOrDeinitGlobalVariables_loop n initialize currNode).
Proof.
  revert currNode. induction n as [|n IH]; intros [p|];
    cbn [InitOrDeinitGlobalVariables_loop]; try apply obeys_Ret.
  - intros env t w. split; [apply stable_but_refl|done].
  - repeat (apply IH || obeys_step).
Qed.

Lemma InitOrDeinitGlobalVariables_obeys s fuel initialize :
  obeys s (InitOrDeinitGlobalVariables fuel initialize).
Proof.
  unfold InitOrDeinitGlobalVariables.
  repeat (apply InitOrDeinitGlobalVariables_loop_obeys || obeys_step).
Qed.

Lemma InitOrDeinitGlobalVariables_loop_quiet n initialize currNode :
  all_steps quiet_step (InitOrDeinitGlobalVariables_loop n initialize currNode).
Proof.
  revert currNode. induction n as [|n IH]; intros [p|];
    cbn [InitOrDeinitGlobalVariables_loop]; try done.
  repeat (apply IH || quiet_steps).
Qed.

(** A phase moves the gate as its call does. *)
Lemma InitOrDeinitGlobalVariables_gates fuel initialize g g' :
  gate_step g (EvInitOrDeinitGlobalVariables initialize) = Some g' →
  gates g (λ _, g') (InitOrDeinitGlobalVariables fuel initialize).
Proof.
  intros Hstep. unfold InitOrDeinitGlobalVariables.
  apply (gates_bind g (λ _, g')).
  - apply gates_atom. intros env t w. cbn [gate_run]. by rewrite Hstep.
  - intros _. apply gates_bind_quiet; [quiet_steps|].
    intros currNode. apply gates_quiet, InitOrDeinitGlobalVariables_loop_quiet.
Qed.

Lemma InitOrDeinitGlobalVariables_loop_count n initialize currNode :
  all_steps count_step (InitOrDeinitGlobalVariables_loop n initialize currNode).
Proof.
  revert currNode. induction n as [|n IH]; intros [p|];
    cbn [InitOrDeinitGlobalVariables_loop]; try done.
  count_steps_with ltac:(apply IH).
Qed.

Lemma InitOrDeinitGlobalVariables_count fuel initialize :
  all_steps count_step (InitOrDeinitGlobalVariables fuel initialize).
Proof.
  unfold InitOrDeinitGlobalVariables.
  count_steps_with ltac:(apply InitOrDeinitGlobalVariables_loop_count).
Qed.

Opaque InitOrDeinitGlobalVariables.

Ltac world_destruct w :=
  destruct w as [hd tl nodes slots mains count lock lst insts]; simpl in *.

Ltac run_step := simpl; rewrite ?lookup_insert_eq, ?insert_insert_eq; simpl.

(** ** The interrupt handler *)

Lemma threadInterruptHandler_loop_looks_only n tid current :
  looks_only (threadInterruptHandler_loop n tid current).
Proof.
  revert current. induction n as [|n IH]; intros [p|];
    cbn [threadInterruptHandler_loop]; try done.
  apply looks_only_bind; [apply looks_only_load|].
  intros tid'. destruct (decide (tid' = tid)); [done|].
  apply looks_only_bind; [apply looks_only_load|]. intros nx. apply IH.
Qed.

Lemma threadInterruptHandler_lookup_looks_only fuel :
  looks_only (threadInterruptHandler_lookup fuel).
Proof.
  intros env t w. unfold threadInterruptHandler_lookup. simpl.
  destruct (runtimeState w !! t) as [p|]; simpl; [done|].
  destruct (decide (runtimesLock w ≠ 0)); simpl; [|done].
  destruct (threadInterruptHandler_loop_looks_only fuel t (runtimeStateList w) env t w)
    as [Hw He].
  destruct (run _ env t w) as [[o w1] e1]; simpl in *. by subst.
Qed.

Lemma threadInterruptHandler_unfold fuel ignore :
  threadInterruptHandler fuel ignore =
  (state <- threadInterruptHandler_lookup fuel;;
   match state with
   | None => Ret tt
   | Some p =>
       h <- load handler state;;
       match h with
       | None => Ret tt
       | Some h => call (EvHandler h p)
       end
   end).
Proof.
  unfold threadInterruptHandler, threadInterruptHandler_lookup. simpl.
  f_equal.
Qed.

(** C10: a call of the interrupt handler leaves every variable and every
    object of the file as it was (the list of runtimes, the count of alive
    runtimes, the lock word, the slot of the thread, every field of every
    RuntimeState), however the call ends; all it shows is one call of the
    handler stored in the state it found, if it found one with a handler. *)
Theorem threadInterruptHandler_mutates_nothing (fuel : nat) (ignore : Z)
    (env : Env) (t : Z) (w : World) :
  (run (threadInterruptHandler fuel ignore) env t w).1.2 = w ∧
  ((run (threadInterruptHandler fuel ignore) env t w).2 = [] ∨
   ∃ p st h, instances w !! p = Some st ∧ handler st = Some h ∧
     run (threadInterruptHandler fuel ignore) env t w = (Returned tt, w, [EvHandler h p])).
Proof.
  rewrite threadInterruptHandler_unfold, run_bind.
  destruct (threadInterruptHandler_lookup_looks_only fuel env t w) as [Hw He].
  destruct (run (threadInterruptHandler_lookup fuel) env t w) as [[o w1] e1].
  simpl in Hw, He. subst w1 e1. unfold and_then; simpl.
  destruct o as [[p|]| | |]; simpl; auto.
  destruct (instances w !! p) as [st|] eqn:Hp; simpl; auto.
  destruct (handler st) as [h|] eqn:Hh; simpl; auto.
  split; [done|]. right. by exists p, st, h.
Qed.

(** With the slot of the thread empty and the lock word 0, that is the
    lock free, the handler does not look at the list at all: it returns
    with nothing called, whatever the list holds. *)
Lemma threadInterruptHandler_unlocked fuel ignore env t w :
  runtimeState w !! t = None →
  runtimesLock w = 0 →
  run (threadInterruptHandler fuel ignore) env t w = (Returned tt, w, []).
Proof.
  intros Hslot Hlock. unfold threadInterruptHandler. simpl.
  rewrite Hslot. simpl. rewrite Hlock. simpl. done.
Qed.

Lemma threadInterruptHandler_loop_scan n tid current l env t w :
  is_registry (instances w) current l →
  (length l ≤ n)%nat →
  run (threadInterruptHandler_loop n tid current) env t w
    = (Returned (first_of_thread (instances w) tid l), w, []).
Proof.
  revert n current. induction l as [|p l IH]; intros n current Hreg Hn; simpl in Hreg.
  - subst current. by destruct n.
  - destruct Hreg as (-> & st & Hp & Hreg).
    destruct n as [|n]; [simpl in Hn; lia|].
    cbn [threadInterruptHandler_loop]. rewrite run_bind. simpl. rewrite Hp. simpl.
    unfold and_then; simpl.
    destruct (decide (threadId st = tid)) as [Heq|Hne].
    + rewrite bool_decide_eq_true_2 by congruence. done.
    + rewrite bool_decide_eq_false_2 by congruence.
      simpl. rewrite Hp. simpl.
      rewrite (IH n (next st)); [done|done|simpl in Hn; lia].
Qed.

(** With the lock word not 0 the handler does scan: it takes the first
    entry of the list made by the interrupted thread and calls its
    handler, if it has one. *)
Lemma threadInterruptHandler_locked_scans fuel ignore env t w l :
  runtimeState w !! t = None →
  runtimesLock w ≠ 0 →
  is_registry (instances w) (runtimeStateList w) l →
  (length l ≤ fuel)%nat →
  run (threadInterruptHandler fuel ignore) env t w
    = (Returned tt, w, handler_events (instances w) (first_of_thread (instances w) t l)).
Proof.
  intros Hslot Hlock Hreg Hfuel.
  rewrite threadInterruptHandler_unfold, run_bind.
  unfold threadInterruptHandler_lookup. simpl. rewrite Hslot. simpl.
  destruct (decide (runtimesLock w ≠ 0)); [|done]. simpl.
  rewrite (threadInterruptHandler_loop_scan _ _ _ l) by done.
  unfold and_then; simpl.
  destruct (first_of_thread (instances w) t l) as [p|] eqn:Hf; simpl; [|done].
  destruct (instances w !! p) as [st|] eqn:Hp; simpl.
  - destruct (handler st); done.
  - exfalso. unfold first_of_thread in Hf. apply find_some in Hf as [_ Hf].
    rewrite Hp in Hf. by apply bool_decide_eq_true in Hf.
Qed.

(** With a runtime in the slot of the thread, the handler takes that one
    and does not look at the list. *)
Lemma threadInterruptHandler_bound fuel ignore env t w p :
  runtimeState w !! t = Some p →
  is_Some (instances w !! p) →
  run (threadInterruptHandler fuel ignore) env t w
    = (Returned tt, w, handler_events (instances w) (Some p)).
Proof.
  intros Hslot [st Hp]. unfold threadInterruptHandler. simpl.
  rewrite Hslot. simpl. rewrite Hp. simpl. by destruct (handler st).
Qed.

(** C2, as the code has it: called on a thread whose slot is empty, the
    interrupt handler scans the list of runtimes if and only if the lock
    word is not 0, that is while some thread holds the lock, whether the
    list is empty or not.  It never takes the lock and changes nothing.
    With the lock word 0 it returns with nothing called, whatever the list
    holds.  With the lock word not 0 it takes the first runtime of the list
    made by the interrupted thread and calls its handler exactly when there
    is such a runtime and its handler is set; when there is none the
    interrupt has no effect. *)
Theorem threadInterruptHandler_fallback (fuel : nat) (ignore : Z)
    (env : Env) (t : Z) (w : World) :
  runtimeState w !! t = None →
  (runtimesLock w = 0 →
     run (threadInterruptHandler fuel ignore) env t w = (Returned tt, w, [])) ∧
  (runtimesLock w ≠ 0 →
     ∀ l, is_registry (instances w) (runtimeStateList w) l →
       (length l ≤ fuel)%nat →
       run (threadInterruptHandler fuel ignore) env t w
         = (Returned tt, w,
            handler_events (instances w) (first_of_thread (instances w) t l))).
Proof.
  intros Hslot. split.
  - by apply threadInterruptHandler_unlocked.
  - intros Hlock l Hreg Hfuel. by apply threadInterruptHandler_locked_scans.
Qed.

Lemma threadInterruptHandler_fallback_witness :
  (runtimesLock world_one_runtime_locked = 0 →
     run (threadInterruptHandler 8 0) (mkEnv None 0) 7 world_one_runtime_locked
       = (Returned tt, world_one_runtime_locked, [])) ∧
  (runtimesLock world_one_runtime_locked ≠ 0 →
     ∀ l, is_registry (instances world_one_runtime_locked)
            (runtimeStateList world_one_runtime_locked) l →
       (length l ≤ 8)%nat →
       run (threadInterruptHandler 8 0) (mkEnv None 0) 7 world_one_runtime_locked
         = (Returned tt, world_one_runtime_locked,
            handler_events (instances world_one_runtime_locked)
              (first_of_thread (instances world_one_runtime_locked) 7 l))).
Proof.
  apply (threadInterruptHandler_fallback 8 0 (mkEnv None 0) 7 world_one_runtime_locked).
  reflexivity.
Defined.

(** While the lock is held, the interrupt of thread 7 calls the handler of
    the runtime that thread 7 made. *)
Example threadInterruptHandler_locked_calls :
  run (threadInterruptHandler 8 0) (mkEnv None 0) 7 world_one_runtime_locked
    = (Returned tt, world_one_runtime_locked, [EvHandler 5%positive 1%positive]).
Proof. vm_compute. reflexivity. Qed.

(** C2 as the claim has it fails: at [world_one_runtime] the slot of
    thread 7 is empty and the list is not: it holds runtime 1, made by
    thread 7, with handler 5.  A scan would find it and call the handler.
    The lock is free, and the interrupt of thread 7 calls nothing. *)
Lemma threadInterruptHandler_unlocked_drops :
  runtimeState world_one_runtime !! 7 = None ∧
  is_registry (instances world_one_runtime) (runtimeStateList world_one_runtime)
    [1%positive] ∧
  first_of_thread (instances world_one_runtime) 7 [1%positive] = Some 1%positive ∧
  handler_events (instances world_one_runtime) (Some 1%positive)
    = [EvHandler 5%positive 1%positive] ∧
  run (threadInterruptHandler 8 0) (mkEnv None 0) 7 world_one_runtime
    = (Returned tt, world_one_runtime, []).
Proof.
  split; [reflexivity|]. split.
  { simpl. split; [reflexivity|]. eexists. split; reflexivity. }
  split; [reflexivity|]. split; [reflexivity|].
  vm_compute. reflexivity.
Qed.

(** ** Creation *)

(** C7: when the allocation of the RuntimeState fails, createDetached
    returns a null result and does not terminate the process; the world is
    the one before the call: the count of alive runtimes, the list of
    runtimes and the initializer chain with it.  The call has shown the
    installation of the terminate handler and the failed allocation. *)
Theorem Kotlin_createRuntime_allocation_failure (fuel : nat) (memory : Z)
    (t : Z) (w : World) :
  run (Kotlin_createRuntime fuel) (mkEnv None memory) t w
    = (Returned None, w, [EvSetKonanTerminateHandler; EvKonanConstructInstance None]).
Proof. reflexivity. Qed.

(** C3, as the code has it: a creation whose allocation succeeds installs
    the terminate handler, allocates the state, stores the creating thread
    and a null handler, calls InitMemory and stores its handle, increments
    the count of alive runtimes, and then at once inserts the state at the
    head of the list under the lock; only after that, if the increment
    made the count 1, it installs the interrupt handler, marks the thread
    main, sets the console up and runs INIT_GLOBALS; and last it runs
    INIT_THREAD_LOCAL_GLOBALS.  It returns the state and leaves
    [world_created]. *)
Theorem initRuntime_order (fuel : nat) (env : Env) (t : Z) (w : World)
    (p : loc) (l : list (loc * fnptr)) :
  env_alloc env = Some p →
  instances w !! p = None →
  runtimesLock w = 0 →
  is_chain (initNodes w) (initHeadNode w) l →
  (length l ≤ fuel)%nat →
  run (initRuntime fuel) env t w
    = (Returned (Some p), world_created p t (env_memory env) w,
       events_created p t (env_memory env) w l).
Proof.
  intros Halloc Hfresh Hlock Hchain Hfuel.
  world_destruct w. subst lock.
  unfold initRuntime, world_created, events_created. simpl. rewrite Halloc, Hfresh.
  do 4 run_step.
  destruct (bool_decide (wrap32 (count + 1) = 1)); simpl.
  - rewrite run_bind, (InitOrDeinitGlobalVariables_run _ _ l) by done.
    simpl.
    rewrite run_bind, (InitOrDeinitGlobalVariables_run _ _ l) by done.
    simpl. by rewrite !app_nil_r.
  - rewrite run_bind, (InitOrDeinitGlobalVariables_run _ _ l) by done.
    simpl. by rewrite !app_nil_r.
Qed.

Lemma initRuntime_order_witness :
  run (initRuntime 8) (mkEnv (Some 1%positive) 100) 7 world_two_initializers
    = (Returned (Some 1%positive),
       world_created 1%positive 7 100 world_two_initializers,
       events_created 1%positive 7 100 world_two_initializers
         [(10%positive, 20%positive); (11%positive, 21%positive)]).
Proof.
  apply (initRuntime_order 8 (mkEnv (Some 1%positive) 100) 7 world_two_initializers
           1%positive [(10%positive, 20%positive); (11%positive, 21%positive)]).
  - reflexivity.
  - reflexivity.
  - reflexivity.
  - simpl. split; [reflexivity|]. exists (Some 11%positive).
    split; [reflexivity|]. split; [reflexivity|]. exists None.
    split; reflexivity.
  - simpl. lia.
Defined.

(** C3 as the claim has it fails: in the first creation over a chain of
    two initializers the state goes into the list at place 9 of the run,
    before the interrupt handler is installed (place 11), before
    INIT_GLOBALS (place 14) and before INIT_THREAD_LOCAL_GLOBALS (place
    17), not after them. *)
Lemma initRuntime_inserts_before_phases :
  let r := run (Kotlin_createRuntime 8) (mkEnv (Some 1%positive) 100) 7
               world_two_initializers in
  r.1.1 = Returned (Some 1%positive) ∧
  r.2 = [EvSetKonanTerminateHandler;
         EvKonanConstructInstance (Some 1%positive);
         EvSetThreadId 1%positive 7;
         EvSetHandler 1%positive None;
         EvInitMemory 100;
         EvSetMemoryState 1%positive 100;
         EvAtomicAdd 1 0 1;
         EvSpinLock;
         EvSetNext 1%positive None;
         EvSetRuntimeStateList (Some 1%positive);
         EvSpinUnlock;
         EvSetThreadInterruptHandler;
         EvSetIsMainThread 1;
         EvConsoleInit;
         EvInitOrDeinitGlobalVariables INIT_GLOBALS;
         EvInitializer 20%positive INIT_GLOBALS;
         EvInitializer 21%positive INIT_GLOBALS;
         EvInitOrDeinitGlobalVariables INIT_THREAD_LOCAL_GLOBALS;
         EvInitializer 20%positive INIT_THREAD_LOCAL_GLOBALS;
         EvInitializer 21%positive INIT_THREAD_LOCAL_GLOBALS] ∧
  position is_registry_insertion r.2 = Some 9%nat ∧
  position is_interrupt_installation r.2 = Some 11%nat ∧
  position (is_phase INIT_GLOBALS) r.2 = Some 14%nat ∧
  position (is_phase INIT_THREAD_LOCAL_GLOBALS) r.2 = Some 17%nat ∧
  ¬ (∃ i j, position (is_phase INIT_THREAD_LOCAL_GLOBALS) r.2 = Some i ∧
            position is_registry_insertion r.2 = Some j ∧ (i < j)%nat).
Proof.
  vm_compute. repeat split. intros (i & j & Hi & Hj & Hlt).
  injection Hi as <-. injection Hj as <-. lia.
Qed.

Lemma initRuntime_phases_keep_instances fuel (first : bool) (result : option loc) env t w :
  instances (run ((if first then
                   setThreadInterruptHandler;;
                   set_isMainThread 1;;
                   consoleInit;;
                   InitOrDeinitGlobalVariables fuel INIT_GLOBALS
                 else Ret tt);;
                InitOrDeinitGlobalVariables fuel INIT_THREAD_LOCAL_GLOBALS;;
                Ret result) env t w).1.2 = instances w ∧
  (∀ a, (run ((if first then
                   setThreadInterruptHandler;;
                   set_isMainThread 1;;
                   consoleInit;;
                   InitOrDeinitGlobalVariables fuel INIT_GLOBALS
                 else Ret tt);;
                InitOrDeinitGlobalVariables fuel INIT_THREAD_LOCAL_GLOBALS;;
                Ret result) env t w).1.1 = Returned a → a = result).
Proof.
  assert (Hk : keeps instances
            (if first then
               setThreadInterruptHandler;;
               set_isMainThread 1;;
               consoleInit;;
               InitOrDeinitGlobalVariables fuel INIT_GLOBALS
             else Ret tt)).
  { destruct first; [|intros ???; reflexivity].
    apply keeps_bind; [intros ???; reflexivity|]. intros _.
    apply keeps_bind; [by intros ?? []|]. intros _.
    apply keeps_bind; [intros ???; reflexivity|]. intros _.
    apply keeps_id_part, InitOrDeinitGlobalVariables_keeps. }
  rewrite run_bind.
  specialize (Hk env t w).
  destruct (run (if first then _ else _) env t w) as [[o w1] e1]. simpl in Hk.
  destruct o as [[]| | |]; simpl; try (split; [done|discriminate]).
  rewrite run_bind.
  pose proof (InitOrDeinitGlobalVariables_keeps fuel INIT_THREAD_LOCAL_GLOBALS env t w1) as Hk2.
  destruct (run (InitOrDeinitGlobalVariables _ _) env t w1) as [[o w2] e2]. simpl in Hk2.
  subst w2.
  destruct o as [[]| | |]; simpl; (split; [done|]); try discriminate.
  intros a Ha. by injection Ha.
Qed.

(** C9: a state that creation returns has status SUSPENDED when creation
    returns.  Creation never stores the status: it is the one the state
    was constructed with, and the zero of a constructed state is
    SUSPENDED. *)
Theorem Kotlin_createRuntime_SUSPENDED (fuel : nat) (env : Env) (t : Z)
    (w w' : World) (p : loc) (evs : list Event) :
  run (Kotlin_createRuntime fuel) env t w = (Returned (Some p), w', evs) →
  ∃ st, instances w' !! p = Some st ∧
        executionStatus st = SUSPENDED ∧
        executionStatus st = executionStatus zero_RuntimeState.
Proof.
  world_destruct w.
  unfold Kotlin_createRuntime, initRuntime. simpl.
  destruct (env_alloc env) as [q|]; [|discriminate].
  destruct (insts !! q) eqn:Hq; [discriminate|].
  do 4 run_step.
  destruct (decide (lock = 0)); [|discriminate].
  do 3 run_step.
  match goal with
  | |- context [run ?prog env t ?w1] =>
      pose proof (initRuntime_phases_keep_instances fuel
                  (bool_decide (wrap32 (count + 1) = 1))
                  (Some q) env t w1) as H;
      set (r := run prog env t w1) in *;
      change (instances r.1.2 = instances w1 ∧ ∀ a, r.1.1 = Returned a → a = Some q) in H
  end.
  destruct H as [Hi Hr]. destruct r as [[o w2] e2]. simpl in *.
  intros H. injection H as -> -> _.
  specialize (Hr _ eq_refl). injection Hr as ->.
  rewrite Hi, lookup_insert_eq. eexists. split; [done|]. done.
Qed.

Lemma Kotlin_createRuntime_SUSPENDED_witness :
  ∃ st, instances (world_created 1%positive 7 100 initial_world) !! 1%positive = Some st ∧
        executionStatus st = SUSPENDED ∧
        executionStatus st = executionStatus zero_RuntimeState.
Proof.
  apply (Kotlin_createRuntime_SUSPENDED 8 (mkEnv (Some 1%positive) 100) 7 initial_world
           (world_created 1%positive 7 100 initial_world) 1%positive
           (events_created 1%positive 7 100 initial_world [])).
  vm_compute. reflexivity.
Defined.

(** ** Attaching *)

(** C4, as the code has it: on a thread that already has a runtime in its
    slot, Kotlin_initRuntimeIfNeeded returns at once: no check fails,
    nothing is called and nothing is stored. *)
Theorem Kotlin_initRuntimeIfNeeded_attached_noop (fuel : nat) (env : Env)
    (t : Z) (w : World) (p : loc) :
  runtimeState w !! t = Some p →
  run (Kotlin_initRuntimeIfNeeded fuel) env t w = (Returned tt, w, []).
Proof.
  intros Hslot. unfold Kotlin_initRuntimeIfNeeded. simpl. by rewrite Hslot.
Qed.

Lemma Kotlin_initRuntimeIfNeeded_attached_noop_witness :
  run (Kotlin_initRuntimeIfNeeded 8) (mkEnv (Some 2%positive) 0) 7 world_attached
    = (Returned tt, world_attached, []).
Proof.
  apply (Kotlin_initRuntimeIfNeeded_attached_noop 8 _ 7 world_attached 1%positive).
  reflexivity.
Defined.

(** C4 as the claim has it fails: thread 7 attaches from the initial
    world, which leaves runtime 1 in its slot, and attaches again; the
    second call returns and no check has terminated the process. *)
Lemma Kotlin_initRuntimeIfNeeded_twice_not_fatal :
  let env := mkEnv (Some 1%positive) 100 in
  let first := run (Kotlin_initRuntimeIfNeeded 8) env 7 initial_world in
  let second := run (Kotlin_initRuntimeIfNeeded 8) env 7 first.1.2 in
  first.1.1 = Returned tt ∧
  runtimeState first.1.2 !! 7 = Some 1%positive ∧
  second.1.1 = Returned tt ∧
  (∀ msg, second.1.1 ≠ Aborted msg) ∧
  second.1.2 = first.1.2.
Proof. vm_compute. repeat split; intros; discriminate. Qed.

(** ** Suspending and resuming *)

Lemma Kotlin_suspendRuntime_run (env : Env) (t : Z) (w : World)
    (p : loc) (st : RuntimeState) :
  runtimeState w !! t = Some p →
  instances w !! p = Some st →
  executionStatus st = RUNNING →
  run Kotlin_suspendRuntime env t w =
    (Returned (Some p),
     with_runtimeState (delete t (runtimeState w))
       (with_instances
          (<[p:=mkRuntimeState (threadId st) (handler st) (env_memory env) SUSPENDED (next st)]>
             (instances w)) w),
     [EvStatus p RUNNING SUSPENDED; EvSuspendMemory (env_memory env);
      EvSetMemoryState p (env_memory env); EvSetRuntimeState None]).
Proof.
  intros Hslot Hp Hst. world_destruct w.
  unfold Kotlin_suspendRuntime. 
  simpl. rewrite Hslot. simpl. rewrite Hslot. simpl. rewrite Hp. simpl.
  rewrite decide_True by done.
  simpl. rewrite lookup_insert_eq. simpl. rewrite insert_insert_eq.
  done.
Qed.

Lemma Kotlin_resumeRuntime_run (env : Env) (t : Z) (w : World)
    (p : loc) (st : RuntimeState) :
  runtimeState w !! t = None →
  instances w !! p = Some st →
  executionStatus st = SUSPENDED →
  run (Kotlin_resumeRuntime (Some p)) env t w =
    (Returned tt,
     with_runtimeState (<[t:=p]> (runtimeState w))
       (with_instances (<[p:=with_executionStatus RUNNING st]> (instances w)) w),
     [EvStatus p SUSPENDED RUNNING; EvSetRuntimeState (Some p);
      EvResumeMemory (memoryState st)]).
Proof.
  intros Hslot Hp Hst. world_destruct w.
  unfold Kotlin_resumeRuntime.
  simpl. rewrite Hslot. simpl. rewrite Hp. simpl.
  rewrite decide_True by done.
  simpl. rewrite lookup_insert_eq. simpl. done.
Qed.

(** C5: on a thread whose slot holds a RUNNING runtime, suspending
    returns that runtime, SUSPENDED, with the slot empty; resuming the
    returned runtime at once makes it RUNNING again and puts it back in
    the slot of the thread.  The world is then the one before the suspend,
    but for the memory handle that SuspendMemory gave. *)
Theorem suspend_resume_round_trip (env env' : Env) (t : Z) (w : World)
    (p : loc) (st : RuntimeState) :
  runtimeState w !! t = Some p →
  instances w !! p = Some st →
  executionStatus st = RUNNING →
  ∃ w1 evs1 w2 evs2,
    run Kotlin_suspendRuntime env t w = (Returned (Some p), w1, evs1) ∧
    runtimeState w1 !! t = None ∧
    executionStatus <$> instances w1 !! p = Some SUSPENDED ∧
    run (Kotlin_resumeRuntime (Some p)) env' t w1 = (Returned tt, w2, evs2) ∧
    runtimeState w2 !! t = Some p ∧
    executionStatus <$> instances w2 !! p = Some RUNNING ∧
    w2 = with_instances
           (<[p:=mkRuntimeState (threadId st) (handler st) (env_memory env) RUNNING
                   (next st)]> (instances w)) w.
Proof.
  intros Hslot Hp Hst.
  eexists _, _, _, _.
  split; [by apply (Kotlin_suspendRuntime_run env t w p st)|].
  destruct w as [hd tl nodes slots mains count lock lst insts].
  split; [apply lookup_delete_eq|].
  split; [simpl; by rewrite lookup_insert_eq|].
  split.
  { apply Kotlin_resumeRuntime_run; simpl;
      [apply lookup_delete_eq|apply lookup_insert_eq|done]. }
  simpl in *. rewrite !lookup_insert_eq, insert_insert_eq, insert_delete_eq.
  rewrite (insert_id slots t p) by done. done.
Qed.

Lemma suspend_resume_round_trip_witness :
  ∃ w1 evs1 w2 evs2,
    run Kotlin_suspendRuntime (mkEnv None 300) 7 world_attached
      = (Returned (Some 1%positive), w1, evs1) ∧
    runtimeState w1 !! 7 = None ∧
    executionStatus <$> instances w1 !! 1%positive = Some SUSPENDED ∧
    run (Kotlin_resumeRuntime (Some 1%positive)) (mkEnv None 0) 7 w1
      = (Returned tt, w2, evs2) ∧
    runtimeState w2 !! 7 = Some 1%positive ∧
    executionStatus <$> instances w2 !! 1%positive = Some RUNNING ∧
    w2 = with_instances
           (<[1%positive:=mkRuntimeState 7 (Some 5%positive) 300 RUNNING None]>
              (instances world_attached)) world_attached.
Proof.
  apply (suspend_resume_round_trip (mkEnv None 300) (mkEnv None 0) 7 world_attached
           1%positive (mkRuntimeState 7 (Some 5%positive) 100 RUNNING None));
    reflexivity.
Defined.

(** ** Registering initializers *)

Lemma is_chain_insert_other nodes head l q nd :
  q ∉ l.*1 →
  is_chain nodes head l →
  is_chain (<[q:=nd]> nodes) head l.
Proof.
  revert head. induction l as [|[p f] l IH]; intros head Hq Hc; simpl in *; [done|].
  destruct Hc as (-> & nx & Hp & Hc). split; [done|].
  apply not_elem_of_cons in Hq as [Hne Hq].
  exists nx. split.
  - by rewrite lookup_insert_ne.
  - by apply IH.
Qed.

Lemma is_chain_snoc nodes head l tlp tlf q g :
  is_chain nodes head (l ++ [(tlp, tlf)]) →
  NoDup (l ++ [(tlp, tlf)]).*1 →
  q ∉ (l ++ [(tlp, tlf)]).*1 →
  nodes !! q = Some (mkInitNode g None) →
  is_chain (<[tlp:=mkInitNode tlf (Some q)]> nodes) head ((l ++ [(tlp, tlf)]) ++ [(q, g)]).
Proof.
  revert head. induction l as [|[p f] l IH]; intros head Hc Hnd Hq Hg; simpl in *.
  - destruct Hc as (-> & nx & Hp & Hnx). split; [done|].
    apply not_elem_of_cons in Hq as [Hne _].
    exists (Some q). split; [by rewrite lookup_insert_eq|].
    split; [done|]. exists None. split; [|done].
    by rewrite lookup_insert_ne.
  - destruct Hc as (-> & nx & Hp & Hc). split; [done|].
    apply NoDup_cons in Hnd as [Hp_notin Hnd].
    apply not_elem_of_cons in Hq as [Hne Hq].
    exists nx. split.
    + rewrite lookup_insert_ne; [done|].
      intros ->. apply Hp_notin. rewrite fmap_app.
      apply elem_of_app. right. simpl. apply list_elem_of_here.
    + by apply IH.
Qed.

Lemma is_chain_last_next nodes head l tlp tlf :
  is_chain nodes head (l ++ [(tlp, tlf)]) →
  nodes !! tlp = Some (mkInitNode tlf None).
Proof.
  revert head. induction l as [|[p f] l IH]; intros head Hc; simpl in *.
  - destruct Hc as (_ & nx & Hp & ->). done.
  - destruct Hc as (_ & nx & _ & Hc). by eapply IH.
Qed.

Lemma AppendToInitializersTail_run env t w l p f :
  chain_registered w l →
  p ∉ l.*1 →
  initNodes w !! p = Some (mkInitNode f None) →
  ∃ w' evs,
    run (AppendToInitializersTail (Some p)) env t w = (Returned tt, w', evs) ∧
    chain_registered w' (l ++ [(p, f)]) ∧
    (∀ q, q ∉ l.*1 → initNodes w' !! q = initNodes w !! q).
Proof.
  intros (Hc & Hnd & Htl) Hp Hnode.
  destruct w as [hd tl nodes slots mains count lock lst insts]; simpl in *.
  destruct l as [|x l0 _] using rev_ind.
  - simpl in Hc. subst hd. unfold AppendToInitializersTail. simpl.
    eexists _, _. split; [done|]. split; [|done].
    split; simpl.
    + split; [done|]. by exists None.
    + split; [apply NoDup_singleton|done].
  - destruct x as [tlp tlf].
    assert (Htl' : tl = Some tlp).
    { rewrite Htl; [|by destruct l0]. rewrite fmap_app. simpl. by rewrite last_snoc. }
    subst tl.
    pose proof (is_chain_last_next _ _ _ _ _ Hc) as Hlast.
    assert (∃ h, hd = Some h) as [h ->].
    { destruct l0 as [|[] ?]; simpl in Hc; destruct Hc as [-> _]; eauto. }
    unfold AppendToInitializersTail. simpl. rewrite Hlast. simpl.
    eexists _, _. split; [done|]. split.
    + split; simpl; [by apply is_chain_snoc|].
      split.
      * rewrite fmap_app. apply NoDup_app. split; [done|].
        split; [|apply NoDup_singleton].
        intros x Hx Hx'. simpl in Hx'. apply list_elem_of_singleton in Hx'. by subst.
      * intros _. rewrite fmap_app. simpl. by rewrite last_snoc.
    + intros q Hq. simpl. rewrite lookup_insert_ne; [done|].
      intros ->. apply Hq. rewrite fmap_app.
      apply elem_of_app. right. simpl. apply list_elem_of_here.
Qed.

Lemma registerAll_run env t rest :
  ∀ l w,
    chain_registered w l →
    NoDup (l ++ rest).*1 →
    (∀ p f, (p, f) ∈ rest → initNodes w !! p = Some (mkInitNode f None)) →
    ∃ w' evs,
      run (registerAll rest.*1) env t w = (Returned tt, w', evs) ∧
      chain_registered w' (l ++ rest).
Proof.
  induction rest as [|[p f] rest IH]; intros l w Hreg Hnd Hnodes.
  - simpl. exists w, []. by rewrite app_nil_r.
  - assert (Hp : p ∉ l.*1).
    { rewrite fmap_app in Hnd. apply NoDup_app in Hnd as (_ & Hdis & _).
      intros Hin. apply (Hdis p Hin). simpl. apply list_elem_of_here. }
    destruct (AppendToInitializersTail_run env t w l p f Hreg Hp) as (w1 & e1 & Hrun & Hreg1 & Hother).
    { apply Hnodes. apply list_elem_of_here. }
    destruct (IH (l ++ [(p, f)]) w1 Hreg1) as (w' & e' & Hrun' & Hreg').
    { by rewrite <- app_assoc. }
    { intros q g Hq. rewrite Hother.
      - apply Hnodes. by apply list_elem_of_further.
      - rewrite fmap_app in Hnd. apply NoDup_app in Hnd as (_ & Hdis & _).
        intros Hin. apply (Hdis q Hin). simpl. apply list_elem_of_further.
        apply list_elem_of_fmap. by exists (q, g). }
    exists w', (e1 ++ e'). split.
    + cbn [fmap list_fmap registerAll]. simpl fst. rewrite run_bind, Hrun. simpl.
      by rewrite Hrun'.
    + by rewrite <- app_assoc in Hreg'.
Qed.

(** C6: when the nodes of [l] are registered in order, from an empty chain
    (each node apart from the others and with a null next), the chain holds
    them in registration order, and then every phase, the two deinit ones
    as the two init ones, walks the whole chain first to last: with the tag
    of the phase it calls the callback of every registered node once, in
    registration order. *)
Theorem registered_initializers_order (l : list (loc * fnptr)) (env : Env)
    (t : Z) (w : World) :
  initHeadNode w = None →
  NoDup l.*1 →
  (∀ p f, (p, f) ∈ l → initNodes w !! p = Some (mkInitNode f None)) →
  ∃ w' evs,
    run (registerAll l.*1) env t w = (Returned tt, w', evs) ∧
    is_chain (initNodes w') (initHeadNode w') l ∧
    ∀ fuel initialize env' t',
      (length l ≤ fuel)%nat →
      run (InitOrDeinitGlobalVariables fuel initialize) env' t' w'
        = (Returned tt, w', phase_events initialize l).
Proof.
  intros Hhead Hnd Hnodes.
  assert (Hreg : chain_registered w []) by (split; [done|split; [apply NoDup_nil_2|done]]).
  destruct (registerAll_run env t l [] w Hreg Hnd Hnodes) as (w' & evs & Hrun & Hc & _ & _).
  exists w', evs. split; [done|]. split; [done|].
  intros fuel initialize env' t' Hfuel.
  by apply InitOrDeinitGlobalVariables_run.
Qed.

Lemma registered_initializers_order_witness :
  ∃ w' evs,
    run (registerAll [10; 11; 12]%positive) (mkEnv None 0) 7 world_three_nodes
      = (Returned tt, w', evs) ∧
    is_chain (initNodes w') (initHeadNode w')
      [(10, 20); (11, 21); (12, 22)]%positive ∧
    ∀ fuel initialize env' t',
      (3 ≤ fuel)%nat →
      run (InitOrDeinitGlobalVariables fuel initialize) env' t' w'
        = (Returned tt, w',
           phase_events initialize [(10, 20); (11, 21); (12, 22)]%positive).
Proof.
  apply (registered_initializers_order [(10, 20); (11, 21); (12, 22)]%positive
           (mkEnv None 0) 7 world_three_nodes).
  - reflexivity.
  - simpl. repeat (apply NoDup_cons; split; [set_unfold; intuition discriminate|]).
    apply NoDup_nil_2.
  - intros p f Hin.
    repeat (apply elem_of_cons in Hin as [Hin|Hin]; [injection Hin as -> ->; reflexivity|]).
    by apply elem_of_nil in Hin.
Defined.

(** The deinit phases call the initializers in registration order too. *)
Example registered_initializers_deinit_order :
  let w := (run (registerAll [10; 11; 12]%positive) (mkEnv None 0) 7 world_three_nodes).1.2 in
  (run (InitOrDeinitGlobalVariables 8 DEINIT_GLOBALS) (mkEnv None 0) 7 w).2
    = [EvInitOrDeinitGlobalVariables DEINIT_GLOBALS;
       EvInitializer 20%positive DEINIT_GLOBALS;
       EvInitializer 21%positive DEINIT_GLOBALS;
       EvInitializer 22%positive DEINIT_GLOBALS] ∧
  (run (InitOrDeinitGlobalVariables 8 DEINIT_THREAD_LOCAL_GLOBALS) (mkEnv None 0) 7 w).2
    = [EvInitOrDeinitGlobalVariables DEINIT_THREAD_LOCAL_GLOBALS;
       EvInitializer 20%positive DEINIT_THREAD_LOCAL_GLOBALS;
       EvInitializer 21%positive DEINIT_THREAD_LOCAL_GLOBALS;
       EvInitializer 22%positive DEINIT_THREAD_LOCAL_GLOBALS].
Proof. vm_compute. done. Qed.

(** ** DESTROYING is the end *)

Lemma threadInterruptHandler_loop_obeys s n tid current :
  obeys s (threadInterruptHandler_loop n tid current).
Proof.
  revert current. induction n as [|n IH]; intros [p|];
    cbn [threadInterruptHandler_loop]; try apply obeys_Ret.
  - intros env t w. split; [apply stable_but_refl|done].
  - repeat (apply IH || obeys_step).
Qed.

Lemma threadInterruptHandler_obeys s fuel ignore :
  obeys s (threadInterruptHandler fuel ignore).
Proof.
  unfold threadInterruptHandler.
  repeat (apply threadInterruptHandler_loop_obeys || obeys_step).
Qed.

Lemma initRuntime_obeys s fuel : obeys s (initRuntime fuel).
Proof.
  unfold initRuntime.
  repeat (apply InitOrDeinitGlobalVariables_obeys || obeys_step).
Qed.

Lemma deinitRuntime_loop_obeys s n state current previous :
  obeys s (deinitRuntime_loop n state current previous).
Proof.
  revert current previous. induction n as [|n IH]; intros [p|] previous;
    cbn [deinitRuntime_loop]; try apply obeys_Ret.
  - intros env t w. split; [apply stable_but_refl|done].
  - repeat (apply IH || obeys_step).
Qed.

(** [deinitRuntime] frees [state], and touches no other status. *)
Lemma deinitRuntime_obeys fuel state : obeys state (deinitRuntime fuel state).
Proof.
  unfold deinitRuntime.
  repeat (apply InitOrDeinitGlobalVariables_obeys || apply deinitRuntime_loop_obeys
          || apply obeys_konanDestructInstance || obeys_step).
Qed.

Opaque deinitRuntime.

(** After a compare-and-exchange of the status of [q] has succeeded from
    a status that is not DESTROYING, destroying [q] leaves all states that
    were DESTROYING before the exchange as they are. *)
Lemma deinitRuntime_after_exchange fuel q st newStatus env t w :
  instances w !! q = Some st →
  executionStatus st ≠ DESTROYING →
  let w1 := with_instances (<[q:=with_executionStatus newStatus st]> (instances w)) w in
  stable_but None (instances w) (instances (run (deinitRuntime fuel (Some q)) env t w1).1.2) ∧
  Forall status_transition_ok (run (deinitRuntime fuel (Some q)) env t w1).2.
Proof.
  intros Hq Hst w1.
  destruct (deinitRuntime_obeys fuel (Some q) env t w1) as [Hw He].
  split; [|done].
  intros p stp _ Hp Hd.
  assert (p ≠ q) by (intros ->; congruence).
  apply (Hw p stp); [congruence| |done].
  subst w1. destruct w. simpl in *. by rewrite lookup_insert_ne.
Qed.

Lemma Kotlin_destroyRuntime_obeys fuel state : obeys None (Kotlin_destroyRuntime fuel state).
Proof.
  intros env t w. unfold Kotlin_destroyRuntime. simpl.
  destruct state as [q|]; [|split; [apply stable_but_refl|done]].
  destruct (instances w !! q) as [st|] eqn:Hq; [|split; [apply stable_but_refl|done]].
  destruct (decide (executionStatus st = SUSPENDED)) as [Hst|Hst]; simpl;
    [|split; [apply stable_but_refl|done]].
  destruct (deinitRuntime_after_exchange fuel q st DESTROYING env t w Hq) as [Hw He];
    [by rewrite Hst|].
  destruct (run (deinitRuntime fuel (Some q)) env t _) as [[o w2] e2]. simpl in *.
  split; [done|]. constructor; [by left|done].
Qed.

Lemma Kotlin_deinitRuntimeIfNeeded_obeys fuel : obeys None (Kotlin_deinitRuntimeIfNeeded fuel).
Proof.
  intros env t w. unfold Kotlin_deinitRuntimeIfNeeded. simpl.
  destruct (runtimeState w !! t) as [q|] eqn:Hslot; simpl;
    [|split; [apply stable_but_refl|done]].
  rewrite Hslot. simpl.
  destruct (instances w !! q) as [st|] eqn:Hq; [|split; [apply stable_but_refl|done]].
  destruct (decide (executionStatus st = RUNNING)) as [Hst|Hst]; simpl;
    [|split; [apply stable_but_refl|done]].
  destruct (deinitRuntime_after_exchange fuel q st DESTROYING env t w Hq) as [Hw He];
    [by rewrite Hst|].
  destruct w as [hd tl nodes slots mains count lock lst insts]. simpl in *.
  rewrite Hslot, run_bind.
  destruct (run (deinitRuntime fuel (Some q)) env t _) as [[o w2] e2]. simpl in *.
  destruct o as [[]| | |]; simpl.
  - destruct w2. simpl in *. split; [done|].
    constructor; [by right|]. apply Forall_app. split; [done|by repeat constructor].
  - split; [done|]. constructor; [by right|done].
  - split; [done|]. constructor; [by right|done].
  - split; [done|]. constructor; [by right|done].
Qed.

Transparent deinitRuntime.

(** C8: DESTROYING is terminal.  Whatever operation of the file a thread
    runs (attach, detach, create, destroy, suspend, resume, reading the
    current runtime, an interrupt), with whatever arguments and however
    it ends, a state that was DESTROYING before is still there and still
    DESTROYING after; and every store of a status the run shows is a
    compare-and-exchange whose expected old status is SUSPENDED or
    RUNNING. *)
Theorem DESTROYING_is_terminal (fuel : nat) (op : Operation) (env : Env)
    (t : Z) (w : World) (p : loc) (st : RuntimeState) :
  instances w !! p = Some st →
  executionStatus st = DESTROYING →
  (∃ st', instances (run (operation fuel op) env t w).1.2 !! p = Some st' ∧
          executionStatus st' = DESTROYING) ∧
  Forall status_transition_ok (run (operation fuel op) env t w).2.
Proof.
  intros Hp Hst.
  assert (Hop : obeys None (operation fuel op)).
  { destruct op; unfold operation.
    - unfold Kotlin_initRuntimeIfNeeded.
      repeat (apply initRuntime_obeys || obeys_step).
    - apply Kotlin_deinitRuntimeIfNeeded_obeys.
    - apply obeys_bind; [apply initRuntime_obeys|intros; apply obeys_Ret].
    - apply Kotlin_destroyRuntime_obeys.
    - unfold Kotlin_suspendRuntime. repeat obeys_step.
    - unfold Kotlin_resumeRuntime. repeat obeys_step.
    - unfold Kotlin_getRuntime. repeat obeys_step.
    - apply threadInterruptHandler_obeys. }
  destruct (Hop env t w) as [Hw He]. split; [|done].
  by apply (Hw p st).
Qed.

Lemma DESTROYING_is_terminal_witness :
  (∃ st', instances (run (operation 8 (OpResumeRuntime (Some 1%positive)))
                         (mkEnv None 0) 9 world_destroying).1.2 !! 1%positive = Some st' ∧
          executionStatus st' = DESTROYING) ∧
  Forall status_transition_ok
    (run (operation 8 (OpResumeRuntime (Some 1%positive))) (mkEnv None 0) 9
         world_destroying).2.
Proof.
  apply (DESTROYING_is_terminal 8 (OpResumeRuntime (Some 1%positive)) (mkEnv None 0) 9
           world_destroying 1%positive (mkRuntimeState 7 None 100 DESTROYING None));
    reflexivity.
Defined.

(** Resuming a runtime that is DESTROYING, or destroying it again, fails
    the check of the status and changes nothing. *)
Example DESTROYING_resume_is_fatal :
  (run (Kotlin_resumeRuntime (Some 1%positive)) (mkEnv None 0) 9 world_destroying).1
    = (Aborted "Cannot transition state to RUNNING for resume", world_destroying).
Proof. vm_compute. reflexivity. Qed.

Example DESTROYING_destroy_is_fatal :
  (run (Kotlin_destroyRuntime 8 (Some 1%positive)) (mkEnv None 0) 9 world_destroying).1
    = (Aborted "Cannot transition state to DESTROYING", world_destroying).
Proof. vm_compute. reflexivity. Qed.

(** ** Threads that interleave *)

Lemma initRuntime_gates fuel : gates Idle (λ _, Idle) (initRuntime fuel).
Proof.
  unfold initRuntime.
  apply gates_bind_quiet; [quiet_steps|]. intros _.
  apply gates_bind_quiet; [quiet_steps|]. intros result.
  destruct result as [p|]; [|by apply gates_Ret].
  do 5 (apply gates_bind_quiet; [unfold set_threadId, set_handler, set_memoryState; quiet_steps|]; intros ?).
  apply (gates_bind Idle (λ count, Incremented (bool_decide (count = 1)))).
  { apply gates_atom. intros env t w. simpl. done. }
  intros count.
  do 5 (apply gates_bind_quiet;
        [unfold Kotlin_lockRuntimes, Kotlin_unlockRuntimes, set_next; quiet_steps|];
        intros ?).
  apply (gates_bind _ (λ _, if bool_decide (count = 1)
                            then GlobalsInitialized else Incremented false)).
  - destruct (bool_decide (count = 1)); [|by apply gates_Ret].
    do 3 (apply gates_bind_quiet; [quiet_steps|]; intros ?).
    by apply InitOrDeinitGlobalVariables_gates.
  - intros _. apply (gates_bind _ (λ _, Idle)); [|intros _; by apply gates_Ret].
    destruct (bool_decide (count = 1)); by apply InitOrDeinitGlobalVariables_gates.
Qed.

Lemma deinitRuntime_loop_quiet n state current previous :
  all_steps quiet_step (deinitRuntime_loop n state current previous).
Proof.
  revert current previous. induction n as [|n IH]; intros [p|] previous;
    cbn [deinitRuntime_loop]; try done.
  unfold set_next. repeat (apply IH || quiet_steps).
Qed.

Lemma deinitRuntime_gates fuel state : gates Idle (λ _, Idle) (deinitRuntime fuel state).
Proof.
  unfold deinitRuntime.
  apply (gates_bind Idle (λ count, Decremented (bool_decide (count = 0)))).
  { apply gates_atom. intros env t w. simpl. done. }
  intros count.
  apply (gates_bind _ (λ _, if bool_decide (count = 0)
                            then ThreadLocalsDeinitialized else Idle)).
  { by apply InitOrDeinitGlobalVariables_gates. }
  intros _.
  apply (gates_bind _ (λ _, Idle)).
  { destruct (bool_decide (count = 0)); [|by apply gates_Ret].
    by apply InitOrDeinitGlobalVariables_gates. }
  intros _.
  do 2 (apply gates_bind_quiet; [unfold Kotlin_lockRuntimes; quiet_steps|]; intros ?).
  apply gates_bind_quiet; [apply deinitRuntime_loop_quiet|]. intros _.
  apply gates_quiet. unfold Kotlin_unlockRuntimes, DeinitMemory. quiet_steps.
Qed.

Lemma Kotlin_destroyRuntime_gates fuel state :
  gates Idle (λ _, Idle) (Kotlin_destroyRuntime fuel state).
Proof.
  unfold Kotlin_destroyRuntime.
  apply gates_bind_quiet; [quiet_steps|]. intros ok.
  apply gates_bind_quiet; [by destruct ok|]. intros _.
  apply deinitRuntime_gates.
Qed.

Lemma Kotlin_initRuntimeIfNeeded_gates fuel :
  gates Idle (λ _, Idle) (Kotlin_initRuntimeIfNeeded fuel).
Proof.
  unfold Kotlin_initRuntimeIfNeeded.
  apply gates_bind_quiet; [quiet_steps|]. intros state.
  destruct state; [by apply gates_Ret|].
  apply (gates_bind _ (λ _, Idle)); [apply initRuntime_gates|]. intros result.
  apply gates_quiet. unfold onThreadExit. quiet_steps.
Qed.

Lemma Kotlin_deinitRuntimeIfNeeded_gates fuel :
  gates Idle (λ _, Idle) (Kotlin_deinitRuntimeIfNeeded fuel).
Proof.
  unfold Kotlin_deinitRuntimeIfNeeded.
  apply gates_bind_quiet; [quiet_steps|]. intros state.
  destruct state; [|by apply gates_Ret].
  apply gates_bind_quiet; [quiet_steps|]. intros state'.
  apply gates_bind_quiet; [quiet_steps|]. intros ok.
  apply gates_bind_quiet; [by destruct ok|]. intros _.
  apply gates_bind_quiet; [quiet_steps|]. intros state''.
  apply (gates_bind _ (λ _, Idle)); [apply deinitRuntime_gates|]. intros _.
  apply gates_quiet. quiet_steps.
Qed.

(** The events of a thread that has run its client to the end pass the
    gate. *)
Lemma client_prog_gates fuel c : gates Idle (λ _, Idle) (client_prog fuel c).
Proof.
  induction c as [|k IH|state k IH|k IH|k IH|k IH|state k IH]; cbn [client_prog].
  - by apply gates_Ret.
  - apply (gates_bind _ (λ _, Idle)); [apply initRuntime_gates|done].
  - apply (gates_bind _ (λ _, Idle)); [apply Kotlin_destroyRuntime_gates|done].
  - apply (gates_bind _ (λ _, Idle)); [apply Kotlin_initRuntimeIfNeeded_gates|done].
  - apply (gates_bind _ (λ _, Idle)); [apply Kotlin_deinitRuntimeIfNeeded_gates|done].
  - apply gates_bind_quiet; [|done].
    unfold Kotlin_suspendRuntime, set_memoryState. quiet_steps.
  - apply gates_bind_quiet; [|done].
    unfold Kotlin_resumeRuntime, ResumeMemory. quiet_steps.
Qed.

Lemma initRuntime_count fuel : all_steps count_step (initRuntime fuel).
Proof.
  unfold initRuntime, set_threadId, set_handler, set_memoryState, set_next,
    Kotlin_lockRuntimes, Kotlin_unlockRuntimes.
  count_steps_with ltac:(apply InitOrDeinitGlobalVariables_count).
Qed.

Lemma deinitRuntime_loop_count n state current previous :
  all_steps count_step (deinitRuntime_loop n state current previous).
Proof.
  revert current previous. induction n as [|n IH]; intros [p|] previous;
    cbn [deinitRuntime_loop]; try done.
  unfold set_next. count_steps_with ltac:(apply IH).
Qed.

Lemma deinitRuntime_count fuel state : all_steps count_step (deinitRuntime fuel state).
Proof.
  unfold deinitRuntime, Kotlin_lockRuntimes, Kotlin_unlockRuntimes, DeinitMemory.
  count_steps_with
    ltac:(first [apply InitOrDeinitGlobalVariables_count|apply deinitRuntime_loop_count]).
Qed.

Lemma client_prog_count fuel c : all_steps count_step (client_prog fuel c).
Proof.
  induction c as [|k IH|state k IH|k IH|k IH|k IH|state k IH]; cbn [client_prog].
  - done.
  - apply all_steps_bind; [apply initRuntime_count|done].
  - apply all_steps_bind; [|done]. unfold Kotlin_destroyRuntime.
    count_steps_with ltac:(apply deinitRuntime_count).
  - apply all_steps_bind; [|done]. unfold Kotlin_initRuntimeIfNeeded, onThreadExit.
    count_steps_with ltac:(apply initRuntime_count).
  - apply all_steps_bind; [|done]. unfold Kotlin_deinitRuntimeIfNeeded.
    count_steps_with ltac:(apply deinitRuntime_count).
  - apply all_steps_bind; [|done]. unfold Kotlin_suspendRuntime, set_memoryState.
    count_steps_with fail.
  - apply all_steps_bind; [|done]. unfold Kotlin_resumeRuntime, ResumeMemory.
    count_steps_with fail.
Qed.

Lemma exec_path sched :
  ∀ c c' tr, exec sched c = (c', tr) →
    ∀ t, path (pool c t) (thread_events t tr) (pool c' t).
Proof.
  induction sched as [|[t0 env] sched IH]; intros c c' tr Hexec t; simpl in Hexec.
  - injection Hexec as <- <-. apply path_refl.
  - unfold thread_step in Hexec.
    destruct (pool c t0) as [a|msg| |X m k] eqn:Hpool; try by apply IH.
    destruct (m env t0 (world c)) as [x w' evs| |] eqn:Hm; try by apply IH.
    destruct (exec sched _) as [c1 tr1] eqn:Hrest.
    injection Hexec as <- <-.
    specialize (IH _ _ _ Hrest t). simpl in IH.
    rewrite thread_events_app, thread_events_tagged.
    destruct (decide (t = t0)) as [->|Hne].
    + rewrite decide_True by done. rewrite Hpool. simpl. right.
      by exists env, t0, (world c), x, w', evs, (thread_events t0 tr1).
    + rewrite decide_False by done. done.
Qed.

Lemma exec_count sched :
  ∀ c c' tr, exec sched c = (c', tr) →
    (∀ t, all_steps count_step (pool c t)) →
    is_int (aliveRuntimesCount (world c)) →
    Forall atomicAdd_sound tr.*2.
Proof.
  induction sched as [|[t0 env] sched IH]; intros c c' tr Hexec Hall Hint; simpl in Hexec.
  - by injection Hexec as <- <-.
  - unfold thread_step in Hexec.
    destruct (pool c t0) as [a|msg| |X m k] eqn:Hpool; try by eapply IH.
    destruct (m env t0 (world c)) as [x w' evs| |] eqn:Hm; try by eapply IH.
    destruct (exec sched _) as [c1 tr1] eqn:Hrest.
    injection Hexec as <- <-.
    pose proof (Hall t0) as Ht0. rewrite Hpool in Ht0. simpl in Ht0.
    destruct Ht0 as [Hstep Hk]. specialize (Hstep env t0 (world c)).
    rewrite Hm in Hstep. destruct (Hstep Hint) as [Hint' Hevs].
    rewrite fmap_app. apply Forall_app. split.
    + rewrite <- list_fmap_compose. by rewrite list_fmap_id.
    + eapply IH; [done| |done]. simpl. intros t.
      destruct (decide (t = t0)); [apply Hk|apply Hall].
Qed.

Lemma exec_ended sched :
  ∀ c t, pool c t = Ret tt → pool (exec sched c).1 t = Ret tt.
Proof.
  induction sched as [|[t0 env] sched IH]; intros c t Hp; simpl; [done|].
  unfold thread_step.
  destruct (pool c t0) as [a|msg| |X m k] eqn:Hpool; try by apply IH.
  destruct (m env t0 (world c)) as [x w' evs| |] eqn:Hm; try by apply IH.
  specialize (IH (mkConfig (λ t', if decide (t' = t0) then k x else pool c t') w') t).
  destruct (exec sched _) as [c1 tr1]. simpl in *. apply IH.
  destruct (decide (t = t0)) as [->|]; [congruence|done].
Qed.

(** C1, as the code has it: in every interleaving of the steps of threads
    that create and destroy runtimes (and attach, detach, suspend and
    resume), once all threads have ended: each thread ran INIT_GLOBALS
    exactly in the creations whose increment made the count 1 and
    DEINIT_GLOBALS exactly in the destructions whose decrement made the
    count 0, and INIT_THREAD_LOCAL_GLOBALS in every creation that
    incremented the count and DEINIT_THREAD_LOCAL_GLOBALS in every
    destruction ([gate_run]); the count before every atomic add is an int,
    so that the increments that make the count 1 are those from 0 and the
    decrements that make it 0 are those from 1; hence INIT_GLOBALS has run
    as many times as the count went from 0 to 1, which may be more than
    once, and DEINIT_GLOBALS as many times as it went from 1 to 0. *)
Theorem global_phases_follow_the_count (fuel : nat) (clients : Z → Client)
    (sched : list (Z * Env)) (w : World) (c' : Config) (tr : list (Z * Event)) :
  is_int (aliveRuntimesCount w) →
  exec sched (start fuel clients w) = (c', tr) →
  finished c' →
  (∀ t, gate_run Idle (thread_events t tr) = Some Idle) ∧
  Forall atomicAdd_sound tr.*2 ∧
  count (is_phase INIT_GLOBALS) tr.*2 = count is_from_0_to_1 tr.*2 ∧
  count (is_phase DEINIT_GLOBALS) tr.*2 = count is_from_1_to_0 tr.*2 ∧
  count (is_phase INIT_THREAD_LOCAL_GLOBALS) tr.*2 = count is_increment tr.*2 ∧
  count (is_phase DEINIT_THREAD_LOCAL_GLOBALS) tr.*2 = count is_decrement tr.*2.
Proof.
  intros Hint Hexec Hfin.
  assert (Hgate : ∀ t, gate_run Idle (thread_events t tr) = Some Idle).
  { intros t. pose proof (exec_path _ _ _ _ Hexec t) as Hpath.
    rewrite (Hfin t) in Hpath. simpl in Hpath.
    by apply (client_prog_gates fuel (clients t) _ tt). }
  assert (Hsound : Forall atomicAdd_sound tr.*2).
  { eapply exec_count; [done| |done]. intros t. apply client_prog_count. }
  assert (Hcount : ∀ initialize,
            initialize ∈ [INIT_GLOBALS; INIT_THREAD_LOCAL_GLOBALS;
                          DEINIT_THREAD_LOCAL_GLOBALS; DEINIT_GLOBALS] →
            count (is_phase initialize) tr.*2 = count (grants initialize) tr.*2).
  { intros initialize Hi. apply count_by_thread. intros t.
    pose proof (gate_run_count initialize _ _ _ Hi (Hgate t)) as H.
    simpl in H. lia. }
  split; [done|]. split; [done|].
  split; [|split; [|split]].
  - rewrite Hcount by set_solver. apply count_ext.
    eapply Forall_impl; [done|]. intros e He. by apply made_1_from_0_to_1.
  - rewrite Hcount by set_solver. apply count_ext.
    eapply Forall_impl; [done|]. intros e He. by apply made_0_from_1_to_0.
  - by rewrite Hcount by set_solver.
  - by rewrite Hcount by set_solver.
Qed.

Lemma global_phases_follow_the_count_witness :
  let tr := (exec turn_by_turn (start 8 two_clients world_two_initializers)).2 in
  (∀ t, gate_run Idle (thread_events t tr) = Some Idle) ∧
  Forall atomicAdd_sound tr.*2 ∧
  count (is_phase INIT_GLOBALS) tr.*2 = count is_from_0_to_1 tr.*2 ∧
  count (is_phase DEINIT_GLOBALS) tr.*2 = count is_from_1_to_0 tr.*2 ∧
  count (is_phase INIT_THREAD_LOCAL_GLOBALS) tr.*2 = count is_increment tr.*2 ∧
  count (is_phase DEINIT_THREAD_LOCAL_GLOBALS) tr.*2 = count is_decrement tr.*2.
Proof.
  apply (global_phases_follow_the_count 8 two_clients turn_by_turn world_two_initializers
           (exec turn_by_turn (start 8 two_clients world_two_initializers)).1).
  - unfold is_int. simpl. lia.
  - apply surjective_pairing.
  - intros t.
    destruct (decide (t = 7)) as [->|H7]; [vm_compute; reflexivity|].
    destruct (decide (t = 8)) as [->|H8]; [vm_compute; reflexivity|].
    apply exec_ended. simpl. unfold two_clients.
    rewrite decide_False by done. rewrite decide_False by done. reflexivity.
Defined.

(** The run of the two threads: INIT_GLOBALS and DEINIT_GLOBALS have run
    once each, both thread-local phases twice. *)
Example two_threads_phases :
  let tr := (exec turn_by_turn (start 8 two_clients world_two_initializers)).2 in
  count (is_phase INIT_GLOBALS) tr.*2 = 1%nat ∧
  count (is_phase DEINIT_GLOBALS) tr.*2 = 1%nat ∧
  count (is_phase INIT_THREAD_LOCAL_GLOBALS) tr.*2 = 2%nat ∧
  count (is_phase DEINIT_THREAD_LOCAL_GLOBALS) tr.*2 = 2%nat.
Proof. vm_compute. done. Qed.

(** C1 as the claim has it fails: thread 7 creates a runtime, destroys it
    and creates one again, and ends.  The count goes from 0 to 1 twice, and
    INIT_GLOBALS has run twice in the run, not once. *)
Lemma INIT_GLOBALS_runs_twice :
  let r := exec alone (start 8 one_client world_two_initializers) in
  pool r.1 7 = Ret tt ∧
  count is_increment r.2.*2 = 2%nat ∧
  count is_decrement r.2.*2 = 1%nat ∧
  count is_from_0_to_1 r.2.*2 = 2%nat ∧
  count (is_phase INIT_GLOBALS) r.2.*2 = 2%nat ∧
  count (is_phase INIT_GLOBALS) r.2.*2 ≠ 1%nat.
Proof. vm_compute. repeat split; discriminate. Qed.

(** ** The list of live runtimes *)

Lemma same_but_next_refl h : same_but_next h h.
Proof. intros q. by destruct (h !! q). Qed.

Lemma same_but_next_set_next h q st v :
  h !! q = Some st →
  same_but_next h (<[q:=mkRuntimeState (threadId st) (handler st) (memoryState st)
                         (executionStatus st) v]> h).
Proof.
  intros Hq r. destruct (decide (r = q)) as [->|Hne].
  - rewrite lookup_insert_eq, Hq. done.
  - rewrite lookup_insert_ne by done. by destruct (h !! r).
Qed.

Lemma is_registry_insert_other h head l q st :
  q ∉ l → is_registry h head l → is_registry (<[q:=st]> h) head l.
Proof.
  revert head. induction l as [|c l IH]; intros head Hq Hreg; simpl in *; [done|].
  destruct Hreg as (-> & stc & Hc & Hreg).
  apply not_elem_of_cons in Hq as [Hne Hq].
  split; [done|]. exists stc. split; [by rewrite lookup_insert_ne|by apply IH].
Qed.

Lemma is_registry_delete_other h head l q :
  q ∉ l → is_registry h head l → is_registry (delete q h) head l.
Proof.
  revert head. induction l as [|c l IH]; intros head Hq Hreg; simpl in *; [done|].
  destruct Hreg as (-> & stc & Hc & Hreg).
  apply not_elem_of_cons in Hq as [Hne Hq].
  split; [done|]. exists stc. split; [by rewrite lookup_delete_ne|by apply IH].
Qed.

(** A store to a field of a state that is not its link keeps the list. *)
Lemma is_registry_insert_same_next h head l q st st' :
  h !! q = Some st → next st' = next st →
  is_registry h head l → is_registry (<[q:=st']> h) head l.
Proof.
  intros Hq Hnext. revert head. induction l as [|c l IH]; intros head Hreg; simpl in *; [done|].
  destruct Hreg as (-> & stc & Hc & Hreg). split; [done|].
  destruct (decide (c = q)) as [->|Hne].
  - exists st'. rewrite lookup_insert_eq. split; [done|].
    rewrite Hnext. rewrite Hq in Hc. injection Hc as <-. by apply IH.
  - exists stc. rewrite lookup_insert_ne by done. split; [done|by apply IH].
Qed.

Lemma is_registry_live h head l q : is_registry h head l → q ∈ l → is_Some (h !! q).
Proof.
  revert head. induction l as [|c l IH]; intros head Hreg Hq; simpl in *.
  - by apply elem_of_nil in Hq.
  - destruct Hreg as (-> & stc & Hc & Hreg).
    apply elem_of_cons in Hq as [->|Hq]; [eauto|by eapply IH].
Qed.

(** From a head, the list is one sequence: the links are a function. *)
Lemma is_registry_unique h head l1 l2 :
  is_registry h head l1 → is_registry h head l2 → l1 = l2.
Proof.
  revert head l2. induction l1 as [|c l1 IH]; intros head [|c2 l2] H1 H2; simpl in *.
  - done.
  - destruct H2 as [-> _]. done.
  - destruct H1 as [-> _]. done.
  - destruct H1 as (-> & st1 & Hc1 & H1), H2 as ([= <-] & st2 & Hc2 & H2).
    rewrite Hc1 in Hc2. injection Hc2 as <-. f_equal. by eapply IH.
Qed.

Lemma is_registry_suffix h head l1 l2 :
  is_registry h head (l1 ++ l2) → ∃ mid, is_registry h mid l2.
Proof.
  revert head. induction l1 as [|c l1 IH]; intros head Hreg; simpl in *; [eauto|].
  destruct Hreg as (-> & st & Hc & Hreg). by eapply IH.
Qed.

(** A list that ends passes no state twice. *)
Lemma is_registry_NoDup h head l : is_registry h head l → NoDup l.
Proof.
  revert head. induction l as [|c l IH]; intros head Hreg; [constructor|].
  pose proof Hreg as Hall. simpl in Hreg. destruct Hreg as (-> & st & Hc & Hreg).
  apply NoDup_cons. split; [|by eapply IH].
  intros Hin. apply list_elem_of_split in Hin as (l1 & l2 & ->).
  destruct (is_registry_suffix h (next st) l1 (c :: l2) Hreg) as (mid & Hmid).
  pose proof Hmid as Hmid'. simpl in Hmid'. destruct Hmid' as (-> & _).
  pose proof (is_registry_unique _ _ _ _ Hall Hmid) as Heq.
  apply (f_equal length) in Heq. simpl in Heq. rewrite length_app in Heq. simpl in Heq. lia.
Qed.

Lemma filter_other (p : loc) (l : list loc) : p ∉ l → filter (λ q, q ≠ p) l = l.
Proof.
  induction l as [|c l IH]; intros Hp; [done|].
  apply not_elem_of_cons in Hp as [Hne Hp].
  rewrite filter_cons_True by congruence. by rewrite IH.
Qed.

(** The loop that unlinks [p] makes one store, into the link before [p];
    seen from [previous], the list is then the one before without [p]. *)
Lemma deinitRuntime_loop_run n p l current previous env t w st :
  is_registry (instances w) current l →
  NoDup l →
  p ∈ l →
  (length l ≤ n)%nat →
  instances w !! p = Some st →
  link_of previous w = current →
  (∀ q, previous = Some q → q ∉ l) →
  ∃ w',
    w' = unlink (pred_of previous p l) (next st) w ∧
    run (deinitRuntime_loop n (Some p) current previous) env t w
      = (Returned tt, w', [unlink_event (pred_of previous p l) (next st)]) ∧
    is_registry (instances w') (link_of previous w') (filter (λ q, q ≠ p) l) ∧
    same_but_next (instances w) (instances w') ∧
    instances w' !! p = Some st ∧
    (∀ r, r ∉ l → Some r ≠ previous → instances w' !! r = instances w !! r) ∧
    (previous ≠ None → runtimeStateList w' = runtimeStateList w).
Proof.
  revert n current previous w.
  induction l as [|c l IH]; intros n current previous w Hreg Hnd Hin Hn Hp Hlink Hprev.
  { by apply elem_of_nil in Hin. }
  simpl in Hreg. destruct Hreg as (-> & stc & Hc & Hreg).
  apply NoDup_cons in Hnd as [Hc_notin Hnd].
  destruct n as [|n]; [simpl in Hn; lia|].
  cbn [deinitRuntime_loop pred_of]. rewrite filter_cons.
  destruct (decide (c = p)) as [->|Hne].
  - (* the state is here *)
    rewrite decide_True by done. rewrite decide_False by tauto.
    rewrite Hp in Hc. injection Hc as <-.
    rewrite (filter_other p l) by done.
    destruct previous as [q|].
    + assert (Hq : q ≠ p). { intros ->. apply (Hprev p eq_refl). apply list_elem_of_here. }
      simpl in Hlink.
      destruct (instances w !! q) as [stq|] eqn:Hq'; [|done].
      destruct w as [hd tl nodes slots mains count lock lst insts]. simpl in *.
      rewrite Hp. simpl. rewrite Hq'. simpl.
      eexists. split; [done|]. split; [done|]. simpl.
      rewrite lookup_insert_eq. simpl.
      split. { apply is_registry_insert_other; [|done].
               intros Hql. apply (Hprev q eq_refl). by apply list_elem_of_further. }
      split; [by apply same_but_next_set_next|].
      split; [by rewrite lookup_insert_ne|].
      split; [|done].
      intros r Hr Hrq. rewrite lookup_insert_ne; [done|]. congruence.
    + destruct w as [hd tl nodes slots mains count lock lst insts]. simpl in *.
      rewrite Hp. simpl.
      eexists. split; [done|]. split; [done|]. simpl.
      split; [done|]. split; [apply same_but_next_refl|].
      split; [done|]. split; [done|]. done.
  - (* further on *)
    rewrite decide_False by congruence. rewrite decide_True by done.
    apply elem_of_cons in Hin as [->|Hin]; [done|].
    assert (Hrun : run (current' <- load next (Some c);;
                        deinitRuntime_loop n (Some p) current' (Some c)) env t w
                   = run (deinitRuntime_loop n (Some p) (next stc) (Some c)) env t w).
    { simpl. rewrite Hc. simpl. by destruct (run _ env t w) as [[? ?] ?]. }
    rewrite Hrun. clear Hrun.
    destruct (IH n (next stc) (Some c) w)
      as (w' & Hw' & Hrun & Hreg' & Hsame & Hp' & Hframe & Hlist); try done.
    { simpl in Hn. lia. }
    { simpl. by rewrite Hc. }
    { intros q [= <-]. done. }
    exists w'. split; [done|]. split; [done|].
    split.
    { simpl. split.
      - destruct previous as [q|]; simpl in *.
        + rewrite Hframe; [done| |].
          * intros Hq. apply (Hprev q eq_refl). by apply list_elem_of_further.
          * intros [= ->]. apply (Hprev c eq_refl). apply list_elem_of_here.
        + rewrite Hlist; done.
      - simpl in Hreg'.
        destruct (instances w' !! c) as [stc'|] eqn:Hc'.
        + exists stc'. done.
        + pose proof (Hsame c) as Hs. rewrite Hc, Hc' in Hs. done. }
    split; [done|]. split; [done|].
    split.
    { intros r Hr Hrp. apply not_elem_of_cons in Hr as [Hrc Hr].
      apply Hframe; [done|congruence]. }
    intros Hprev'. destruct previous; [|done]. by apply Hlist.
Qed.

(** A destruction of a state of the list, run alone with the lock free:
    what it leaves and what it shows. *)
Lemma deinitRuntime_run fuel env t w p st l chain :
  is_registry (instances w) (runtimeStateList w) l →
  p ∈ l →
  (length l ≤ fuel)%nat →
  instances w !! p = Some st →
  runtimesLock w = 0 →
  is_chain (initNodes w) (initHeadNode w) chain →
  (length chain ≤ fuel)%nat →
  run (deinitRuntime fuel (Some p)) env t w
    = (Returned tt, world_destroyed p st l w, events_destroyed p st l w chain).
Proof.
  intros Hreg Hin Hfuel Hp Hlock Hchain Hfuel'.
  pose proof (is_registry_NoDup _ _ _ Hreg) as Hnd.
  world_destruct w. subst lock.
  unfold deinitRuntime, world_destroyed, events_destroyed. simpl.
  rewrite run_bind, (InitOrDeinitGlobalVariables_run _ _ chain) by done. simpl.
  rewrite run_bind.
  assert (Hphase :
    run (if bool_decide (wrap32 (count + -1) = 0)
         then InitOrDeinitGlobalVariables fuel DEINIT_GLOBALS else Ret tt) env t
        (mkWorld hd tl nodes slots mains (wrap32 (count + -1)) 0 lst insts)
    = (Returned tt, mkWorld hd tl nodes slots mains (wrap32 (count + -1)) 0 lst insts,
       if bool_decide (wrap32 (count + -1) = 0)
       then phase_events DEINIT_GLOBALS chain else [])).
  { destruct (bool_decide _); [|done].
    by rewrite (InitOrDeinitGlobalVariables_run _ _ chain). }
  rewrite Hphase. clear Hphase. simpl. rewrite run_bind.
  destruct (deinitRuntime_loop_run fuel p l lst None env t
              (mkWorld hd tl nodes slots mains (wrap32 (count + -1)) 1 lst insts) st)
    as (w' & Hw' & Hrun & _ & _ & Hp' & _); try done.
  rewrite Hrun. clear Hrun.
  destruct w' as [hd' tl' nodes' slots' mains' count' lock' lst' insts']. simpl in *.
  rewrite Hp'. simpl. rewrite Hp'. simpl.
  do 2 f_equal.
  destruct (pred_of None p l) as [q|]; simpl in *.
  - destruct (insts !! q); simpl in *; by injection Hw' as -> -> -> -> -> -> -> -> ->.
  - by injection Hw' as -> -> -> -> -> -> -> -> ->.
Qed.


Lemma pred_of_ne previous p l q :
  (∀ q, previous = Some q → q ≠ p) → pred_of previous p l = Some q → q ≠ p.
Proof.
  revert previous. induction l as [|c l IH]; intros previous Hprev Hq; simpl in Hq; [done|].
  destruct (decide (c = p)) as [->|Hne]; [by apply Hprev|].
  apply (IH (Some c)); [|done]. by intros ? [= <-].
Qed.

Lemma same_but_next_delete h h' p :
  same_but_next h h' → same_but_next (delete p h) (delete p h').
Proof.
  intros Hsame q. destruct (decide (q = p)) as [->|Hne].
  - by rewrite !lookup_delete_eq.
  - rewrite !lookup_delete_ne by done. apply Hsame.
Qed.

(** The world a destruction leaves does not depend on the status of the
    state that is destroyed. *)
Lemma world_destroyed_status p st l w v :
  instances w !! p = Some st →
  world_destroyed p (with_executionStatus v st) l
    (with_instances (<[p:=with_executionStatus v st]> (instances w)) w)
  = world_destroyed p st l w.
Proof.
  intros Hp. unfold world_destroyed, unlink.
  destruct (pred_of None p l) as [q|] eqn:Hq.
  - assert (q ≠ p) by (by apply (pred_of_ne None p l q)).
    destruct w as [hd tl nodes slots mains count lock lst insts]. simpl in *.
    rewrite lookup_insert_ne by done.
    destruct (insts !! q) as [stq|]; simpl.
    + f_equal. rewrite !(delete_insert_ne _ p q) by done. by rewrite delete_insert_eq.
    + f_equal. by rewrite delete_insert_eq.
  - destruct w as [hd tl nodes slots mains count lock lst insts]. simpl in *.
    f_equal. by rewrite delete_insert_eq.
Qed.

(** The list of the world a destruction leaves: the one before without
    the state, with the other states as they were but for one link. *)
Lemma world_destroyed_registry p st l w :
  is_registry (instances w) (runtimeStateList w) l →
  p ∈ l →
  instances w !! p = Some st →
  is_registry (instances (world_destroyed p st l w))
              (runtimeStateList (world_destroyed p st l w)) (filter (λ q, q ≠ p) l) ∧
  same_but_next (delete p (instances w)) (instances (world_destroyed p st l w)).
Proof.
  intros Hreg Hin Hp.
  destruct (deinitRuntime_loop_run (length l) p l (runtimeStateList w) None
              (mkEnv None 0) 0 w st)
    as (w' & Hw' & _ & Hreg' & Hsame & _); try done.
  { by eapply is_registry_NoDup. }
  unfold world_destroyed. rewrite <- Hw'.
  destruct w' as [hd' tl' nodes' slots' mains' count' lock' lst' insts']. simpl in *.
  split.
  - apply is_registry_delete_other; [|done].
    rewrite list_elem_of_filter. tauto.
  - by apply same_but_next_delete.
Qed.

Opaque deinitRuntime.

(** X1: destroying a suspended runtime of the list, with the lock free and
    fuel for the list and for the chain: the call returns; it has exchanged
    the status, decremented the count, run the deinitializers of the thread
    (and the global ones if the count became 0), taken the state out of the
    list under the lock with one store, called DeinitMemory and freed the
    state. The list is then the one before without the state, in the same
    order, and the other states keep all their fields but the links. *)
Theorem Kotlin_destroyRuntime_unlinks (fuel : nat) (env : Env) (t : Z) (w : World)
    (p : loc) (st : RuntimeState) (l : list loc) (chain : list (loc * fnptr)) :
  is_registry (instances w) (runtimeStateList w) l →
  p ∈ l →
  (length l ≤ fuel)%nat →
  instances w !! p = Some st →
  executionStatus st = SUSPENDED →
  runtimesLock w = 0 →
  is_chain (initNodes w) (initHeadNode w) chain →
  (length chain ≤ fuel)%nat →
  run (Kotlin_destroyRuntime fuel (Some p)) env t w
    = (Returned tt, world_destroyed p st l w,
       EvStatus p SUSPENDED DESTROYING :: events_destroyed p st l w chain) ∧
  is_registry (instances (world_destroyed p st l w))
              (runtimeStateList (world_destroyed p st l w)) (filter (λ q, q ≠ p) l) ∧
  same_but_next (delete p (instances w)) (instances (world_destroyed p st l w)).
Proof.
  intros Hreg Hin Hfuel Hp Hst Hlock Hchain Hfuel'.
  split; [|by apply world_destroyed_registry].
  rewrite <- (world_destroyed_status p st l w DESTROYING Hp).
  unfold Kotlin_destroyRuntime. rewrite run_bind. simpl. rewrite Hp.
  rewrite decide_True by done. simpl.
  rewrite (deinitRuntime_run fuel env t _ p (with_executionStatus DESTROYING st) l chain).
  - by destruct w.
  - destruct w; simpl in *. by apply (is_registry_insert_same_next _ _ _ _ st).
  - done.
  - done.
  - destruct w; simpl. by rewrite lookup_insert_eq.
  - by destruct w.
  - by destruct w.
  - done.
Qed.

Transparent deinitRuntime.

Lemma Kotlin_destroyRuntime_unlinks_witness :
  let st := mkRuntimeState 8 None 200 SUSPENDED (Some 1%positive) in
  let l := [3%positive; 2%positive; 1%positive] in
  run (Kotlin_destroyRuntime 3 (Some 2%positive)) (mkEnv None 0) 7 world_three_runtimes
    = (Returned tt, world_destroyed 2%positive st l world_three_runtimes,
       EvStatus 2%positive SUSPENDED DESTROYING
       :: events_destroyed 2%positive st l world_three_runtimes []) ∧
  is_registry (instances (world_destroyed 2%positive st l world_three_runtimes))
              (runtimeStateList (world_destroyed 2%positive st l world_three_runtimes))
              (filter (λ q, q ≠ 2%positive) l) ∧
  same_but_next (delete 2%positive (instances world_three_runtimes))
                (instances (world_destroyed 2%positive st l world_three_runtimes)).
Proof.
  apply (Kotlin_destroyRuntime_unlinks 3 (mkEnv None 0) 7 world_three_runtimes 2%positive
           (mkRuntimeState 8 None 200 SUSPENDED (Some 1%positive))
           [3%positive; 2%positive; 1%positive] []).
  - simpl. split; [reflexivity|]. eexists. split; [reflexivity|]. simpl.
    split; [reflexivity|]. eexists. split; [reflexivity|]. simpl.
    split; [reflexivity|]. eexists. split; reflexivity.
  - apply list_elem_of_further, list_elem_of_here.
  - simpl. lia.
  - reflexivity.
  - reflexivity.
  - reflexivity.
  - reflexivity.
  - simpl. lia.
Defined.

(** In that run the store that unlinks runtime 2 goes into the link of
    runtime 3, and the list is 3 then 1. *)
Example destroy_the_middle_one :
  let r := run (Kotlin_destroyRuntime 3 (Some 2%positive)) (mkEnv None 0) 7
               world_three_runtimes in
  r.1.1 = Returned tt ∧
  r.2 = [EvStatus 2%positive SUSPENDED DESTROYING;
         EvAtomicAdd (-1) 3 2;
         EvInitOrDeinitGlobalVariables DEINIT_THREAD_LOCAL_GLOBALS;
         EvSpinLock;
         EvSetNext 3%positive (Some 1%positive);
         EvSpinUnlock;
         EvDeinitMemory 200;
         EvKonanDestructInstance 2%positive] ∧
  is_registry (instances r.1.2) (runtimeStateList r.1.2) [3%positive; 1%positive].
Proof.
  vm_compute. split; [done|]. split; [done|].
  split; [done|]. eexists. split; [reflexivity|].
  split; [done|]. eexists. split; reflexivity.
Qed.

(** A creation whose allocation succeeds, run alone with the lock free:
    what it leaves and what it shows. *)
Lemma initRuntime_run fuel env t w p chain :
  env_alloc env = Some p →
  instances w !! p = None →
  runtimesLock w = 0 →
  is_chain (initNodes w) (initHeadNode w) chain →
  (length chain ≤ fuel)%nat →
  run (initRuntime fuel) env t w
    = (Returned (Some p), world_created p t (env_memory env) w,
       events_created p t (env_memory env) w chain).
Proof.
  intros Halloc Hfresh Hlock Hchain Hfuel.
  world_destruct w. subst lock.
  unfold initRuntime, world_created, events_created. simpl. rewrite Halloc, Hfresh.
  do 4 run_step.
  destruct (bool_decide (wrap32 (count + 1) = 1)); simpl.
  - rewrite run_bind, (InitOrDeinitGlobalVariables_run _ _ chain) by done.
    simpl.
    rewrite run_bind, (InitOrDeinitGlobalVariables_run _ _ chain) by done.
    simpl. by rewrite !app_nil_r.
  - rewrite run_bind, (InitOrDeinitGlobalVariables_run _ _ chain) by done.
    simpl. by rewrite !app_nil_r.
Qed.

(** X2: a creation puts the new state at the head of the list of runtimes:
    when the list before is a sequence that ends, the list after is the new
    state and then that sequence, and the states that were there are as they
    were. *)
Theorem Kotlin_createRuntime_registers (fuel : nat) (env : Env) (t : Z) (w : World)
    (p : loc) (l : list loc) (chain : list (loc * fnptr)) :
  env_alloc env = Some p →
  instances w !! p = None →
  runtimesLock w = 0 →
  is_chain (initNodes w) (initHeadNode w) chain →
  (length chain ≤ fuel)%nat →
  is_registry (instances w) (runtimeStateList w) l →
  ∃ w' evs,
    run (Kotlin_createRuntime fuel) env t w = (Returned (Some p), w', evs) ∧
    is_registry (instances w') (runtimeStateList w') (p :: l) ∧
    NoDup (p :: l) ∧
    ∀ q, q ≠ p → instances w' !! q = instances w !! q.
Proof.
  intros Halloc Hfresh Hlock Hchain Hfuel Hreg.
  exists (world_created p t (env_memory env) w), (events_created p t (env_memory env) w chain).
  split; [by apply initRuntime_run|].
  assert (Hp : p ∉ l).
  { intros Hin. destruct (is_registry_live _ _ _ _ Hreg Hin) as [? ?]. congruence. }
  split; [|split].
  - simpl. split; [done|]. eexists. rewrite lookup_insert_eq. split; [done|].
    simpl. by apply is_registry_insert_other.
  - apply NoDup_cons. split; [done|by eapply is_registry_NoDup].
  - intros q Hq. simpl. by rewrite lookup_insert_ne.
Qed.

Lemma Kotlin_createRuntime_registers_witness :
  ∃ w' evs,
    run (Kotlin_createRuntime 3) (mkEnv (Some 4%positive) 400) 6 world_three_runtimes
      = (Returned (Some 4%positive), w', evs) ∧
    is_registry (instances w') (runtimeStateList w')
                [4%positive; 3%positive; 2%positive; 1%positive] ∧
    NoDup [4%positive; 3%positive; 2%positive; 1%positive] ∧
    ∀ q, q ≠ 4%positive → instances w' !! q = instances world_three_runtimes !! q.
Proof.
  apply (Kotlin_createRuntime_registers 3 (mkEnv (Some 4%positive) 400) 6
           world_three_runtimes 4%positive [3%positive; 2%positive; 1%positive] []).
  - reflexivity.
  - reflexivity.
  - reflexivity.
  - reflexivity.
  - simpl. lia.
  - simpl. split; [reflexivity|]. eexists. split; [reflexivity|]. simpl.
    split; [reflexivity|]. eexists. split; [reflexivity|]. simpl.
    split; [reflexivity|]. eexists. split; reflexivity.
Defined.

Transparent wrap32.

Lemma wrap32_add z what : wrap32 (wrap32 z + what) = wrap32 (z + what).
Proof.
  unfold wrap32.
  replace ((z + 2 ^ 31) `mod` 2 ^ 32 - 2 ^ 31 + what + 2 ^ 31)
    with ((z + 2 ^ 31) `mod` 2 ^ 32 + what) by lia.
  rewrite Zplus_mod_idemp_l. f_equal. f_equal. lia.
Qed.

Lemma wrap32_id z : is_int z → wrap32 z = z.
Proof. wrap32_lia z. Qed.

Opaque wrap32.

Lemma wrap32_increment_decrement z : is_int z → wrap32 (wrap32 (z + 1) + -1) = z.
Proof.
  intros Hz. rewrite wrap32_add. replace (z + 1 + -1) with z by lia. by apply wrap32_id.
Qed.

(** X3: creating a runtime and destroying it at once, on whatever threads,
    gives back the world before the creation: the list of runtimes, the heap
    of states, the count and the lock are as they were. One mark stays: the
    thread that created is the main thread if its creation made the count 1. *)
Theorem create_destroy_round_trip (fuel : nat) (env env' : Env) (t t' : Z) (w : World)
    (p : loc) (chain : list (loc * fnptr)) :
  env_alloc env = Some p →
  instances w !! p = None →
  runtimesLock w = 0 →
  is_int (aliveRuntimesCount w) →
  is_chain (initNodes w) (initHeadNode w) chain →
  (length chain ≤ fuel)%nat →
  (0 < fuel)%nat →
  ∃ evs,
    and_then (run (Kotlin_createRuntime fuel) env t w)
             (λ state w', run (Kotlin_destroyRuntime fuel state) env' t' w')
    = (Returned tt,
       with_isMainThread
         (if bool_decide (aliveRuntimesCount w = 0)
          then <[t:=1]> (isMainThread w) else isMainThread w) w,
       evs).
Proof.
  intros Halloc Hfresh Hlock Hint Hchain Hfuel Hfuel'.
  unfold Kotlin_createRuntime.
  rewrite (initRuntime_run fuel env t w p chain) by done.
  destruct fuel as [|fuel]; [lia|].
  world_destruct w. subst lock.
  unfold world_created, Kotlin_destroyRuntime, deinitRuntime. simpl.
  rewrite lookup_insert_eq. simpl.
  rewrite run_bind, (InitOrDeinitGlobalVariables_run _ _ chain) by done. simpl.
  rewrite wrap32_increment_decrement by done.
  rewrite (bool_decide_ext _ _ (wrap32_increment_1 count Hint)).
  rewrite insert_insert_eq, run_bind.
  destruct (bool_decide (count = 0)).
  - rewrite (InitOrDeinitGlobalVariables_run _ _ chain) by done. simpl.
    rewrite decide_True by done. simpl. rewrite lookup_insert_eq. simpl.
    rewrite lookup_insert_eq. simpl. rewrite lookup_insert_eq. simpl.
    rewrite delete_insert_id by done. eexists. reflexivity.
  - simpl.
    rewrite decide_True by done. simpl. rewrite lookup_insert_eq. simpl.
    rewrite lookup_insert_eq. simpl. rewrite lookup_insert_eq. simpl.
    rewrite delete_insert_id by done. eexists. reflexivity.
Qed.

Lemma create_destroy_round_trip_witness :
  ∃ evs,
    and_then (run (Kotlin_createRuntime 3) (mkEnv (Some 4%positive) 400) 6 world_three_runtimes)
             (λ state w', run (Kotlin_destroyRuntime 3 state) (mkEnv None 0) 7 w')
    = (Returned tt,
       with_isMainThread
         (if bool_decide (aliveRuntimesCount world_three_runtimes = 0)
          then <[6:=1]> (isMainThread world_three_runtimes)
          else isMainThread world_three_runtimes) world_three_runtimes,
       evs).
Proof.
  apply (create_destroy_round_trip 3 (mkEnv (Some 4%positive) 400) (mkEnv None 0) 6 7
           world_three_runtimes 4%positive []).
  - reflexivity.
  - reflexivity.
  - reflexivity.
  - unfold is_int. simpl. lia.
  - reflexivity.
  - simpl. lia.
  - lia.
Defined.

(** ** Iterating over the runtimes *)

Lemma Kotlin_iterateRuntimes_loop_run n operation current l env t w :
  is_registry (instances w) current l →
  (length (visited operation l) ≤ n)%nat →
  run (Kotlin_iterateRuntimes_loop n operation current) env t w
    = (Returned tt, w, map EvOperation (visited operation l)).
Proof.
  revert n current. induction l as [|p l IH]; intros n current Hreg Hn; simpl in Hreg.
  - subst current. by destruct n.
  - destruct Hreg as (-> & st & Hp & Hreg).
    destruct n as [|n]; [simpl in Hn; lia|].
    cbn [Kotlin_iterateRuntimes_loop visited]. simpl.
    destruct (operation p) eqn:Hop; [done|].
    simpl. rewrite Hp. simpl.
    rewrite (IH n (next st)); [done|done|].
    simpl in Hn. rewrite Hop in Hn. lia.
Qed.

(** X4: iterating without the lock is fatal: unless the lock word is 1 the
    call terminates the process, before any state is given to the operation. *)
Theorem Kotlin_iterateRuntimes_needs_lock (fuel : nat) (operation : loc → bool)
    (env : Env) (t : Z) (w : World) :
  runtimesLock w ≠ 1 →
  run (Kotlin_iterateRuntimes fuel operation) env t w
    = (Aborted "Lock must be taken", w, []).
Proof.
  intros Hlock. unfold Kotlin_iterateRuntimes. simpl.
  by rewrite bool_decide_eq_false_2.
Qed.

Lemma Kotlin_iterateRuntimes_needs_lock_witness :
  run (Kotlin_iterateRuntimes 3 (λ _, false)) (mkEnv None 0) 7 world_three_runtimes
    = (Aborted "Lock must be taken", world_three_runtimes, []).
Proof.
  apply (Kotlin_iterateRuntimes_needs_lock 3 (λ _, false) (mkEnv None 0) 7
           world_three_runtimes).
  simpl. lia.
Defined.

Lemma Kotlin_iterateRuntimes_run fuel operation env t w l :
  runtimesLock w = 1 →
  is_registry (instances w) (runtimeStateList w) l →
  (length (visited operation l) ≤ fuel)%nat →
  run (Kotlin_iterateRuntimes fuel operation) env t w
    = (Returned tt, w, map EvOperation (visited operation l)).
Proof.
  intros Hlock Hreg Hfuel. unfold Kotlin_iterateRuntimes. simpl.
  rewrite bool_decide_eq_true_2 by done. simpl.
  by rewrite (Kotlin_iterateRuntimes_loop_run _ _ _ l).
Qed.

(** X5: iterating under the lock gives the states of the list to the operation
    in the order of the list, from its head, and stops after the first state
    for which the operation answers true; it changes nothing. The fuel only
    has to cover the states that are visited. *)
Theorem Kotlin_iterateRuntimes_visits (fuel : nat) (operation : loc → bool)
    (env : Env) (t : Z) (w : World) (l : list loc) :
  runtimesLock w = 1 →
  is_registry (instances w) (runtimeStateList w) l →
  (length (visited operation l) ≤ fuel)%nat →
  run (Kotlin_iterateRuntimes fuel operation) env t w
    = (Returned tt, w, map EvOperation (visited operation l)) ∧
  (∀ p, p ∈ visited operation l → operation p = true → last (visited operation l) = Some p).
Proof.
  intros Hlock Hreg Hfuel. split; [by apply Kotlin_iterateRuntimes_run|].
  clear. induction l as [|c l IH]; intros p Hin Hop; simpl in *.
  - by apply elem_of_nil in Hin.
  - destruct (operation c) eqn:Hc.
    + apply elem_of_cons in Hin as [->|Hin]; [done|]. by apply elem_of_nil in Hin.
    + apply elem_of_cons in Hin as [->|Hin]; [congruence|].
      specialize (IH p Hin Hop). destruct (visited operation l); [done|]. done.
Qed.

Lemma Kotlin_iterateRuntimes_visits_witness :
  run (Kotlin_iterateRuntimes 2 (λ p, bool_decide (p = 2%positive))) (mkEnv None 0) 7
      (with_runtimesLock 1 world_three_runtimes)
    = (Returned tt, with_runtimesLock 1 world_three_runtimes,
       map EvOperation
         (visited (λ p, bool_decide (p = 2%positive)) [3%positive; 2%positive; 1%positive])) ∧
  (∀ p, p ∈ visited (λ p, bool_decide (p = 2%positive)) [3%positive; 2%positive; 1%positive] →
        bool_decide (p = 2%positive) = true →
        last (visited (λ p, bool_decide (p = 2%positive)) [3%positive; 2%positive; 1%positive])
        = Some p).
Proof.
  apply (Kotlin_iterateRuntimes_visits 2 (λ p, bool_decide (p = 2%positive)) (mkEnv None 0) 7
           (with_runtimesLock 1 world_three_runtimes) [3%positive; 2%positive; 1%positive]).
  - reflexivity.
  - simpl. split; [reflexivity|]. eexists. split; [reflexivity|]. simpl.
    split; [reflexivity|]. eexists. split; [reflexivity|]. simpl.
    split; [reflexivity|]. eexists. split; reflexivity.
  - simpl. lia.
Defined.

(** X6: taking the lock, iterating and releasing the lock, from a free lock:
    the three calls return and leave the world as it was. *)
Theorem locked_iteration_restores (fuel : nat) (operation : loc → bool)
    (env : Env) (t : Z) (w : World) (l : list loc) :
  runtimesLock w = 0 →
  is_registry (instances w) (runtimeStateList w) l →
  (length (visited operation l) ≤ fuel)%nat →
  run (Kotlin_lockRuntimes;; Kotlin_iterateRuntimes fuel operation;; Kotlin_unlockRuntimes)
      env t w
    = (Returned tt, w,
       [EvSpinLock] ++ map EvOperation (visited operation l) ++ [EvSpinUnlock]).
Proof.
  intros Hlock Hreg Hfuel.
  rewrite run_bind.
  assert (Hl : run Kotlin_lockRuntimes env t w
               = (Returned tt, with_runtimesLock 1 w, [EvSpinLock])).
  { simpl. by rewrite decide_True. }
  rewrite Hl. cbn [and_then]. rewrite run_bind.
  rewrite (Kotlin_iterateRuntimes_run fuel operation env t _ l).
  - destruct w. simpl in *. by subst.
  - by destruct w.
  - by destruct w.
  - done.
Qed.

Lemma locked_iteration_restores_witness :
  run (Kotlin_lockRuntimes;; Kotlin_iterateRuntimes 3 (λ _, false);; Kotlin_unlockRuntimes)
      (mkEnv None 0) 7 world_three_runtimes
    = (Returned tt, world_three_runtimes,
       [EvSpinLock]
       ++ map EvOperation (visited (λ _, false) [3%positive; 2%positive; 1%positive])
       ++ [EvSpinUnlock]).
Proof.
  apply (locked_iteration_restores 3 (λ _, false) (mkEnv None 0) 7 world_three_runtimes
           [3%positive; 2%positive; 1%positive]).
  - reflexivity.
  - simpl. split; [reflexivity|]. eexists. split; [reflexivity|]. simpl.
    split; [reflexivity|]. eexists. split; [reflexivity|]. simpl.
    split; [reflexivity|]. eexists. split; reflexivity.
  - simpl. lia.
Defined.

(** ** Attaching and detaching *)

Opaque initRuntime deinitRuntime.

(** X7: a thread with an empty slot that attaches: the runtime is created as
    by [Kotlin_createRuntime], then bound to the slot of the thread, then made
    RUNNING, and last the detachment is registered for the exit of the thread. *)
Theorem Kotlin_initRuntimeIfNeeded_attaches (fuel : nat) (env : Env) (t : Z) (w : World)
    (p : loc) (chain : list (loc * fnptr)) :
  runtimeState w !! t = None →
  env_alloc env = Some p →
  instances w !! p = None →
  runtimesLock w = 0 →
  is_chain (initNodes w) (initHeadNode w) chain →
  (length chain ≤ fuel)%nat →
  run (Kotlin_initRuntimeIfNeeded fuel) env t w
    = (Returned tt, world_initialized p t (env_memory env) w,
       events_created p t (env_memory env) w chain
       ++ [EvSetRuntimeState (Some p); EvStatus p SUSPENDED RUNNING; EvOnThreadExit]).
Proof.
  intros Hslot Halloc Hfresh Hlock Hchain Hfuel.
  unfold Kotlin_initRuntimeIfNeeded. simpl. rewrite Hslot.
  rewrite run_bind, (initRuntime_run fuel env t w p chain) by done.
  unfold world_initialized, world_created. simpl.
  rewrite lookup_insert_eq. simpl. rewrite lookup_insert_eq. simpl.
  by rewrite insert_insert_eq.
Qed.

Lemma Kotlin_initRuntimeIfNeeded_attaches_witness :
  run (Kotlin_initRuntimeIfNeeded 8) (mkEnv (Some 1%positive) 100) 7 world_two_initializers
    = (Returned tt, world_initialized 1%positive 7 100 world_two_initializers,
       events_created 1%positive 7 100 world_two_initializers
         [(10%positive, 20%positive); (11%positive, 21%positive)]
       ++ [EvSetRuntimeState (Some 1%positive); EvStatus 1%positive SUSPENDED RUNNING;
           EvOnThreadExit]).
Proof.
  apply (Kotlin_initRuntimeIfNeeded_attaches 8 (mkEnv (Some 1%positive) 100) 7
           world_two_initializers 1%positive
           [(10%positive, 20%positive); (11%positive, 21%positive)]).
  - reflexivity.
  - reflexivity.
  - reflexivity.
  - reflexivity.
  - simpl. split; [reflexivity|]. exists (Some 11%positive).
    split; [reflexivity|]. split; [reflexivity|]. exists None.
    split; reflexivity.
  - simpl. lia.
Defined.

Transparent initRuntime.

(** X8: a thread that attaches when the allocation fails: the null result goes
    into the slot, and the exchange of the status goes through the null
    pointer. The call crashes there; the check that comes after the exchange
    is not what ends it, and nothing has been counted or inserted. *)
Theorem Kotlin_initRuntimeIfNeeded_allocation_failure (fuel : nat) (env : Env)
    (t : Z) (w : World) :
  runtimeState w !! t = None →
  env_alloc env = None →
  run (Kotlin_initRuntimeIfNeeded fuel) env t w
    = (Crashed, w,
       [EvSetKonanTerminateHandler; EvKonanConstructInstance None; EvSetRuntimeState None]).
Proof.
  intros Hslot Halloc. world_destruct w.
  unfold Kotlin_initRuntimeIfNeeded, initRuntime. simpl. rewrite Hslot. simpl.
  rewrite Halloc. simpl. rewrite lookup_delete_eq. simpl.
  by rewrite delete_id.
Qed.

Opaque initRuntime.

Lemma Kotlin_initRuntimeIfNeeded_allocation_failure_witness :
  run (Kotlin_initRuntimeIfNeeded 8) (mkEnv None 100) 7 world_two_initializers
    = (Crashed, world_two_initializers,
       [EvSetKonanTerminateHandler; EvKonanConstructInstance None; EvSetRuntimeState None]).
Proof.
  apply (Kotlin_initRuntimeIfNeeded_allocation_failure 8 (mkEnv None 100) 7
           world_two_initializers).
  - reflexivity.
  - reflexivity.
Defined.

Lemma world_destroyed_runtimeState p st l w :
  runtimeState (world_destroyed p st l w) = runtimeState w.
Proof.
  unfold world_destroyed, unlink.
  destruct (pred_of None p l) as [q|]; [destruct (instances w !! q)|]; by destruct w.
Qed.

(** X9: a thread that detaches its RUNNING runtime, with the lock free: the
    status is exchanged for DESTROYING, the runtime is destroyed as by
    [Kotlin_destroyRuntime] (unlinked from the list and freed), and the slot
    of the thread is emptied last. *)
Theorem Kotlin_deinitRuntimeIfNeeded_detaches (fuel : nat) (env : Env) (t : Z) (w : World)
    (p : loc) (st : RuntimeState) (l : list loc) (chain : list (loc * fnptr)) :
  runtimeState w !! t = Some p →
  instances w !! p = Some st →
  executionStatus st = RUNNING →
  is_registry (instances w) (runtimeStateList w) l →
  p ∈ l →
  (length l ≤ fuel)%nat →
  runtimesLock w = 0 →
  is_chain (initNodes w) (initHeadNode w) chain →
  (length chain ≤ fuel)%nat →
  run (Kotlin_deinitRuntimeIfNeeded fuel) env t w
    = (Returned tt,
       with_runtimeState (delete t (runtimeState w)) (world_destroyed p st l w),
       EvStatus p RUNNING DESTROYING :: events_destroyed p st l w chain
       ++ [EvSetRuntimeState None]).
Proof.
  intros Hslot Hp Hst Hreg Hin Hfuel Hlock Hchain Hfuel'.
  rewrite <- (world_destroyed_status p st l w DESTROYING Hp).
  unfold Kotlin_deinitRuntimeIfNeeded. simpl. rewrite Hslot. simpl.
  rewrite Hslot. simpl. rewrite Hp. rewrite decide_True by done. simpl.
  assert (Hslot' : runtimeState
            (with_instances (<[p:=with_executionStatus DESTROYING st]> (instances w)) w) !! t
          = Some p) by (by destruct w).
  rewrite Hslot'. rewrite run_bind.
  rewrite (deinitRuntime_run fuel env t _ p (with_executionStatus DESTROYING st) l chain).
  - set (w' := world_destroyed _ _ _ _).
    assert (Hslots : runtimeState w' = runtimeState w).
    { unfold w'. rewrite world_destroyed_runtimeState. by destruct w. }
    simpl. rewrite Hslots. unfold events_destroyed. by destruct w.
  - destruct w; simpl in *. by apply (is_registry_insert_same_next _ _ _ _ st).
  - done.
  - done.
  - destruct w; simpl. by rewrite lookup_insert_eq.
  - by destruct w.
  - by destruct w.
  - done.
Qed.

Lemma Kotlin_deinitRuntimeIfNeeded_detaches_witness :
  let st := mkRuntimeState 7 (Some 5%positive) 100 RUNNING None in
  run (Kotlin_deinitRuntimeIfNeeded 1) (mkEnv None 0) 7 world_attached
    = (Returned tt,
       with_runtimeState (delete 7 (runtimeState world_attached))
         (world_destroyed 1%positive st [1%positive] world_attached),
       EvStatus 1%positive RUNNING DESTROYING
       :: events_destroyed 1%positive st [1%positive] world_attached []
       ++ [EvSetRuntimeState None]).
Proof.
  apply (Kotlin_deinitRuntimeIfNeeded_detaches 1 (mkEnv None 0) 7 world_attached 1%positive
           (mkRuntimeState 7 (Some 5%positive) 100 RUNNING None) [1%positive] []).
  - reflexivity.
  - reflexivity.
  - reflexivity.
  - simpl. split; [reflexivity|]. eexists. split; reflexivity.
  - apply list_elem_of_here.
  - simpl. lia.
  - reflexivity.
  - reflexivity.
  - simpl. lia.
Defined.

(** X10: a thread with an empty slot that detaches: nothing happens. *)
Theorem Kotlin_deinitRuntimeIfNeeded_detached_noop (fuel : nat) (env : Env)
    (t : Z) (w : World) :
  runtimeState w !! t = None →
  run (Kotlin_deinitRuntimeIfNeeded fuel) env t w = (Returned tt, w, []).
Proof.
  intros Hslot. unfold Kotlin_deinitRuntimeIfNeeded. simpl. by rewrite Hslot.
Qed.

Lemma Kotlin_deinitRuntimeIfNeeded_detached_noop_witness :
  run (Kotlin_deinitRuntimeIfNeeded 8) (mkEnv None 0) 7 world_one_runtime
    = (Returned tt, world_one_runtime, []).
Proof.
  apply (Kotlin_deinitRuntimeIfNeeded_detached_noop 8 (mkEnv None 0) 7 world_one_runtime).
  reflexivity.
Defined.

Transparent deinitRuntime.

(** X11: attaching and detaching at once, on a thread with an empty slot,
    gives back the world before: the slot of the thread, the list of runtimes,
    the heap of states, the count and the lock are as they were. One mark
    stays: the thread is the main thread if its attachment made the count 1. *)
Theorem attach_detach_round_trip (fuel : nat) (env : Env) (t : Z) (w : World)
    (p : loc) (chain : list (loc * fnptr)) :
  runtimeState w !! t = None →
  env_alloc env = Some p →
  instances w !! p = None →
  runtimesLock w = 0 →
  is_int (aliveRuntimesCount w) →
  is_chain (initNodes w) (initHeadNode w) chain →
  (length chain ≤ fuel)%nat →
  (0 < fuel)%nat →
  ∃ evs,
    run (Kotlin_initRuntimeIfNeeded fuel;; Kotlin_deinitRuntimeIfNeeded fuel) env t w
    = (Returned tt,
       with_isMainThread
         (if bool_decide (aliveRuntimesCount w = 0)
          then <[t:=1]> (isMainThread w) else isMainThread w) w,
       evs).
Proof.
  intros Hslot Halloc Hfresh Hlock Hint Hchain Hfuel Hfuel'.
  destruct fuel as [|fuel]; [lia|].
  rewrite run_bind.
  unfold Kotlin_initRuntimeIfNeeded. simpl. rewrite Hslot.
  rewrite run_bind, (initRuntime_run (S fuel) env t w p chain) by done.
  world_destruct w. subst lock.
  unfold world_created. simpl.
  rewrite lookup_insert_eq. simpl. rewrite lookup_insert_eq. simpl.
  rewrite lookup_insert_eq. simpl. rewrite lookup_insert_eq. simpl.
  rewrite lookup_insert_eq. simpl.
  rewrite wrap32_increment_decrement by done.
  rewrite (bool_decide_ext _ _ (wrap32_increment_1 count Hint)).
  rewrite !insert_insert_eq, !run_bind.
  rewrite (InitOrDeinitGlobalVariables_run _ _ chain) by done. simpl.
  rewrite run_bind.
  destruct (bool_decide (count = 0)).
  - rewrite (InitOrDeinitGlobalVariables_run _ _ chain) by done. simpl.
    rewrite !lookup_insert_eq. rewrite decide_True by done. simpl.
    rewrite lookup_insert_eq. simpl.
    rewrite lookup_insert_eq. simpl. rewrite lookup_insert_eq. simpl.
    rewrite delete_insert_id by done. rewrite delete_insert_id by done.
    eexists. reflexivity.
  - simpl.
    rewrite !lookup_insert_eq. rewrite decide_True by done. simpl.
    rewrite lookup_insert_eq. simpl.
    rewrite lookup_insert_eq. simpl. rewrite lookup_insert_eq. simpl.
    rewrite delete_insert_id by done. rewrite delete_insert_id by done.
    eexists. reflexivity.
Qed.

Lemma attach_detach_round_trip_witness :
  ∃ evs,
    run (Kotlin_initRuntimeIfNeeded 8;; Kotlin_deinitRuntimeIfNeeded 8)
        (mkEnv (Some 1%positive) 100) 7 world_two_initializers
    = (Returned tt,
       with_isMainThread
         (if bool_decide (aliveRuntimesCount world_two_initializers = 0)
          then <[7:=1]> (isMainThread world_two_initializers)
          else isMainThread world_two_initializers) world_two_initializers,
       evs).
Proof.
  apply (attach_detach_round_trip 8 (mkEnv (Some 1%positive) 100) 7
           world_two_initializers 1%positive
           [(10%positive, 20%positive); (11%positive, 21%positive)]).
  - reflexivity.
  - reflexivity.
  - reflexivity.
  - reflexivity.
  - unfold is_int. simpl. lia.
  - simpl. split; [reflexivity|]. exists (Some 11%positive).
    split; [reflexivity|]. split; [reflexivity|]. exists None.
    split; reflexivity.
  - simpl. lia.
  - lia.
Defined.

Transparent initRuntime.

(** ** The checks that end an operation *)

Lemma no_fatal_bind {A B : Type} (p : Prog A) (f : A → Prog B) :
  no_fatal p → (∀ a, no_fatal (f a)) → no_fatal (bind p f).
Proof.
  intros Hp Hf. induction p as [a|msg| |X m k IH]; simpl in *; auto.
Qed.

Lemma no_fatal_run {A : Type} (p : Prog A) env t w msg :
  no_fatal p → (run p env t w).1.1 ≠ Aborted msg.
Proof.
  revert w. induction p as [a|msg'| |X m k IH]; intros w Hp; simpl in *; try done.
  destruct (m env t w) as [x w' evs| |]; try done.
  specialize (IH x w' (Hp x)).
  by destruct (run (k x) env t w') as [[o w2] e2].
Qed.

Ltac head_of p :=
  match p with
  | ?f _ => head_of f
  | _ => p
  end.

Ltac no_fatal_steps known :=
  repeat first
    [ known
    | exact I
    | apply no_fatal_bind; [|intros ?]
    | match goal with
      | |- no_fatal (match ?x with _ => _ end) => destruct x
      | |- no_fatal (Atom _ _) => intros ?
      | |- no_fatal ?p => let h := head_of p in unfold h; simpl; by intros
      end ].

Lemma InitOrDeinitGlobalVariables_loop_no_fatal n initialize currNode :
  no_fatal (InitOrDeinitGlobalVariables_loop n initialize currNode).
Proof.
  revert currNode. induction n as [|n IH]; intros [p|]; cbn [InitOrDeinitGlobalVariables_loop];
    try done.
  unfold load_node, call. no_fatal_steps ltac:(apply IH).
Qed.

Transparent InitOrDeinitGlobalVariables.

Lemma InitOrDeinitGlobalVariables_no_fatal fuel initialize :
  no_fatal (InitOrDeinitGlobalVariables fuel initialize).
Proof.
  unfold InitOrDeinitGlobalVariables, call, get_initHeadNode.
  no_fatal_steps ltac:(apply InitOrDeinitGlobalVariables_loop_no_fatal).
Qed.

Opaque InitOrDeinitGlobalVariables.

Lemma initRuntime_no_fatal fuel : no_fatal (initRuntime fuel).
Proof.
  unfold initRuntime.
  no_fatal_steps ltac:(apply InitOrDeinitGlobalVariables_no_fatal).
Qed.

Lemma deinitRuntime_loop_no_fatal n state current previous :
  no_fatal (deinitRuntime_loop n state current previous).
Proof.
  revert current previous. induction n as [|n IH]; intros [p|] previous;
    cbn [deinitRuntime_loop]; try done.
  no_fatal_steps ltac:(apply IH).
Qed.

Lemma deinitRuntime_no_fatal fuel state : no_fatal (deinitRuntime fuel state).
Proof.
  unfold deinitRuntime.
  no_fatal_steps
    ltac:(first [apply InitOrDeinitGlobalVariables_no_fatal|apply deinitRuntime_loop_no_fatal]).
Qed.

Lemma threadInterruptHandler_loop_no_fatal n tid current :
  no_fatal (threadInterruptHandler_loop n tid current).
Proof.
  revert current. induction n as [|n IH]; intros [p|]; cbn [threadInterruptHandler_loop];
    try done.
  no_fatal_steps ltac:(apply IH).
Qed.

Lemma threadInterruptHandler_no_fatal fuel ignore :
  no_fatal (threadInterruptHandler fuel ignore).
Proof.
  unfold threadInterruptHandler.
  no_fatal_steps ltac:(apply threadInterruptHandler_loop_no_fatal).
Qed.

Lemma after_outcome {A : Type} evs (r : Outcome A * World * list Event) :
  (after evs r).1.1 = r.1.1.
Proof. by destruct r as [[o w] e]. Qed.

Lemma refused_as_aborted {A : Type} msg w :
  refused_as (A:=A) (Aborted msg, w, []) w (Some msg).
Proof. split; [|done]. intros msg'. simpl. split; congruence. Qed.

Lemma refused_as_not_aborted {A : Type} (r : Outcome A * World * list Event) w :
  (∀ msg, r.1.1 ≠ Aborted msg) → refused_as r w None.
Proof.
  intros Hr. split.
  - intros msg. split; [by intros ?%Hr|done].
  - by intros [? ?].
Qed.

Lemma refused_as_no_fatal {A : Type} (p : Prog A) env t w w0 evs :
  no_fatal p → refused_as (after evs (run p env t w)) w0 None.
Proof.
  intros Hp. apply refused_as_not_aborted. intros msg.
  rewrite after_outcome. by apply no_fatal_run.
Qed.

(** The state a creation returns is there and SUSPENDED. *)
Lemma initRuntime_Returned fuel env t w p w' evs :
  run (initRuntime fuel) env t w = (Returned (Some p), w', evs) →
  ∃ st, instances w' !! p = Some st ∧ executionStatus st = SUSPENDED.
Proof.
  world_destruct w.
  unfold initRuntime. simpl.
  destruct (env_alloc env) as [q|]; [|discriminate].
  destruct (insts !! q) eqn:Hq; [discriminate|].
  do 4 run_step.
  destruct (decide (lock = 0)); [|discriminate].
  do 3 run_step.
  match goal with
  | |- context [run ?prog env t ?w1] =>
      pose proof (initRuntime_phases_keep_instances fuel
                  (bool_decide (wrap32 (count + 1) = 1))
                  (Some q) env t w1) as H;
      set (r := run prog env t w1) in *;
      change (instances r.1.2 = instances w1 ∧ ∀ a, r.1.1 = Returned a → a = Some q) in H
  end.
  destruct H as [Hi Hr]. destruct r as [[o w2] e2]. simpl in *.
  intros H. injection H as -> -> _.
  specialize (Hr _ eq_refl). injection Hr as ->.
  rewrite Hi, lookup_insert_eq. eexists. split; done.
Qed.

Opaque initRuntime deinitRuntime.

(** The check of [Kotlin_initRuntimeIfNeeded] never fails: the state it
    exchanges the status of is fresh from the creation. *)
Lemma Kotlin_initRuntimeIfNeeded_refusal fuel env t w :
  refused_as (run (Kotlin_initRuntimeIfNeeded fuel) env t w) w None.
Proof.
  apply refused_as_not_aborted. intros msg.
  unfold Kotlin_initRuntimeIfNeeded. simpl.
  destruct (runtimeState w !! t) as [p|] eqn:Hslot; [done|].
  rewrite run_bind.
  pose proof (no_fatal_run _ env t w msg (initRuntime_no_fatal fuel)) as Hnf.
  destruct (run (initRuntime fuel) env t w) as [[o w1] e1] eqn:Hinit.
  destruct o as [[p|]| | |]; simpl in *; try done.
  - destruct (initRuntime_Returned _ _ _ _ _ _ _ Hinit) as (st & Hst & Hs).
    destruct w1. simpl in *. rewrite lookup_insert_eq. simpl. rewrite Hst.
    by rewrite decide_True.
  - destruct w1. simpl. by rewrite lookup_delete_eq.
  - intros [= ->]. by apply Hnf.
Qed.

Lemma Kotlin_deinitRuntimeIfNeeded_refusal fuel env t w :
  refused_as (run (Kotlin_deinitRuntimeIfNeeded fuel) env t w) w
             (refusal OpDeinitRuntimeIfNeeded t w).
Proof.
  unfold Kotlin_deinitRuntimeIfNeeded, refusal, status_of. simpl.
  destruct (runtimeState w !! t) as [p|] eqn:Hslot; simpl;
    [|by apply refused_as_not_aborted].
  rewrite Hslot. simpl.
  destruct (instances w !! p) as [st|] eqn:Hp; simpl; [|by apply refused_as_not_aborted].
  destruct (decide (executionStatus st = RUNNING)) as [Hst|Hst]; simpl.
  - apply refused_as_not_aborted. intros msg.
    assert (Hslot' : runtimeState
              (with_instances (<[p:=with_executionStatus DESTROYING st]> (instances w)) w) !! t
            = Some p) by (by destruct w).
    rewrite Hslot'. rewrite !after_outcome.
    match goal with
    | |- (run ?prog env t ?w1).1.1 ≠ _ => apply (no_fatal_run prog)
    end.
    apply no_fatal_bind; [apply deinitRuntime_no_fatal|by intros].
  - apply refused_as_aborted.
Qed.

Lemma Kotlin_destroyRuntime_refusal fuel state env t w :
  refused_as (run (Kotlin_destroyRuntime fuel state) env t w) w
             (refusal (OpDestroyRuntime state) t w).
Proof.
  unfold Kotlin_destroyRuntime, refusal, status_of. simpl.
  destruct state as [p|]; simpl; [|by apply refused_as_not_aborted].
  destruct (instances w !! p) as [st|] eqn:Hp; simpl; [|by apply refused_as_not_aborted].
  destruct (decide (executionStatus st = SUSPENDED)) as [Hst|Hst]; simpl.
  - apply refused_as_not_aborted. intros msg. rewrite !after_outcome.
    apply no_fatal_run, deinitRuntime_no_fatal.
  - apply refused_as_aborted.
Qed.

Lemma Kotlin_suspendRuntime_refusal env t w :
  refused_as (run (Kotlin_suspendRuntime;; Ret tt) env t w) w (refusal OpSuspendRuntime t w).
Proof.
  unfold Kotlin_suspendRuntime, refusal, status_of. simpl.
  destruct (runtimeState w !! t) as [p|] eqn:Hslot; simpl; [|by apply refused_as_aborted].
  rewrite Hslot. simpl.
  destruct (instances w !! p) as [st|] eqn:Hp; simpl; [|by apply refused_as_not_aborted].
  destruct (decide (executionStatus st = RUNNING)) as [Hst|Hst]; simpl.
  - apply refused_as_not_aborted. intros msg.
    destruct w. simpl in *. by rewrite lookup_insert_eq.
  - apply refused_as_aborted.
Qed.

Lemma Kotlin_resumeRuntime_refusal state env t w :
  refused_as (run (Kotlin_resumeRuntime state) env t w) w
             (refusal (OpResumeRuntime state) t w).
Proof.
  unfold Kotlin_resumeRuntime, refusal, status_of. simpl.
  destruct (runtimeState w !! t) as [q|] eqn:Hslot; simpl; [by apply refused_as_aborted|].
  destruct state as [p|]; simpl; [|by apply refused_as_not_aborted].
  destruct (instances w !! p) as [st|] eqn:Hp; simpl; [|by apply refused_as_not_aborted].
  destruct (decide (executionStatus st = SUSPENDED)) as [Hst|Hst]; simpl.
  - apply refused_as_not_aborted. intros msg.
    destruct w. simpl in *. by rewrite lookup_insert_eq.
  - apply refused_as_aborted.
Qed.

(** X12: the checks of the operations. An operation is ended by a check
    exactly in these cases, with these messages: detaching or destroying a
    state that is not RUNNING, respectively not SUSPENDED ("Cannot transition
    state to DESTROYING"); suspending on a thread with an empty slot, or a
    state that is not RUNNING; resuming on a thread whose slot is bound, or a
    state that is not SUSPENDED; reading the runtime of a thread with an empty
    slot. Attaching, creating and the interrupt handler are never ended by a
    check. When a check ends an operation, the operation has written nothing
    and called nothing before. *)
Theorem checks_come_before_any_store (fuel : nat) (op : Operation) (env : Env)
    (t : Z) (w : World) :
  refused_as (run (operation fuel op) env t w) w (refusal op t w).
Proof.
  destruct op as [| | |state| |state| |]; cbn [operation].
  - apply Kotlin_initRuntimeIfNeeded_refusal.
  - apply Kotlin_deinitRuntimeIfNeeded_refusal.
  - rewrite <- (after_nil (run _ env t w)). apply refused_as_no_fatal.
    apply no_fatal_bind; [apply initRuntime_no_fatal|done].
  - apply Kotlin_destroyRuntime_refusal.
  - apply Kotlin_suspendRuntime_refusal.
  - apply Kotlin_resumeRuntime_refusal.
  - unfold Kotlin_getRuntime, refusal. simpl.
    destruct (runtimeState w !! t) as [p|] eqn:Hslot; simpl.
    + by apply refused_as_not_aborted.
    + apply refused_as_aborted.
  - rewrite <- (after_nil (run _ env t w)). apply refused_as_no_fatal.
    apply threadInterruptHandler_no_fatal.
Qed.

Transparent initRuntime deinitRuntime.

(** Destroying the runtime a thread is attached to is refused, and so
    is resuming it there. *)
Example refused_on_an_attached_runtime :
  run (Kotlin_destroyRuntime 8 (Some 1%positive)) (mkEnv None 0) 7 world_attached
    = (Aborted "Cannot transition state to DESTROYING", world_attached, []) ∧
  run (Kotlin_resumeRuntime (Some 1%positive)) (mkEnv None 0) 7 world_attached
    = (Aborted "Runtime must not be active on the current thread", world_attached, []) ∧
  run (Kotlin_resumeRuntime (Some 1%positive)) (mkEnv None 0) 8 world_attached
    = (Aborted "Cannot transition state to RUNNING for resume", world_attached, []).
Proof. done. Qed.

(** ** What no step of an operation does *)

Lemma all_steps_run {A : Type} (Q : World → World → list Event → Prop) (p : Prog A) env t w :
  (∀ w, Q w w []) →
  (∀ w1 w2 w3 e1 e2, Q w1 w2 e1 → Q w2 w3 e2 → Q w1 w3 (e1 ++ e2)) →
  all_steps Q p →
  Q w (run p env t w).1.2 (run p env t w).2.
Proof.
  intros Hrefl Htrans. revert w.
  induction p as [a|msg| |X m k IH]; intros w Hall; simpl in *; try apply Hrefl.
  destruct Hall as [Hm Hk]. specialize (Hm env t w).
  destruct (m env t w) as [x w' evs| |]; try apply Hrefl.
  specialize (IH x w' (Hk x)).
  destruct (run (k x) env t w') as [[o w2] e2]. simpl in *. by eapply Htrans.
Qed.

Lemma exec_all_steps (Q : World → World → list Event → Prop) sched :
  (∀ w, Q w w []) →
  (∀ w1 w2 w3 e1 e2, Q w1 w2 e1 → Q w2 w3 e2 → Q w1 w3 (e1 ++ e2)) →
  ∀ c, (∀ t, all_steps Q (pool c t)) →
    Q (world c) (world (exec sched c).1) (exec sched c).2.*2.
Proof.
  intros Hrefl Htrans.
  induction sched as [|[t0 env] sched IH]; intros c Hall; simpl; [apply Hrefl|].
  unfold thread_step.
  destruct (pool c t0) as [a|msg| |X m k] eqn:Hpool; try by apply IH.
  destruct (m env t0 (world c)) as [x w' evs| |] eqn:Hm; try by apply IH.
  pose proof (Hall t0) as Ht0. rewrite Hpool in Ht0. simpl in Ht0.
  destruct Ht0 as [Hstep Hk]. specialize (Hstep env t0 (world c)). rewrite Hm in Hstep.
  specialize (IH (mkConfig (λ t', if decide (t' = t0) then k x else pool c t') w')).
  destruct (exec sched _) as [c1 tr1]. simpl in *.
  rewrite fmap_app, <- list_fmap_compose, list_fmap_id.
  eapply Htrans; [done|]. apply IH. intros t.
  destruct (decide (t = t0)); [apply Hk|apply Hall].
Qed.

Lemma added_app evs1 evs2 : added (evs1 ++ evs2) = added evs1 + added evs2.
Proof.
  induction evs1 as [|e evs1 IH]; simpl; [done|]. destruct e; try done. lia.
Qed.

Lemma runtime_steps_refl w : runtime_steps w w [].
Proof.
  do 4 (split; [done|]). split; [|done].
  intros Hint. split; [done|]. simpl. rewrite Z.add_0_r. symmetry. by apply wrap32_id.
Qed.

Lemma runtime_steps_trans w1 w2 w3 e1 e2 :
  runtime_steps w1 w2 e1 → runtime_steps w2 w3 e2 → runtime_steps w1 w3 (e1 ++ e2).
Proof.
  intros (Hh1 & Ht1 & Hn1 & Hm1 & Hc1 & He1) (Hh2 & Ht2 & Hn2 & Hm2 & Hc2 & He2).
  split; [congruence|]. split; [congruence|]. split; [congruence|].
  split; [auto|]. split; [|by apply Forall_app].
  intros Hint. destruct (Hc1 Hint) as [Hint2 Hc2']. destruct (Hc2 Hint2) as [Hint3 Hc3].
  split; [done|]. rewrite Hc3, Hc2', added_app, wrap32_add. f_equal. lia.
Qed.

(** A step that leaves the variables of [runtime_steps] as they are. *)
Lemma runtime_steps_quiet hd tl nodes mains count slots slots' lock lock' lst lst' insts insts' evs :
  Forall runtime_event evs →
  added evs = 0 →
  runtime_steps (mkWorld hd tl nodes slots mains count lock lst insts)
                (mkWorld hd tl nodes slots' mains count lock' lst' insts') evs.
Proof.
  intros Hevs Hadd. do 4 (split; [done|]). split; [|done].
  intros Hint. split; [done|]. simpl. rewrite Hadd, Z.add_0_r.
  symmetry. by apply wrap32_id.
Qed.

Lemma atomicAdd_aliveRuntimesCount_runtime_steps what :
  what = 1 ∨ what = -1 →
  all_steps runtime_steps (atomicAdd_aliveRuntimesCount what).
Proof.
  intros Hwhat. simpl. split; [|done]. intros env t [? ? ? ? ? count ? ? ?]. simpl.
  do 4 (split; [done|]). split.
  - intros Hint. split; [apply wrap32_is_int|]. simpl. by rewrite Z.add_0_r.
  - constructor; [done|constructor].
Qed.

Lemma set_isMainThread_runtime_steps : all_steps runtime_steps (set_isMainThread 1).
Proof.
  simpl. split; [|done]. intros env t [? ? ? ? mains count ? ? ?]. simpl.
  do 3 (split; [done|]). split; [|split].
  - simpl. intros t' Ht'. destruct (decide (t' = t)) as [->|Hne].
    + by rewrite lookup_insert_eq.
    + by rewrite lookup_insert_ne.
  - intros Hint. split; [done|]. simpl. rewrite Z.add_0_r. symmetry. by apply wrap32_id.
  - by repeat constructor.
Qed.

Ltac runtime_steps_with known :=
  repeat first
    [ known
    | exact I
    | apply atomicAdd_aliveRuntimesCount_runtime_steps; by auto
    | apply set_isMainThread_runtime_steps
    | apply all_steps_bind; [|intros ?]
    | progress unfold RuntimeCheck
    | match goal with
      | |- all_steps _ (match ?x with _ => _ end) => destruct x
      end
    | progress (step_by_evaluation;
                (apply runtime_steps_quiet; [by repeat constructor|done])) ].

Lemma InitOrDeinitGlobalVariables_loop_runtime_steps n initialize currNode :
  all_steps runtime_steps (InitOrDeinitGlobalVariables_loop n initialize currNode).
Proof.
  revert currNode. induction n as [|n IH]; intros [p|]; cbn [InitOrDeinitGlobalVariables_loop];
    try done.
  runtime_steps_with ltac:(apply IH).
Qed.

Transparent InitOrDeinitGlobalVariables.

Lemma InitOrDeinitGlobalVariables_runtime_steps fuel initialize :
  all_steps runtime_steps (InitOrDeinitGlobalVariables fuel initialize).
Proof.
  unfold InitOrDeinitGlobalVariables.
  runtime_steps_with ltac:(apply InitOrDeinitGlobalVariables_loop_runtime_steps).
Qed.

Opaque InitOrDeinitGlobalVariables.

Lemma initRuntime_runtime_steps fuel : all_steps runtime_steps (initRuntime fuel).
Proof.
  unfold initRuntime, set_threadId, set_handler, set_memoryState, set_next,
    Kotlin_lockRuntimes, Kotlin_unlockRuntimes.
  runtime_steps_with ltac:(apply InitOrDeinitGlobalVariables_runtime_steps).
Qed.

Lemma deinitRuntime_loop_runtime_steps n state current previous :
  all_steps runtime_steps (deinitRuntime_loop n state current previous).
Proof.
  revert current previous. induction n as [|n IH]; intros [p|] previous;
    cbn [deinitRuntime_loop]; try done.
  unfold set_next. runtime_steps_with ltac:(apply IH).
Qed.

Lemma deinitRuntime_runtime_steps fuel state :
  all_steps runtime_steps (deinitRuntime fuel state).
Proof.
  unfold deinitRuntime, Kotlin_lockRuntimes, Kotlin_unlockRuntimes, DeinitMemory.
  runtime_steps_with
    ltac:(first [apply InitOrDeinitGlobalVariables_runtime_steps
                |apply deinitRuntime_loop_runtime_steps]).
Qed.

Lemma client_prog_runtime_steps fuel c : all_steps runtime_steps (client_prog fuel c).
Proof.
  induction c as [|k IH|state k IH|k IH|k IH|k IH|state k IH]; cbn [client_prog].
  - done.
  - apply all_steps_bind; [apply initRuntime_runtime_steps|done].
  - apply all_steps_bind; [|done]. unfold Kotlin_destroyRuntime.
    runtime_steps_with ltac:(apply deinitRuntime_runtime_steps).
  - apply all_steps_bind; [|done]. unfold Kotlin_initRuntimeIfNeeded, onThreadExit.
    runtime_steps_with ltac:(apply initRuntime_runtime_steps).
  - apply all_steps_bind; [|done]. unfold Kotlin_deinitRuntimeIfNeeded.
    runtime_steps_with ltac:(apply deinitRuntime_runtime_steps).
  - apply all_steps_bind; [|done]. unfold Kotlin_suspendRuntime, set_memoryState.
    runtime_steps_with fail.
  - apply all_steps_bind; [|done]. unfold Kotlin_resumeRuntime, ResumeMemory.
    runtime_steps_with fail.
Qed.

Lemma exec_runtime_steps fuel clients sched w :
  runtime_steps w (world (exec sched (start fuel clients w)).1)
                (exec sched (start fuel clients w)).2.*2.
Proof.
  apply (exec_all_steps runtime_steps sched runtime_steps_refl runtime_steps_trans
           (start fuel clients w)).
  intros t. apply client_prog_runtime_steps.
Qed.

Lemma runtime_event_status_edge e : runtime_event e → status_edge e.
Proof. by destruct e. Qed.

Lemma added_count evs :
  Forall runtime_event evs →
  added evs = Z.of_nat (count is_increment evs) - Z.of_nat (count is_decrement evs).
Proof.
  induction 1 as [|e evs He Hevs IH]; [done|].
  destruct e; simpl in *; try lia.
  destruct He as [-> | ->]; simpl; lia.
Qed.

(** X13: in every interleaving of threads that attach, detach, create,
    destroy, suspend and resume, at every point: the initializer chain is the
    one before (its head, its tail and all its nodes): registering
    initializers is the only way to change it; and a thread that was marked
    main is still marked main: the mark is set by a creation that makes the
    count 1 and nothing ever clears it, so that several threads can be marked
    main. *)
Theorem initializers_and_main_marks_stay (fuel : nat) (clients : Z → Client)
    (sched : list (Z * Env)) (w : World) :
  let w' := world (exec sched (start fuel clients w)).1 in
  initHeadNode w' = initHeadNode w ∧
  initTailNode w' = initTailNode w ∧
  initNodes w' = initNodes w ∧
  ∀ t, isMainThread w !! t = Some 1 → isMainThread w' !! t = Some 1.
Proof.
  destruct (exec_runtime_steps fuel clients sched w) as (Hh & Ht & Hn & Hm & _).
  simpl. auto.
Qed.

(** Thread 7 creates and destroys a runtime, and then thread 8 creates
    one: both creations made the count 1, and both threads are marked
    main. *)
Example two_main_threads :
  let w' :=
    (run (state <- Kotlin_createRuntime 8;; Kotlin_destroyRuntime 8 state)
         (mkEnv (Some 1%positive) 100) 7 initial_world).1.2 in
  let w'' := (run (Kotlin_createRuntime 8) (mkEnv (Some 2%positive) 200) 8 w').1.2 in
  isMainThread w'' !! 7 = Some 1 ∧ isMainThread w'' !! 8 = Some 1 ∧
  aliveRuntimesCount w'' = 1.
Proof. vm_compute. done. Qed.

(** X14: no update of the count is lost. In every interleaving, at every
    point, the count of alive runtimes is the count at the start plus the
    number of increments minus the number of decrements of the run, on 32
    bits; every atomic add of the run is an increment or a decrement by one. *)
Theorem count_has_no_lost_update (fuel : nat) (clients : Z → Client)
    (sched : list (Z * Env)) (w : World) :
  is_int (aliveRuntimesCount w) →
  let r := exec sched (start fuel clients w) in
  aliveRuntimesCount (world r.1)
    = wrap32 (aliveRuntimesCount w
              + Z.of_nat (count is_increment r.2.*2) - Z.of_nat (count is_decrement r.2.*2)) ∧
  Forall (λ e, match e with EvAtomicAdd what _ _ => what = 1 ∨ what = -1 | _ => True end)
         r.2.*2.
Proof.
  intros Hint.
  destruct (exec_runtime_steps fuel clients sched w) as (_ & _ & _ & _ & Hc & He).
  destruct (Hc Hint) as [_ Hc']. simpl. split.
  - rewrite Hc', (added_count _ He). f_equal. lia.
  - eapply Forall_impl; [done|]. intros e. by destruct e.
Qed.

Lemma count_has_no_lost_update_witness :
  let r := exec turn_by_turn (start 8 two_clients world_two_initializers) in
  aliveRuntimesCount (world r.1)
    = wrap32 (aliveRuntimesCount world_two_initializers
              + Z.of_nat (count is_increment r.2.*2) - Z.of_nat (count is_decrement r.2.*2)) ∧
  Forall (λ e, match e with EvAtomicAdd what _ _ => what = 1 ∨ what = -1 | _ => True end)
         r.2.*2.
Proof.
  apply (count_has_no_lost_update 8 two_clients turn_by_turn world_two_initializers).
  unfold is_int. simpl. lia.
Defined.

(** X15: the status machine. In every interleaving, every exchange of a status
    that succeeds is one of: SUSPENDED to RUNNING (attach, resume), RUNNING to
    SUSPENDED (suspend), RUNNING to DESTROYING (detach), SUSPENDED to
    DESTROYING (destroy). And no operation installs an interrupt handler: the
    only store to the handler of a state is the null one of its creation. *)
Theorem status_changes_follow_the_machine (fuel : nat) (clients : Z → Client)
    (sched : list (Z * Env)) (w : World) :
  let tr := (exec sched (start fuel clients w)).2 in
  Forall status_edge tr.*2 ∧
  Forall (λ e, ∀ p h, e ≠ EvSetHandler p (Some h)) tr.*2.
Proof.
  destruct (exec_runtime_steps fuel clients sched w) as (_ & _ & _ & _ & _ & He).
  simpl. split.
  - eapply Forall_impl; [done|]. apply runtime_event_status_edge.
  - eapply Forall_impl; [done|]. intros e Hev p h ->. done.
Qed.

(** ** The lock of the list of runtimes *)

Lemma locks_bind {A B : Type} inside mid post (p : Prog A) (f : A → Prog B) :
  locks inside mid p → (∀ a, locks mid post (f a)) → locks inside post (bind p f).
Proof.
  revert inside. induction p as [a|msg| |X m k IH]; intros inside Hp Hf; simpl in *; try done.
  - subst. apply Hf.
  - intros env t w. specialize (Hp env t w).
    destruct (m env t w) as [x w' evs| |]; try done.
    destruct Hp as (inside' & Hstep & Hk). exists inside'. split; [done|]. by apply IH.
Qed.

Lemma locks_atom {X : Type} inside post (m : Atomic X) :
  (∀ env t w,
     match m env t w with
     | Done _ w' evs => lock_step inside w w' evs post
     | _ => True
     end) →
  locks inside post (atom m).
Proof.
  intros Hm env t w. specialize (Hm env t w).
  destruct (m env t w) as [x w' evs| |]; try done. by exists post.
Qed.

(** One atomic step that keeps the lock and stays where it is. *)
Ltac locks_step_by_evaluation :=
  apply locks_atom;
  intros ? ? [? ? ? ? ? ? ? ? ?]; simpl;
  repeat case_match; simplify_eq; done.

Ltac locks_steps known :=
  repeat first
    [ known
    | match goal with
      | |- locks ?i ?i (Ret _) => reflexivity
      | |- locks _ _ (Fatal _) => exact I
      | |- locks _ _ Spin => exact I
      | |- locks ?i _ (bind _ _) => apply (locks_bind i i); [|intros ?]
      | |- locks _ _ (match ?x with _ => _ end) => destruct x
      end
    | progress unfold RuntimeCheck
    | locks_step_by_evaluation ].

Lemma InitOrDeinitGlobalVariables_loop_locks inside n initialize currNode :
  locks inside inside (InitOrDeinitGlobalVariables_loop n initialize currNode).
Proof.
  revert currNode. induction n as [|n IH]; intros [p|]; cbn [InitOrDeinitGlobalVariables_loop];
    try done.
  locks_steps ltac:(apply IH).
Qed.

Transparent InitOrDeinitGlobalVariables.

Lemma InitOrDeinitGlobalVariables_locks inside fuel initialize :
  locks inside inside (InitOrDeinitGlobalVariables fuel initialize).
Proof.
  unfold InitOrDeinitGlobalVariables.
  locks_steps ltac:(apply InitOrDeinitGlobalVariables_loop_locks).
Qed.

Opaque InitOrDeinitGlobalVariables.

Lemma Kotlin_lockRuntimes_locks : locks false true Kotlin_lockRuntimes.
Proof.
  apply locks_atom. intros env t w. simpl.
  destruct (decide (runtimesLock w = 0)); [|done]. by destruct w.
Qed.

Lemma Kotlin_unlockRuntimes_locks : locks true false Kotlin_unlockRuntimes.
Proof. apply locks_atom. intros env t w. simpl. by destruct w. Qed.

(** Inside: a step that stores to the list and keeps the lock. *)
Ltac locks_inside known :=
  repeat first
    [ known
    | match goal with
      | |- locks true true (Ret _) => reflexivity
      | |- locks _ _ Spin => exact I
      | |- locks true _ (bind _ _) => apply (locks_bind true true); [|intros ?]
      | |- locks _ _ (match ?x with _ => _ end) => destruct x
      end
    | locks_step_by_evaluation ].

Lemma initRuntime_locks fuel : locks false false (initRuntime fuel).
Proof.
  unfold initRuntime, set_threadId, set_handler, set_memoryState.
  apply (locks_bind false false); [locks_steps fail|]. intros _.
  apply (locks_bind false false); [locks_steps fail|]. intros [p|]; [|done].
  do 6 (apply (locks_bind false false); [locks_steps fail|]; intros ?).
  apply (locks_bind false true); [apply Kotlin_lockRuntimes_locks|]. intros _.
  unfold set_next.
  do 3 (apply (locks_bind true true); [locks_inside fail|]; intros ?).
  apply (locks_bind true false); [apply Kotlin_unlockRuntimes_locks|]. intros _.
  locks_steps ltac:(apply InitOrDeinitGlobalVariables_locks).
Qed.

Lemma deinitRuntime_loop_locks n state current previous :
  locks true true (deinitRuntime_loop n state current previous).
Proof.
  revert current previous. induction n as [|n IH]; intros [p|] previous;
    cbn [deinitRuntime_loop]; try done.
  unfold set_next. locks_inside ltac:(apply IH).
Qed.

Lemma deinitRuntime_locks fuel state : locks false false (deinitRuntime fuel state).
Proof.
  unfold deinitRuntime.
  do 3 (apply (locks_bind false false);
        [locks_steps ltac:(apply InitOrDeinitGlobalVariables_locks)|]; intros ?).
  apply (locks_bind false true); [apply Kotlin_lockRuntimes_locks|]. intros _.
  apply (locks_bind true true); [locks_inside fail|]. intros current.
  apply (locks_bind true true); [apply deinitRuntime_loop_locks|]. intros _.
  apply (locks_bind true false); [apply Kotlin_unlockRuntimes_locks|]. intros _.
  unfold DeinitMemory. locks_steps fail.
Qed.

Lemma client_prog_locks fuel c : locks false false (client_prog fuel c).
Proof.
  induction c as [|k IH|state k IH|k IH|k IH|k IH|state k IH]; cbn [client_prog].
  - done.
  - apply (locks_bind false false); [apply initRuntime_locks|done].
  - apply (locks_bind false false); [|done]. unfold Kotlin_destroyRuntime.
    locks_steps ltac:(apply deinitRuntime_locks).
  - apply (locks_bind false false); [|done]. unfold Kotlin_initRuntimeIfNeeded, onThreadExit.
    locks_steps ltac:(apply initRuntime_locks).
  - apply (locks_bind false false); [|done]. unfold Kotlin_deinitRuntimeIfNeeded.
    locks_steps ltac:(apply deinitRuntime_locks).
  - apply (locks_bind false false); [|done]. unfold Kotlin_suspendRuntime, set_memoryState.
    locks_steps fail.
  - apply (locks_bind false false); [|done]. unfold Kotlin_resumeRuntime, ResumeMemory.
    locks_steps fail.
Qed.

Lemma mutex_run_app holder tr1 tr2 :
  mutex_run holder (tr1 ++ tr2)
  = match mutex_run holder tr1 with
    | Some holder' => mutex_run holder' tr2
    | None => None
    end.
Proof.
  revert holder. induction tr1 as [|te tr1 IH]; intros holder; simpl; [done|].
  by destruct (mutex_step holder te).
Qed.

(** One step of thread [t0], seen in the run of all threads: the holder
    after it goes with the lock word, and with where each thread is. *)
Lemma lock_step_mutex holder t0 w w' evs inside' :
  runtimesLock w = lock_word holder →
  lock_step (bool_decide (holder = Some t0)) w w' evs inside' →
  ∃ holder',
    mutex_run holder (map (pair t0) evs) = Some holder' ∧
    runtimesLock w' = lock_word holder' ∧
    inside' = bool_decide (holder' = Some t0) ∧
    ∀ t, t ≠ t0 → bool_decide (holder' = Some t) = bool_decide (holder = Some t).
Proof.
  intros Hlock Hstep.
  destruct evs as [|e [|e' evs]]; simpl in Hstep.
  - destruct Hstep as [-> Hw']. exists holder. simpl. by rewrite Hw'.
  - destruct e; simpl;
      try (destruct Hstep as (-> & Hw' & Hstore); exists holder; simpl;
           split; [done|]; split; [congruence|]; by split).
    + (* spinLock *)
      destruct Hstep as (Hout & -> & Hw & Hw').
      destruct holder as [h|]; [simpl in Hlock; congruence|].
      exists (Some t0). simpl. split; [done|]. split; [done|].
      split; [by rewrite bool_decide_eq_true_2|].
      intros t Ht. rewrite !bool_decide_eq_false_2; [done|congruence..].
    + (* spinUnlock *)
      destruct Hstep as (Hin & -> & Hw').
      apply bool_decide_eq_true in Hin. subst holder.
      exists None. unfold mutex_step. simpl. rewrite decide_True by done.
      split; [done|]. split; [done|]. split; [done|].
      intros t Ht. rewrite !bool_decide_eq_false_2; [done|congruence..].
    + (* a store to a link *)
      destruct Hstep as (-> & Hw' & Hstore).
      specialize (Hstore eq_refl). apply bool_decide_eq_true in Hstore. subst holder.
      exists (Some t0). unfold mutex_step. simpl. rewrite decide_True by done.
      split; [done|]. split; [by rewrite Hw'|]. by split.
    + (* a store to the head *)
      destruct Hstep as (-> & Hw' & Hstore).
      specialize (Hstore eq_refl). apply bool_decide_eq_true in Hstore. subst holder.
      exists (Some t0). unfold mutex_step. simpl. rewrite decide_True by done.
      split; [done|]. split; [by rewrite Hw'|]. by split.
  - by destruct e.
Qed.

Lemma exec_mutex sched :
  ∀ c holder,
    runtimesLock (world c) = lock_word holder →
    (∀ t, locks (bool_decide (holder = Some t)) false (pool c t)) →
    ∃ holder',
      mutex_run holder (exec sched c).2 = Some holder' ∧
      runtimesLock (world (exec sched c).1) = lock_word holder'.
Proof.
  induction sched as [|[t0 env] sched IH]; intros c holder Hlock Hall; simpl.
  { by exists holder. }
  unfold thread_step.
  destruct (pool c t0) as [a|msg| |X m k] eqn:Hpool; try by apply IH.
  destruct (m env t0 (world c)) as [x w' evs| |] eqn:Hm; try by apply IH.
  pose proof (Hall t0) as Ht0. rewrite Hpool in Ht0. simpl in Ht0.
  specialize (Ht0 env t0 (world c)). rewrite Hm in Ht0.
  destruct Ht0 as (inside' & Hstep & Hk).
  destruct (lock_step_mutex holder t0 _ _ _ _ Hlock Hstep)
    as (holder1 & Hrun1 & Hlock1 & -> & Hothers).
  destruct (IH (mkConfig (λ t', if decide (t' = t0) then k x else pool c t') w') holder1)
    as (holder' & Hrun & Hlock'); [done| |].
  { intros t. simpl. destruct (decide (t = t0)) as [->|Hne]; [done|].
    rewrite Hothers by done. apply Hall. }
  destruct (exec sched _) as [c1 tr1]. simpl in *.
  exists holder'. split; [|done]. by rewrite mutex_run_app, Hrun1.
Qed.

(** X16: mutual exclusion on the list of runtimes. In every interleaving of
    threads that attach, detach, create, destroy, suspend and resume, started
    with the lock free: a thread takes the lock only when no thread holds it,
    only the thread that holds the lock releases it, and every store to the
    list (to its head or to the link of a state) is made by the thread that
    holds the lock then. The lock word is 1 when a thread holds the lock and 0
    when none does. *)
Theorem list_stores_are_under_the_lock (fuel : nat) (clients : Z → Client)
    (sched : list (Z * Env)) (w : World) :
  runtimesLock w = 0 →
  let r := exec sched (start fuel clients w) in
  ∃ holder,
    mutex_run None r.2 = Some holder ∧
    runtimesLock (world r.1) = lock_word holder.
Proof.
  intros Hlock. apply exec_mutex; [done|].
  intros t. simpl. apply client_prog_locks.
Qed.

Lemma list_stores_are_under_the_lock_witness :
  let r := exec turn_by_turn (start 8 two_clients world_two_initializers) in
  ∃ holder,
    mutex_run None r.2 = Some holder ∧
    runtimesLock (world r.1) = lock_word holder.
Proof.
  apply (list_stores_are_under_the_lock 8 two_clients turn_by_turn world_two_initializers).
  reflexivity.
Defined.

(** In the run of the two threads the lock is taken four times, and
    nobody holds it at the end. *)
Example two_threads_lock :
  let r := exec turn_by_turn (start 8 two_clients world_two_initializers) in
  mutex_run None r.2 = Some None ∧
  count (λ e, match e with EvSpinLock => true | _ => false end) r.2.*2 = 4%nat ∧
  count is_list_store r.2.*2 = 6%nat.
Proof. vm_compute. done. Qed.

(** ** Registering a node twice *)

(** Every node of a chain is there, and its link is the node after it in
    the chain, or null for the last one. *)
Lemma is_chain_links nodes head l c :
  is_chain nodes head l →
  c ∈ l.*1 →
  ∃ f nx, nodes !! c = Some (mkInitNode f nx) ∧
          ((nx = None ∧ last l.*1 = Some c) ∨ (∃ c', nx = Some c' ∧ c' ∈ l.*1)).
Proof.
  revert head. induction l as [|[c0 f0] l IH]; intros head Hc Hin.
  { by apply elem_of_nil in Hin. }
  rewrite fmap_cons in *. cbn [is_chain fst snd] in *.
  destruct Hc as (-> & nx & Hc0 & Hc).
  assert (Hnx : (nx = None ∧ last (c0 :: l.*1) = Some c0)
                ∨ (∃ c', nx = Some c' ∧ c' ∈ c0 :: l.*1)).
  { destruct l as [|[c1 f1] l']; cbn [is_chain fst snd] in Hc.
    - left. by subst.
    - right. destruct Hc as (-> & _). exists c1. split; [done|].
      rewrite fmap_cons. apply list_elem_of_further, list_elem_of_here. }
  destruct (decide (c = c0)) as [->|Hne].
  { by exists f0, nx. }
  apply elem_of_cons in Hin as [->|Hin]; [done|].
  destruct (IH nx Hc Hin) as (f & nx' & Hlook & Hcase).
  exists f, nx'. split; [done|].
  destruct Hcase as [[-> Hlast]|(c' & -> & Hc')].
  - left. split; [done|]. by rewrite last_cons, Hlast.
  - right. exists c'. split; [done|]. by apply list_elem_of_further.
Qed.

(** A walk of nodes whose links never leave a set goes on for ever: it
    uses up any fuel. *)
Lemma InitOrDeinitGlobalVariables_loop_hangs (S : loc → Prop) n initialize c env t w :
  (∀ c, S c → ∃ f c', initNodes w !! c = Some (mkInitNode f (Some c')) ∧ S c') →
  S c →
  (run (InitOrDeinitGlobalVariables_loop n initialize (Some c)) env t w).1.1 = Hung.
Proof.
  intros Hclosed. revert c. induction n as [|n IH]; intros c Hc; [done|].
  destruct (Hclosed c Hc) as (f & c' & Hlook & Hc').
  cbn [InitOrDeinitGlobalVariables_loop]. simpl. rewrite Hlook. simpl. rewrite Hlook. simpl.
  rewrite !after_outcome. by apply IH.
Qed.

Transparent InitOrDeinitGlobalVariables.

(** X17: registering a node that is in the chain already closes the chain into
    a ring: the link of the last node is made to point back to it. Every phase
    after that walks the ring for ever, whatever the fuel: there is no check
    for a node that is registered twice. *)
Theorem registering_twice_hangs (fuel : nat) (initialize : Z) (env : Env) (t : Z)
    (w : World) (l : list (loc * fnptr)) (p : loc) :
  chain_registered w l →
  p ∈ l.*1 →
  (run (AppendToInitializersTail (Some p);; InitOrDeinitGlobalVariables fuel initialize)
       env t w).1.1 = Hung.
Proof.
  intros (Hchain & Hnd & Htail) Hp.
  assert (Hne : l ≠ []) by (intros ->; by apply elem_of_nil in Hp).
  specialize (Htail Hne).
  destruct (last l.*1) as [q|] eqn:Hlast;
    [|by apply last_None, fmap_nil_inv in Hlast].
  assert (Hq : q ∈ l.*1) by (by apply last_Some_elem_of).
  destruct (is_chain_links _ _ _ q Hchain Hq) as (fq & nxq & Hlookq & _).
  assert (Hclosed : ∀ c, c ∈ l.*1 →
            ∃ f c', <[q:=mkInitNode fq (Some p)]> (initNodes w) !! c
                    = Some (mkInitNode f (Some c')) ∧ c' ∈ l.*1).
  { intros c Hc. destruct (decide (c = q)) as [->|Hcq].
    - exists fq, p. by rewrite lookup_insert_eq.
    - rewrite lookup_insert_ne by done.
      destruct (is_chain_links _ _ _ c Hchain Hc) as (f & nx & Hlook & Hcase).
      destruct Hcase as [[_ Hl]|(c' & -> & Hc')]; [congruence|].
      by exists f, c'. }
  assert (Hhead : ∃ c0, initHeadNode w = Some c0 ∧ c0 ∈ l.*1).
  { destruct l as [|[c0 f0] l']; [done|]. destruct Hchain as (-> & _).
    exists c0. split; [done|]. rewrite fmap_cons. apply list_elem_of_here. }
  destruct Hhead as (c0 & Hhead & Hc0).
  clear Hchain Hnd Hp Hne Hq Hlast.
  destruct w as [hd tl nodes slots mains count lock lst insts].
  simpl in Htail, Hlookq, Hclosed, Hhead. subst hd tl.
  unfold AppendToInitializersTail, InitOrDeinitGlobalVariables. simpl.
  rewrite Hlookq. simpl. rewrite !after_outcome.
  by apply (InitOrDeinitGlobalVariables_loop_hangs (λ c, c ∈ l.*1)).
Qed.

Opaque InitOrDeinitGlobalVariables.

Lemma registering_twice_hangs_witness :
  (run (AppendToInitializersTail (Some 10%positive);;
        InitOrDeinitGlobalVariables 1000 INIT_GLOBALS)
       (mkEnv None 0) 7 world_two_initializers).1.1 = Hung.
Proof.
  apply (registering_twice_hangs 1000 INIT_GLOBALS (mkEnv None 0) 7 world_two_initializers
           [(10%positive, 20%positive); (11%positive, 21%positive)] 10%positive).
  - split; [|split].
    + simpl. split; [reflexivity|]. exists (Some 11%positive).
      split; [reflexivity|]. split; [reflexivity|]. exists None.
      split; reflexivity.
    + simpl. apply NoDup_cons. split.
      * intros Hin. apply elem_of_cons in Hin as [Hin|Hin]; [discriminate|].
        by apply elem_of_nil in Hin.
      * apply NoDup_cons. split; [apply not_elem_of_nil|apply NoDup_nil_2].
    + intros _. reflexivity.
  - simpl. apply list_elem_of_here.
Defined.

(** ** The slots of the threads *)

Lemma others_keep_status_refl s w : others_keep_status s w w [].
Proof. split; [done|]. intros q st _ Hq. by exists st. Qed.

Lemma others_keep_status_trans s w1 w2 w3 e1 e2 :
  others_keep_status s w1 w2 e1 → others_keep_status s w2 w3 e2 →
  others_keep_status s w1 w3 (e1 ++ e2).
Proof.
  intros [Hs1 Hi1] [Hs2 Hi2]. split; [congruence|].
  intros q st Hq Hst. destruct (Hi1 q st Hq Hst) as (st2 & Hst2 & He2).
  destruct (Hi2 q st2 Hq Hst2) as (st3 & Hst3 & He3).
  exists st3. split; [done|congruence].
Qed.

(** One atomic step that keeps the slots and the statuses, by
    evaluation. *)
Ltac keep_status_atom :=
  step_by_evaluation;
  (split; [done|]); intros ?q ?st ?Hs ?Hq; simpl in *;
  first
    [ by eauto
    | match goal with
      | |- context [<[?k:=_]> _ !! ?q] =>
          destruct (decide (q = k)) as [->|?];
          [rewrite lookup_insert_eq|rewrite lookup_insert_ne by done]
      | |- context [delete ?k _ !! ?q] =>
          destruct (decide (q = k)) as [->|?];
          [congruence|rewrite lookup_delete_ne by done]
      end; simplify_eq; by eauto ].

Ltac keep_status_steps known :=
  repeat first
    [ known
    | exact I
    | apply all_steps_bind; [|intros ?]
    | progress unfold RuntimeCheck
    | match goal with
      | |- all_steps _ (match ?x with _ => _ end) => destruct x
      end
    | keep_status_atom ].

Lemma InitOrDeinitGlobalVariables_loop_keep_status s n initialize currNode :
  all_steps (others_keep_status s) (InitOrDeinitGlobalVariables_loop n initialize currNode).
Proof.
  revert currNode. induction n as [|n IH]; intros [p|]; cbn [InitOrDeinitGlobalVariables_loop];
    try done.
  keep_status_steps ltac:(apply IH).
Qed.

Transparent InitOrDeinitGlobalVariables.

Lemma InitOrDeinitGlobalVariables_keep_status s fuel initialize :
  all_steps (others_keep_status s) (InitOrDeinitGlobalVariables fuel initialize).
Proof.
  unfold InitOrDeinitGlobalVariables.
  keep_status_steps ltac:(apply InitOrDeinitGlobalVariables_loop_keep_status).
Qed.

Opaque InitOrDeinitGlobalVariables.

Lemma initRuntime_keep_status fuel : all_steps (others_keep_status None) (initRuntime fuel).
Proof.
  unfold initRuntime, set_threadId, set_handler, set_memoryState, set_next,
    Kotlin_lockRuntimes, Kotlin_unlockRuntimes.
  keep_status_steps ltac:(apply InitOrDeinitGlobalVariables_keep_status).
Qed.

Lemma deinitRuntime_loop_keep_status s n state current previous :
  all_steps (others_keep_status s) (deinitRuntime_loop n state current previous).
Proof.
  revert current previous. induction n as [|n IH]; intros [p|] previous;
    cbn [deinitRuntime_loop]; try done.
  unfold set_next. keep_status_steps ltac:(apply IH).
Qed.

Lemma deinitRuntime_keep_status fuel state :
  all_steps (others_keep_status state) (deinitRuntime fuel state).
Proof.
  unfold deinitRuntime, Kotlin_lockRuntimes, Kotlin_unlockRuntimes, DeinitMemory.
  keep_status_steps
    ltac:(first [apply InitOrDeinitGlobalVariables_keep_status
                |apply deinitRuntime_loop_keep_status]).
Qed.

Lemma threadInterruptHandler_loop_keep_status s n tid current :
  all_steps (others_keep_status s) (threadInterruptHandler_loop n tid current).
Proof.
  revert current. induction n as [|n IH]; intros [p|]; cbn [threadInterruptHandler_loop];
    try done.
  keep_status_steps ltac:(apply IH).
Qed.

Lemma threadInterruptHandler_keep_status s fuel ignore :
  all_steps (others_keep_status s) (threadInterruptHandler fuel ignore).
Proof.
  unfold threadInterruptHandler.
  keep_status_steps ltac:(apply threadInterruptHandler_loop_keep_status).
Qed.

(** Slots that are the same and statuses that are kept, but for a state
    that is in no slot, keep the slots bound to RUNNING states. *)
Lemma slots_hold_running_frame s w w' evs :
  slots_hold_running w →
  others_keep_status s w w' evs →
  (∀ t, runtimeState w !! t = s → s = None) →
  slots_hold_running w'.
Proof.
  intros Hinv [Hslots Hkeep] Hs t p Hp. rewrite Hslots in Hp.
  destruct (Hinv t p Hp) as [(st & Hst & Hrun) Huniq]. split.
  - destruct (Hkeep p st) as (st' & Hst' & He); [|done|].
    + intros <-. by specialize (Hs t Hp).
    + exists st'. split; [done|congruence].
  - intros t'. rewrite Hslots. apply Huniq.
Qed.

Lemma run_all_steps_keep_status {A : Type} s (p : Prog A) env t w :
  all_steps (others_keep_status s) p →
  others_keep_status s w (run p env t w).1.2 (run p env t w).2.
Proof.
  intros Hall. apply all_steps_run; [apply others_keep_status_refl| |done].
  apply others_keep_status_trans.
Qed.

(** A store to the state [p] that is in no slot, after which the slots
    are as before. *)
Lemma slots_hold_running_unbound w p st' :
  slots_hold_running w →
  (∀ t, runtimeState w !! t ≠ Some p) →
  slots_hold_running (with_instances (<[p:=st']> (instances w)) w).
Proof.
  intros Hinv Hp t q Hq. destruct w as [hd tl nodes slots mains count lock lst insts].
  simpl in *. destruct (Hinv t q Hq) as [(st & Hst & Hrun) Huniq]. split; [|done].
  assert (q ≠ p) by (intros ->; by apply (Hp t)).
  exists st. by rewrite lookup_insert_ne.
Qed.

(** Binding to the slot of [t], which is empty, a state that is in no
    slot, and making it RUNNING. *)
Lemma slots_hold_running_bind w t p st :
  slots_hold_running w →
  (∀ t', runtimeState w !! t' ≠ Some p) →
  executionStatus st = RUNNING →
  slots_hold_running
    (with_runtimeState (<[t:=p]> (runtimeState w))
       (with_instances (<[p:=st]> (instances w)) w)).
Proof.
  intros Hinv Hp Hst t1 p1. destruct w as [hd tl nodes slots mains count lock lst insts].
  simpl in *. intros Hp1.
  destruct (decide (t1 = t)) as [->|Hne].
  - rewrite lookup_insert_eq in Hp1. injection Hp1 as <-. split.
    + exists st. by rewrite lookup_insert_eq.
    + intros t'. destruct (decide (t' = t)) as [->|Hne']; [done|].
      rewrite lookup_insert_ne by done. intros Hb. by destruct (Hp t').
  - rewrite lookup_insert_ne in Hp1 by done.
    destruct (Hinv t1 p1 Hp1) as [(st1 & Hst1 & Hrun) Huniq].
    assert (p1 ≠ p) by (intros ->; by apply (Hp t1)).
    split.
    + exists st1. by rewrite lookup_insert_ne.
    + intros t'. destruct (decide (t' = t)) as [->|Hne'].
      * rewrite lookup_insert_eq. congruence.
      * rewrite lookup_insert_ne by done. apply Huniq.
Qed.

(** Emptying the slot of [t]; the state it held may be gone or have any
    status then. *)
Lemma slots_hold_running_unbind w w' t p :
  slots_hold_running w →
  runtimeState w !! t = Some p →
  others_keep_status (Some p) w w' [] →
  slots_hold_running (with_runtimeState (delete t (runtimeState w')) w').
Proof.
  intros Hinv Hslot [Hslots Hkeep] t1 p1.
  destruct w' as [hd tl nodes slots mains count lock lst insts]. simpl in *. subst slots.
  intros Hp1.
  destruct (decide (t1 = t)) as [->|Hne]; [by rewrite lookup_delete_eq in Hp1|].
  rewrite lookup_delete_ne in Hp1 by done.
  destruct (Hinv t1 p1 Hp1) as [(st1 & Hst1 & Hrun) Huniq].
  assert (p1 ≠ p).
  { intros ->. destruct (Hinv t p Hslot) as [_ Huniq']. by specialize (Huniq' t1 Hp1). }
  split.
  - destruct (Hkeep p1 st1) as (st' & Hst' & He); [congruence|done|].
    exists st'. split; [done|congruence].
  - intros t'. destruct (decide (t' = t)) as [->|Hne'].
    + by rewrite lookup_delete_eq.
    + rewrite lookup_delete_ne by done. apply Huniq.
Qed.

Lemma others_keep_status_store p w st' evs :
  others_keep_status (Some p) w (with_instances (<[p:=st']> (instances w)) w) evs.
Proof.
  destruct w as [hd tl nodes slots mains count lock lst insts]. split; [done|]. simpl.
  intros q st Hq Hst. exists st. rewrite lookup_insert_ne; [done|congruence].
Qed.

Lemma others_keep_status_after s w1 w2 w3 e1 e2 e3 :
  others_keep_status s w1 w2 e1 → others_keep_status s w2 w3 e2 →
  others_keep_status s w1 w3 e3.
Proof.
  intros H1 H2. destruct (others_keep_status_trans _ _ _ _ _ _ H1 H2) as [? ?]. by split.
Qed.

(** A state that is not RUNNING is in no slot. *)
Lemma slots_hold_running_not_bound w p st :
  slots_hold_running w →
  instances w !! p = Some st →
  executionStatus st ≠ RUNNING →
  ∀ t, runtimeState w !! t ≠ Some p.
Proof.
  intros Hinv Hp Hst t Ht. destruct (Hinv t p Ht) as [(st' & Hst' & Hrun) _]. congruence.
Qed.

Opaque initRuntime deinitRuntime.

(** X18: one thread at most runs a runtime. If every slot that is bound holds
    a state that is there and RUNNING, and no state is in the slots of two
    threads, then this is so again after every operation that returns: attach,
    detach, create, destroy, suspend, resume, reading the current runtime, an
    interrupt. *)
Theorem slots_hold_running_is_kept (fuel : nat) (op : Operation) (env : Env) (t : Z)
    (w w' : World) (evs : list Event) :
  slots_hold_running w →
  run (operation fuel op) env t w = (Returned tt, w', evs) →
  slots_hold_running w'.
Proof.
  intros Hinv. destruct op as [| | |state| |state| |]; cbn [operation].
  - (* attach *)
    unfold Kotlin_initRuntimeIfNeeded. simpl.
    destruct (runtimeState w !! t) as [p|] eqn:Hslot; [by intros [= <- <-]|].
    rewrite run_bind.
    pose proof (run_all_steps_keep_status None _ env t w (initRuntime_keep_status fuel))
      as Hframe.
    destruct (run (initRuntime fuel) env t w) as [[o w1] e1] eqn:Hinit.
    destruct o as [[p|]| | |]; simpl in *; try discriminate.
    + destruct (initRuntime_Returned _ _ _ _ _ _ _ Hinit) as (st & Hst & Hs).
      assert (Hinv1 : slots_hold_running w1).
      { by apply (slots_hold_running_frame None w w1 e1). }
      pose proof (slots_hold_running_bind w1 t p (with_executionStatus RUNNING st) Hinv1)
        as Hbind.
      assert (Hfree : ∀ t', runtimeState w1 !! t' ≠ Some p).
      { apply (slots_hold_running_not_bound w1 p st); [done|done|by rewrite Hs]. }
      destruct w1 as [hd tl nodes slots mains count lock lst insts]. simpl in *.
      rewrite lookup_insert_eq. simpl. rewrite Hst. rewrite decide_True by done. simpl.
      intros [= <- <-]. by apply Hbind.
    + destruct w1. simpl. by rewrite lookup_delete_eq.
  - (* detach *)
    unfold Kotlin_deinitRuntimeIfNeeded. simpl.
    destruct (runtimeState w !! t) as [p|] eqn:Hslot; simpl; [|by intros [= <- <-]].
    rewrite Hslot. simpl.
    destruct (instances w !! p) as [st|] eqn:Hp; [|discriminate].
    destruct (decide (executionStatus st = RUNNING)) as [Hst|Hst]; [|discriminate].
    simpl.
    set (w1 := with_instances (<[p:=with_executionStatus DESTROYING st]> (instances w)) w).
    assert (Hslot' : runtimeState w1 !! t = Some p) by (by destruct w).
    rewrite Hslot'. rewrite run_bind.
    pose proof (run_all_steps_keep_status (Some p) _ env t w1
                  (deinitRuntime_keep_status fuel (Some p))) as Hframe.
    destruct (run (deinitRuntime fuel (Some p)) env t w1) as [[o w2] e2].
    destruct o as [[]| | |]; simpl in *; try discriminate.
    intros [= <- <-]. apply (slots_hold_running_unbind w w2 t p); [done|done|].
    apply (others_keep_status_after (Some p) w w1 w2 [] e2 []); [|done].
    apply others_keep_status_store.
  - (* create *)
    intros Hrun.
    assert (Hall : all_steps (others_keep_status None) (Kotlin_createRuntime fuel;; Ret tt)).
    { apply all_steps_bind; [apply initRuntime_keep_status|done]. }
    pose proof (run_all_steps_keep_status None _ env t w Hall) as Hframe.
    rewrite Hrun in Hframe. simpl in Hframe.
    by apply (slots_hold_running_frame None w w' evs).
  - (* destroy *)
    unfold Kotlin_destroyRuntime. simpl.
    destruct state as [p|]; [|discriminate].
    destruct (instances w !! p) as [st|] eqn:Hp; [|discriminate].
    destruct (decide (executionStatus st = SUSPENDED)) as [Hst|Hst]; [|discriminate].
    simpl.
    set (w1 := with_instances (<[p:=with_executionStatus DESTROYING st]> (instances w)) w).
    pose proof (run_all_steps_keep_status (Some p) _ env t w1
                  (deinitRuntime_keep_status fuel (Some p))) as Hframe.
    destruct (run (deinitRuntime fuel (Some p)) env t w1) as [[o w2] e2].
    destruct o as [[]| | |]; simpl in *; try discriminate.
    intros [= <- <-]. apply (slots_hold_running_frame (Some p) w w2 []); [done| |].
    + apply (others_keep_status_after (Some p) w w1 w2 [] e2 []); [|done].
      apply others_keep_status_store.
    + intros t' Ht'. exfalso.
      apply (slots_hold_running_not_bound w p st Hinv Hp) in Ht'; [done|by rewrite Hst].
  - (* suspend *)
    unfold Kotlin_suspendRuntime. simpl.
    destruct (runtimeState w !! t) as [p|] eqn:Hslot; simpl; [|discriminate].
    rewrite Hslot. simpl.
    destruct (instances w !! p) as [st|] eqn:Hp; [|discriminate].
    destruct (decide (executionStatus st = RUNNING)) as [Hst|Hst]; [|discriminate].
    pose proof (λ st', slots_hold_running_unbind w _ t p Hinv Hslot
                         (others_keep_status_store p w st' [])) as Hunbind.
    destruct w as [hd tl nodes slots mains count lock lst insts]. simpl in *.
    rewrite lookup_insert_eq. simpl. rewrite insert_insert_eq.
    intros [= <- <-]. apply Hunbind.
  - (* resume *)
    unfold Kotlin_resumeRuntime. simpl.
    destruct (runtimeState w !! t) as [q|] eqn:Hslot; simpl; [discriminate|].
    destruct state as [p|]; [|discriminate]. simpl.
    destruct (instances w !! p) as [st|] eqn:Hp; [|discriminate].
    destruct (decide (executionStatus st = SUSPENDED)) as [Hst|Hst]; [|discriminate].
    pose proof (slots_hold_running_bind w t p (with_executionStatus RUNNING st) Hinv) as Hbind.
    pose proof (slots_hold_running_not_bound w p st Hinv Hp) as Hfree.
    destruct w as [hd tl nodes slots mains count lock lst insts]. simpl in *.
    rewrite lookup_insert_eq. simpl.
    intros [= <- <-]. apply Hbind; [|done]. apply Hfree. by rewrite Hst.
  - (* reading the current runtime *)
    unfold Kotlin_getRuntime. simpl.
    destruct (runtimeState w !! t) as [p|] eqn:Hslot; simpl; [|discriminate].
    by intros [= <- <-].
  - (* an interrupt *)
    intros Hrun.
    pose proof (run_all_steps_keep_status None _ env t w
                  (threadInterruptHandler_keep_status None fuel 0)) as Hframe.
    rewrite Hrun in Hframe. simpl in Hframe.
    by apply (slots_hold_running_frame None w w' evs).
Qed.

Transparent initRuntime deinitRuntime.

Lemma slots_hold_running_is_kept_witness :
  slots_hold_running
    (run (operation 8 (OpResumeRuntime (Some 1%positive))) (mkEnv None 0) 7
         world_one_runtime).1.2.
Proof.
  apply (slots_hold_running_is_kept 8 (OpResumeRuntime (Some 1%positive)) (mkEnv None 0) 7
           world_one_runtime _
           (run (operation 8 (OpResumeRuntime (Some 1%positive))) (mkEnv None 0) 7
                world_one_runtime).2).
  - intros t p Hp. simpl in Hp. by rewrite lookup_empty in Hp.
  - reflexivity.
Defined.

(** ** The main thread *)

(** X19: the creation that makes the count 1 makes its thread the main thread:
    [CheckIsMainThread] passes there right after it. After a creation that
    makes the count something else, on a thread that is not marked, it throws. *)
Theorem CheckIsMainThread_of_a_creator (fuel : nat) (env : Env) (t : Z) (w : World)
    (p : loc) (chain : list (loc * fnptr)) :
  env_alloc env = Some p →
  instances w !! p = None →
  runtimesLock w = 0 →
  is_int (aliveRuntimesCount w) →
  isMainThread w !! t = None →
  is_chain (initNodes w) (initHeadNode w) chain →
  (length chain ≤ fuel)%nat →
  run (Kotlin_createRuntime fuel;; CheckIsMainThread) env t w
    = (Returned (if decide (aliveRuntimesCount w = 0) then inr tt
                 else inl IncorrectDereferenceException),
       world_created p t (env_memory env) w,
       events_created p t (env_memory env) w chain).
Proof.
  intros Halloc Hfresh Hlock Hint Hmain Hchain Hfuel.
  rewrite run_bind. unfold Kotlin_createRuntime.
  rewrite (initRuntime_run fuel env t w p chain) by done.
  unfold world_created, CheckIsMainThread. simpl.
  rewrite (bool_decide_ext _ _ (wrap32_increment_1 _ Hint)).
  destruct (decide (aliveRuntimesCount w = 0)) as [Hc|Hc].
  - rewrite !bool_decide_eq_true_2 by done. rewrite lookup_insert_eq. simpl.
    by rewrite app_nil_r.
  - rewrite !bool_decide_eq_false_2 by done. rewrite Hmain. simpl.
    by rewrite app_nil_r.
Qed.

Lemma CheckIsMainThread_of_a_creator_witness :
  run (Kotlin_createRuntime 8;; CheckIsMainThread) (mkEnv (Some 1%positive) 100) 7
      world_two_initializers
    = (Returned (if decide (aliveRuntimesCount world_two_initializers = 0) then inr tt
                 else inl IncorrectDereferenceException),
       world_created 1%positive 7 100 world_two_initializers,
       events_created 1%positive 7 100 world_two_initializers
         [(10%positive, 20%positive); (11%positive, 21%positive)]).
Proof.
  apply (CheckIsMainThread_of_a_creator 8 (mkEnv (Some 1%positive) 100) 7
           world_two_initializers 1%positive
           [(10%positive, 20%positive); (11%positive, 21%positive)]).
  - reflexivity.
  - reflexivity.
  - reflexivity.
  - unfold is_int. simpl. lia.
  - reflexivity.
  - simpl. split; [reflexivity|]. exists (Some 11%positive).
    split; [reflexivity|]. split; [reflexivity|]. exists None.
    split; reflexivity.
  - simpl. lia.
Defined.

(** X20: once main, always main. A thread that is marked main passes
    [CheckIsMainThread] at every later point of every interleaving of threads
    that attach, detach, create, destroy, suspend and resume, also when all
    runtimes have been destroyed since. *)
Theorem CheckIsMainThread_once_main_always_main (fuel : nat) (clients : Z → Client)
    (sched : list (Z * Env)) (w : World) (env : Env) (t : Z) :
  isMainThread w !! t = Some 1 →
  let w' := world (exec sched (start fuel clients w)).1 in
  run CheckIsMainThread env t w' = (Returned (inr tt), w', []).
Proof.
  intros Hmain.
  destruct (exec_runtime_steps fuel clients sched w) as (_ & _ & _ & Hm & _).
  specialize (Hm t Hmain). simpl.
  unfold CheckIsMainThread. simpl. by rewrite Hm.
Qed.

Lemma CheckIsMainThread_once_main_always_main_witness :
  let w' := world (exec turn_by_turn (start 8 two_clients world_attached)).1 in
  run CheckIsMainThread (mkEnv None 0) 7 w' = (Returned (inr tt), w', []).
Proof.
  apply (CheckIsMainThread_once_main_always_main 8 two_clients turn_by_turn world_attached
           (mkEnv None 0) 7).
  reflexivity.
Defined.

(** ** Suspending here and resuming there *)

(** X21: a runtime that is suspended on one thread can be resumed on another
    one whose slot is empty: it is then in the slot of that thread and
    RUNNING, and the slot of the first thread is empty. The state keeps the
    thread id of the thread that created it; only its memory handle has
    changed, to what SuspendMemory gave. *)
Theorem suspended_runtime_moves (env env' : Env) (t t' : Z) (w : World)
    (p : loc) (st : RuntimeState) :
  runtimeState w !! t = Some p →
  instances w !! p = Some st →
  executionStatus st = RUNNING →
  runtimeState w !! t' = None →
  and_then (run Kotlin_suspendRuntime env t w)
           (λ state w1, run (Kotlin_resumeRuntime state) env' t' w1)
    = (Returned tt,
       with_runtimeState (<[t':=p]> (delete t (runtimeState w)))
         (with_instances
            (<[p:=mkRuntimeState (threadId st) (handler st) (env_memory env) RUNNING (next st)]>
               (instances w)) w),
       [EvStatus p RUNNING SUSPENDED; EvSuspendMemory (env_memory env);
        EvSetMemoryState p (env_memory env); EvSetRuntimeState None;
        EvStatus p SUSPENDED RUNNING; EvSetRuntimeState (Some p);
        EvResumeMemory (env_memory env)]).
Proof.
  intros Hslot Hp Hst Hslot'.
  rewrite (Kotlin_suspendRuntime_run env t w p st) by done.
  cbn [and_then].
  rewrite (Kotlin_resumeRuntime_run env' t' _ p
             (mkRuntimeState (threadId st) (handler st) (env_memory env) SUSPENDED (next st))).
  - destruct w as [hd tl nodes slots mains count lock lst insts]. simpl.
    by rewrite insert_insert_eq.
  - destruct w as [hd tl nodes slots mains count lock lst insts]. simpl in *.
    destruct (decide (t' = t)) as [->|Hne]; [by rewrite lookup_delete_eq|].
    by rewrite lookup_delete_ne.
  - destruct w. simpl. by rewrite lookup_insert_eq.
  - done.
Qed.

Lemma suspended_runtime_moves_witness :
  let st := mkRuntimeState 7 (Some 5%positive) 100 RUNNING None in
  and_then (run Kotlin_suspendRuntime (mkEnv None 150) 7 world_attached)
           (λ state w1, run (Kotlin_resumeRuntime state) (mkEnv None 0) 8 w1)
    = (Returned tt,
       with_runtimeState (<[8:=1%positive]> (delete 7 (runtimeState world_attached)))
         (with_instances
            (<[1%positive:=mkRuntimeState (threadId st) (handler st) 150 RUNNING (next st)]>
               (instances world_attached)) world_attached),
       [EvStatus 1%positive RUNNING SUSPENDED; EvSuspendMemory 150;
        EvSetMemoryState 1%positive 150; EvSetRuntimeState None;
        EvStatus 1%positive SUSPENDED RUNNING; EvSetRuntimeState (Some 1%positive);
        EvResumeMemory 150]).
Proof.
  apply (suspended_runtime_moves (mkEnv None 150) (mkEnv None 0) 7 8 world_attached 1%positive
           (mkRuntimeState 7 (Some 5%positive) 100 RUNNING None)).
  - reflexivity.
  - reflexivity.
  - reflexivity.
  - reflexivity.
Defined.

(** ** The lock is not reentrant *)

(** X22: a creation while the lock is held: the state is allocated and
    initialized, and the count is incremented, before the creation waits for
    the lock. Alone on its thread it waits for ever; until the lock is
    released the count includes a runtime that is not in the list. *)
Theorem Kotlin_createRuntime_waits_counted (fuel : nat) (env : Env) (t : Z) (w : World)
    (p : loc) :
  env_alloc env = Some p →
  instances w !! p = None →
  runtimesLock w ≠ 0 →
  run (Kotlin_createRuntime fuel) env t w
    = (Hung,
       with_aliveRuntimesCount (wrap32 (aliveRuntimesCount w + 1))
         (with_instances
            (<[p:=mkRuntimeState t None (env_memory env) 0 None]> (instances w)) w),
       [EvSetKonanTerminateHandler;
        EvKonanConstructInstance (Some p);
        EvSetThreadId p t;
        EvSetHandler p None;
        EvInitMemory (env_memory env);
        EvSetMemoryState p (env_memory env);
        EvAtomicAdd 1 (aliveRuntimesCount w) (wrap32 (aliveRuntimesCount w + 1))]).
Proof.
  intros Halloc Hfresh Hlock. world_destruct w.
  unfold Kotlin_createRuntime, initRuntime. simpl. rewrite Halloc, Hfresh.
  do 4 run_step.
  by rewrite decide_False.
Qed.

Lemma Kotlin_createRuntime_waits_counted_witness :
  run (Kotlin_createRuntime 8) (mkEnv (Some 2%positive) 200) 8 world_one_runtime_locked
    = (Hung,
       with_aliveRuntimesCount (wrap32 (aliveRuntimesCount world_one_runtime_locked + 1))
         (with_instances
            (<[2%positive:=mkRuntimeState 8 None 200 0 None]>
               (instances world_one_runtime_locked)) world_one_runtime_locked),
       [EvSetKonanTerminateHandler;
        EvKonanConstructInstance (Some 2%positive);
        EvSetThreadId 2%positive 8;
        EvSetHandler 2%positive None;
        EvInitMemory 200;
        EvSetMemoryState 2%positive 200;
        EvAtomicAdd 1 (aliveRuntimesCount world_one_runtime_locked)
          (wrap32 (aliveRuntimesCount world_one_runtime_locked + 1))]).
Proof.
  apply (Kotlin_createRuntime_waits_counted 8 (mkEnv (Some 2%positive) 200) 8
           world_one_runtime_locked 2%positive).
  - reflexivity.
  - reflexivity.
  - simpl. lia.
Defined.

(** ** Reading the current runtime *)

(** X23: [Kotlin_getRuntime] returns the state in the slot of the thread and
    never a null pointer: with an empty slot it ends the process. It changes
    nothing. *)
Theorem Kotlin_getRuntime_returns_the_slot (env : Env) (t : Z) (w : World) :
  run Kotlin_getRuntime env t w
    = match runtimeState w !! t with
      | Some p => (Returned (Some p), w, [])
      | None => (Aborted "Runtime must be active on the current thread", w, [])
      end.
Proof.
  unfold Kotlin_getRuntime. simpl.
  destruct (runtimeState w !! t) as [p|] eqn:Hslot; simpl; [|done].
  by rewrite Hslot.
Qed.

(** ** An interrupt on a thread with a runtime *)

(** X24: with a runtime in the slot of the thread, the interrupt handler takes
    that one, whatever the lock word and the list are: it calls the handler of
    that state if it has one, and nothing else. *)
Theorem threadInterruptHandler_takes_the_slot (fuel : nat) (ignore : Z) (env : Env)
    (t : Z) (w : World) (p : loc) (st : RuntimeState) :
  runtimeState w !! t = Some p →
  instances w !! p = Some st →
  run (threadInterruptHandler fuel ignore) env t w
    = (Returned tt, w,
       match handler st with
       | Some h => [EvHandler h p]
       | None => []
       end).
Proof.
  intros Hslot Hp. rewrite (threadInterruptHandler_bound fuel ignore env t w p) by eauto.
  unfold handler_events. by rewrite Hp.
Qed.

Lemma threadInterruptHandler_takes_the_slot_witness :
  run (threadInterruptHandler 8 0) (mkEnv None 0) 7 (with_runtimesLock 1 world_attached)
    = (Returned tt, with_runtimesLock 1 world_attached, [EvHandler 5%positive 1%positive]).
Proof.
  apply (threadInterruptHandler_takes_the_slot 8 0 (mkEnv None 0) 7
           (with_runtimesLock 1 world_attached) 1%positive
           (mkRuntimeState 7 (Some 5%positive) 100 RUNNING None)).
  - reflexivity.
  - reflexivity.
Defined.

(** ** The count and the list *)










Opaque initRuntime deinitRuntime.


Transparent initRuntime deinitRuntime.


(** ** Two ways to the same end *)

Lemma world_destroyed_store p st st' l w :
  instances w !! p = Some st →
  next st' = next st →
  world_destroyed p st' l (with_instances (<[p:=st']> (instances w)) w)
  = world_destroyed p st l w.
Proof.
  intros Hp Hnext. unfold world_destroyed, unlink. rewrite Hnext.
  destruct (pred_of None p l) as [q|] eqn:Hq.
  - assert (q ≠ p) by (by apply (pred_of_ne None p l q)).
    destruct w as [hd tl nodes slots mains count lock lst insts]. simpl in *.
    rewrite lookup_insert_ne by done.
    destruct (insts !! q) as [stq|]; simpl.
    + f_equal. rewrite !(delete_insert_ne _ p q) by done. by rewrite delete_insert_eq.
    + f_equal. by rewrite delete_insert_eq.
  - destruct w as [hd tl nodes slots mains count lock lst insts]. simpl in *.
    f_equal. by rewrite delete_insert_eq.
Qed.

Lemma world_destroyed_with_runtimeState p st l slots w :
  world_destroyed p st l (with_runtimeState slots w)
  = with_runtimeState slots (world_destroyed p st l w).
Proof.
  unfold world_destroyed, unlink.
  destruct (pred_of None p l) as [q|].
  - destruct w as [hd tl nodes slots0 mains count lock lst insts]. simpl.
    by destruct (insts !! q).
  - by destruct w.
Qed.

Opaque deinitRuntime.

(** X26: suspending the runtime of a thread and then destroying it leaves the
    same world as detaching the thread: the state is out of the list and
    freed, the count is one down and the slot of the thread is empty. (The two
    ways differ in what they show: the memory is suspended first, and
    DeinitMemory gets the handle of the suspension.) *)
Theorem suspend_then_destroy_is_detach (fuel : nat) (env env' : Env) (t t' : Z) (w : World)
    (p : loc) (st : RuntimeState) (l : list loc) (chain : list (loc * fnptr)) :
  runtimeState w !! t = Some p →
  instances w !! p = Some st →
  executionStatus st = RUNNING →
  is_registry (instances w) (runtimeStateList w) l →
  p ∈ l →
  (length l ≤ fuel)%nat →
  runtimesLock w = 0 →
  is_chain (initNodes w) (initHeadNode w) chain →
  (length chain ≤ fuel)%nat →
  ∃ evs evs',
    and_then (run Kotlin_suspendRuntime env t w)
             (λ state w1, run (Kotlin_destroyRuntime fuel state) env' t' w1)
      = (Returned tt,
         with_runtimeState (delete t (runtimeState w)) (world_destroyed p st l w), evs) ∧
    run (Kotlin_deinitRuntimeIfNeeded fuel) env t w
      = (Returned tt,
         with_runtimeState (delete t (runtimeState w)) (world_destroyed p st l w), evs').
Proof.
  intros Hslot Hp Hst Hreg Hin Hfuel Hlock Hchain Hfuel'.
  set (st1 := mkRuntimeState (threadId st) (handler st) (env_memory env) SUSPENDED (next st)).
  set (w0 := with_instances (<[p:=st1]> (instances w)) w).
  assert (Hp0 : instances w0 !! p = Some st1).
  { unfold w0. destruct w. simpl. by rewrite lookup_insert_eq. }
  assert (Hreg0 : is_registry (instances w0) (runtimeStateList w0) l).
  { unfold w0. destruct w. simpl in *. by apply (is_registry_insert_same_next _ _ _ _ st). }
  eexists _, _. split.
  - rewrite (Kotlin_suspendRuntime_run env t w p st) by done. cbn [and_then].
    fold st1. fold w0.
    set (w1 := with_runtimeState (delete t (runtimeState w)) w0).
    unfold Kotlin_destroyRuntime. rewrite run_bind.
    assert (Hcas : run (updateStatusIf (Some p) SUSPENDED DESTROYING) env' t' w1
                   = (Returned true,
                      with_runtimeState (delete t (runtimeState w))
                        (with_instances
                           (<[p:=with_executionStatus DESTROYING st1]> (instances w0)) w0),
                      [EvStatus p SUSPENDED DESTROYING])).
    { unfold w1. destruct w0 as [hd tl nodes slots mains count lock lst insts].
      simpl in *. rewrite Hp0. simpl. done. }
    rewrite Hcas. cbn [and_then RuntimeCheck]. rewrite run_bind. cbn [run and_then after].
    rewrite (deinitRuntime_run fuel env' t' _ p (with_executionStatus DESTROYING st1) l chain).
    + rewrite world_destroyed_with_runtimeState.
      rewrite (world_destroyed_store p st1 _ l w0) by done.
      unfold w0. rewrite (world_destroyed_store p st st1 l w) by done.
      cbn [after]. reflexivity.
    + destruct w0; simpl in *. by apply (is_registry_insert_same_next _ _ _ _ st1).
    + done.
    + done.
    + destruct w0; simpl. by rewrite lookup_insert_eq.
    + unfold w0. by destruct w.
    + unfold w0. by destruct w.
    + done.
  - rewrite <- (world_destroyed_status p st l w DESTROYING Hp).
    unfold Kotlin_deinitRuntimeIfNeeded. simpl. rewrite Hslot. simpl.
    rewrite Hslot. simpl. rewrite Hp. rewrite decide_True by done. simpl.
    assert (Hslot' : runtimeState
              (with_instances (<[p:=with_executionStatus DESTROYING st]> (instances w)) w) !! t
            = Some p) by (by destruct w).
    rewrite Hslot'. rewrite run_bind.
    rewrite (deinitRuntime_run fuel env t _ p (with_executionStatus DESTROYING st) l chain).
    + set (w' := world_destroyed _ _ _ _).
      assert (Hslots : runtimeState w' = runtimeState w).
      { unfold w'. rewrite world_destroyed_runtimeState. by destruct w. }
      simpl. rewrite Hslots. by destruct w.
    + destruct w; simpl in *. by apply (is_registry_insert_same_next _ _ _ _ st).
    + done.
    + done.
    + destruct w; simpl. by rewrite lookup_insert_eq.
    + by destruct w.
    + by destruct w.
    + done.
Qed.

Transparent deinitRuntime.

Lemma suspend_then_destroy_is_detach_witness :
  let st := mkRuntimeState 7 (Some 5%positive) 100 RUNNING None in
  let w' := with_runtimeState (delete 7 (runtimeState world_attached))
              (world_destroyed 1%positive st [1%positive] world_attached) in
  ∃ evs evs',
    and_then (run Kotlin_suspendRuntime (mkEnv None 150) 7 world_attached)
             (λ state w1, run (Kotlin_destroyRuntime 1 state) (mkEnv None 0) 8 w1)
      = (Returned tt, w', evs) ∧
    run (Kotlin_deinitRuntimeIfNeeded 1) (mkEnv None 150) 7 world_attached
      = (Returned tt, w', evs').
Proof.
  apply (suspend_then_destroy_is_detach 1 (mkEnv None 150) (mkEnv None 0) 7 8 world_attached
           1%positive (mkRuntimeState 7 (Some 5%positive) 100 RUNNING None) [1%positive] []).
  - reflexivity.
  - reflexivity.
  - reflexivity.
  - simpl. split; [reflexivity|]. eexists. split; reflexivity.
  - apply list_elem_of_here.
  - simpl. lia.
  - reflexivity.
  - reflexivity.
  - simpl. lia.
Defined.

(** ** [updateStatusIf] without threads *)

(** X27: the two ways [updateStatusIf] is compiled agree on one thread: the
    load and the store of the build without threads, run alone, end as the
    compare-and-exchange does, leave the same world and show the same store. *)
Theorem updateStatusIf_no_threads_agrees (state : option loc) (oldStatus newStatus : Z)
    (env : Env) (t : Z) (w : World) :
  run (updateStatusIf_no_threads state oldStatus newStatus) env t w
  = run (updateStatusIf state oldStatus newStatus) env t w.
Proof.
  unfold updateStatusIf_no_threads, updateStatusIf. simpl.
  destruct state as [p|]; simpl; [|done].
  destruct (instances w !! p) as [st|] eqn:Hp; simpl; [|done].
  destruct (decide (executionStatus st = oldStatus)); simpl; [|done].
  by rewrite Hp.
Qed.
